(** * PlantAdvisor: the forward-chaining rule engine

    A shallow embedding of the inference core of the repository
    ([src/core/sintaxis_reglas.py], [src/core/memoria_trabajo.py],
    [src/core/agenda.py], [src/knowledge/parser_reglas.py],
    [src/core/motor_inferencia.py]) and the properties its specification
    states about it; then of what surrounds the core
    ([src/sistema_experto.py], [src/knowledge/base_conocimiento.py] with its
    twenty rules, the endpoint of [src/web/api.py] and the lists
    [src/main.py] reads out of the trace), with further properties of the
    code.

    Conventions of the embedding.
    - Python values of type [Any] are [None], booleans, integers, strings
      and lists of these, which is what the rule base holds; floats and
      dictionaries, which a request can also carry, are left out.
    - [float] fields (confidence, priority, weight) are rationals: the code
      only stores and compares them.
    - [datetime.now()] is a reading of an external clock: an integer taken
      from the environment, with no assumption that successive readings grow.
    - A Python [set] iterates in an order the language leaves open; the
      environment fixes that order too.
    - A raised exception is the result [Lanza].
    - Console output is left out, but for the line [assert_hecho] prints: it
      formats data of the caller, and [print] raises on a value that it
      cannot format or encode.  The console is a parameter ([Consola]), and
      the functions named [..._print] are the calls with that line. *)

From Stdlib Require Import Ascii QArith DecimalString DecimalN.
From stdpp Require Import gmap strings list fin_maps sorting.

Set Warnings "-register-all,-clear-no-such-hyp".

Local Open Scope Z_scope.

(** ** Outcomes of a call *)

Inductive excepcion : Type :=
| KeyError
| ValueError.

(** [SinCombustible] belongs to the model alone: the [while] loop of the
    engine is unrolled over a counter, and this is the outcome of a counter
    that was too small.  [inferir_devuelve] shows that [inferir] never ends
    so on a store that satisfies its invariant. *)
Inductive res (A : Type) : Type :=
| Devuelve (a : A)
| Lanza (e : excepcion)
| SinCombustible.

Arguments Devuelve {A} a.
Arguments Lanza {A} e.
Arguments SinCombustible {A}.

(** Sequencing: the computation first, then what is done with its value. *)
Definition res_ligar {A B : Type} (c : res A) (f : A → res B) : res B :=
  match c with
  | Devuelve a => f a
  | Lanza e => Lanza e
  | SinCombustible => SinCombustible
  end.

Declare Scope res_scope.
Delimit Scope res_scope with res.
Bind Scope res_scope with res.

Notation "x <- c ;; k" := (res_ligar c (λ x, k))
  (at level 62, c at next level, right associativity) : res_scope.

Local Open Scope res_scope.

Definition res_map {A B : Type} (f : A → B) (c : res A) : res B :=
  (x <- c ;; Devuelve (f x))%res.

(** [[f(x) for x in l]], stopping at the first call that raises. *)
Fixpoint res_mapM {A B : Type} (f : A → res B) (l : list A) : res (list B) :=
  match l with
  | [] => Devuelve []
  | x :: l' => (y <- f x ;; ys <- res_mapM f l' ;; Devuelve (y :: ys))%res
  end.

Definition lanza_error {A} (r : res A) : Prop := ∃ e, r = Lanza e.

(** ** Values *)

Inductive Any : Type :=
| PyNone
| PyBool (b : bool)
| PyInt (n : Z)
| PyStr (s : string)
| PyList (l : list Any).

(** Python's [==] on these values; [bool] is a subclass of [int], so
    [True == 1] and [False == 0]. *)
Fixpoint py_eq (a b : Any) : bool :=
  match a, b with
  | PyNone, PyNone => true
  | PyBool x, PyBool y => Bool.eqb x y
  | PyBool x, PyInt y => Z.b2z x =? y
  | PyInt x, PyBool y => x =? Z.b2z y
  | PyInt x, PyInt y => x =? y
  | PyStr x, PyStr y => String.eqb x y
  | PyList xs, PyList ys =>
      (fix todos (xs ys : list Any) : bool :=
         match xs, ys with
         | [], [] => true
         | x :: xs', y :: ys' => py_eq x y && todos xs' ys'
         | _, _ => false
         end) xs ys
  | _, _ => false
  end.

(** [isinstance(v, list)] *)
Definition es_lista (v : Any) : bool :=
  match v with PyList _ => true | _ => false end.

(** [x in v] for a list [v] *)
Definition py_in (x : Any) (l : list Any) : bool :=
  existsb (λ e, py_eq e x) l.

(** One step of the scan of [max]: an item replaces the maximum so far only
    when its key is strictly greater. *)
Definition py_max_paso {A K : Type} (gt : K → K → bool) (key : A → K)
    (acc : A * K) (item : A) : A * K :=
  let val := key item in
  if gt val (snd acc) then (item, val) else acc.

(** [max(iterable, key=...)]: the first item of greatest key; [ValueError]
    on an empty iterable. *)
Definition py_max {A K : Type} (gt : K → K → bool) (key : A → K)
    (l : list A) : res A :=
  match l with
  | [] => Lanza ValueError
  | x :: xs => Devuelve (fst (fold_left (py_max_paso gt key) xs (x, key x)))
  end.

(** [a > b] on the rationals that stand for floats. *)
Definition Qgtb (a b : Q) : bool := negb (Qle_bool a b).

(** ** sintaxis_reglas.py *)

Inductive TipoHecho : Type := INICIAL | DERIVADO | CONCLUSION.

Inductive OperadorCondicion : Type :=
| IGUAL | DIFERENTE | MENOR | MENOR_IGUAL | MAYOR | MAYOR_IGUAL
| CONTIENE | EN | NO_EN | EXISTE | NO_EXISTE | COINCIDE_PATRON.

Inductive TipoAccion : Type :=
| ASSERT | RETRACT | MODIFY | CONCLUDE | CALL_FUNCTION | SET_VARIABLE
| INCREMENT | RECOMMEND.

#[global] Instance TipoHecho_eq_dec : EqDecision TipoHecho.
Proof. solve_decision. Defined.

#[global] Instance TipoHecho_countable : Countable TipoHecho.
Proof.
  refine (inj_countable'
    (λ t, match t with INICIAL => 0%nat | DERIVADO => 1%nat | CONCLUSION => 2%nat end)
    (λ n, match n with 0%nat => INICIAL | 1%nat => DERIVADO | _ => CONCLUSION end) _).
  by intros [].
Defined.

#[global] Instance OperadorCondicion_eq_dec : EqDecision OperadorCondicion.
Proof. solve_decision. Defined.

#[global] Instance TipoAccion_eq_dec : EqDecision TipoAccion.
Proof. solve_decision. Defined.

Module CondicionRegla.
Record t : Type := mk {
  predicado : string;
  operador : OperadorCondicion;
  valor : Any;
  variable : option string;
  peso : Q;
  explicacion : string
}.
End CondicionRegla.

Module AccionRegla.
Record t : Type := mk {
  tipo : TipoAccion;
  predicado : string;
  valor : Any;
  parametros : gmap string Any;
  confianza : Q;
  explicacion : string
}.
End AccionRegla.

(** The record is a rule after [__post_init__] has run: [especificidad] and
    [complejidad] are integers.  [nueva] is the constructor call, with the
    two optional arguments as the caller gives them. *)
Module ReglaProduccionAcademica.
Record t : Type := mk {
  id : string;
  nombre : string;
  condiciones : list CondicionRegla.t;
  acciones : list AccionRegla.t;
  prioridad : Q;
  especificidad : Z;
  complejidad : Z;
  descripcion : string;
  dominio : string;
  fuente_conocimiento : string
}.

Definition nueva (id nombre : string) (condiciones : list CondicionRegla.t)
    (acciones : list AccionRegla.t) (prioridad : Q)
    (especificidad complejidad : option Z)
    (descripcion dominio fuente_conocimiento : string) : t :=
  mk id nombre condiciones acciones prioridad
     (default (Z.of_nat (length condiciones)) especificidad)
     (default (Z.of_nat (length condiciones) + Z.of_nat (length acciones)) complejidad)
     descripcion dominio fuente_conocimiento.
End ReglaProduccionAcademica.

(** The operators and action kinds the enumerations declare and the
    evaluator has no branch for. *)
Definition operador_sin_implementar (o : OperadorCondicion) : bool :=
  match o with
  | MENOR | MENOR_IGUAL | MAYOR | MAYOR_IGUAL | CONTIENE | COINCIDE_PATRON => true
  | _ => false
  end.

Definition accion_sin_implementar (k : TipoAccion) : bool :=
  match k with
  | RETRACT | MODIFY | CALL_FUNCTION | SET_VARIABLE | INCREMENT => true
  | _ => false
  end.

(** ** The environment: set iteration order and the clock *)

Record Entorno : Type := {
  iterar : gset string → list string;
  iterar_perm : ∀ X, iterar X ≡ₚ elements X;
  reloj : nat → Z
}.

(** ** memoria_trabajo.py *)

Module Hecho.
Record t : Type := mk {
  id : string;
  predicado : string;
  valor : Any;
  tipo : TipoHecho;
  origen : option string;
  timestamp : Z;
  justificacion : string;
  confianza : Q
}.
End Hecho.

Record MemoriaTrabajo : Type := {
  _hechos : gmap string Hecho.t;
  _indice_por_predicado : gmap string (gset string);
  _indice_por_tipo : gmap TipoHecho (gset string);
  _contador_hechos : N
}.

(** [{t: set() for t in TipoHecho}] *)
Definition indice_por_tipo_vacio : gmap TipoHecho (gset string) :=
  <[INICIAL := ∅]> (<[DERIVADO := ∅]> (<[CONCLUSION := ∅]> ∅)).

Definition MemoriaTrabajo_init : MemoriaTrabajo :=
  {| _hechos := ∅;
     _indice_por_predicado := ∅;
     _indice_por_tipo := indice_por_tipo_vacio;
     _contador_hechos := 0%N |}.

(** [f"{n:04d}"]: decimal digits, padded with zeros on the left to four. *)
Fixpoint ceros (k : nat) : string :=
  match k with
  | O => EmptyString
  | S k' => String "0"%char (ceros k')
  end.

Definition formato_04d (n : N) : string :=
  let s := NilEmpty.string_of_uint (N.to_uint n) in
  ceros (4 - String.length s) +:+ s.

Definition id_de_numero (n : N) : string := "F" +:+ formato_04d n.

(** The sequence number an identifier carries. *)
Definition numero_de_id (s : string) : option N :=
  match s with
  | String "F"%char r => N.of_uint <$> NilEmpty.uint_of_string r
  | _ => None
  end.

Definition _generar_id_hecho (m : MemoriaTrabajo) : string * MemoriaTrabajo :=
  let n := (_contador_hechos m + 1)%N in
  (id_de_numero n,
   {| _hechos := _hechos m;
      _indice_por_predicado := _indice_por_predicado m;
      _indice_por_tipo := _indice_por_tipo m;
      _contador_hechos := n |}).

(** [assert_hecho] up to the filing of the fact (lines 27 to 36), with the
    identifier the call is about to return; the line it prints before it
    returns is the matter of [assert_hecho_print] below.  [ahora] is the
    clock reading the [Hecho] constructor takes. *)
Definition assert_hecho (ahora : Z) (m : MemoriaTrabajo) (predicado : string)
    (valor : Any) (tipo : TipoHecho) (origen : option string)
    (justificacion : string) (confianza : Q)
    : res (string * MemoriaTrabajo) :=
  let '(hecho_id, m1) := _generar_id_hecho m in
  let hecho := Hecho.mk hecho_id predicado valor tipo origen ahora
                        justificacion confianza in
  let hechos := <[Hecho.id hecho := hecho]> (_hechos m1) in
  let por_predicado :=
    <[Hecho.predicado hecho :=
        default ∅ (_indice_por_predicado m1 !! Hecho.predicado hecho)
        ∪ {[Hecho.id hecho]}]> (_indice_por_predicado m1) in
  match _indice_por_tipo m1 !! Hecho.tipo hecho with
  | None => Lanza KeyError
  | Some ids =>
      Devuelve (hecho_id,
        {| _hechos := hechos;
           _indice_por_predicado := por_predicado;
           _indice_por_tipo :=
             <[Hecho.tipo hecho := ids ∪ {[Hecho.id hecho]}]> (_indice_por_tipo m1);
           _contador_hechos := _contador_hechos m1 |})
  end.

(** *** The line [assert_hecho] prints *)

(** Of the lines the program prints, one carries data of the caller: the
    line of [assert_hecho] (line 37), which formats the category, the
    predicate and the value of the fact just filed.  [print] raises there
    when the value cannot be formatted or the text cannot be encoded for the
    console: [ValueError] for an integer of more digits than the interpreter
    converts to text, [UnicodeEncodeError], a [ValueError] too, for a
    character that the encoding of the console lacks.  Which values those
    are is a matter of the interpreter and of the console, so that the
    console is a parameter: [print_hecho C tipo predicado valor] is the
    exception the line raises, if it raises. *)
Record Consola : Type := {
  print_hecho : TipoHecho → string → Any → option excepcion
}.

(** [assert_hecho] as a whole: [assert_hecho] above is the call up to the
    filing of the fact (lines 27 to 36); then the line is printed, and the
    identifier returned.  When the print raises the store keeps the fact:
    the result is either the identifier returned or the exception raised,
    with the store the call leaves in both cases. *)
Definition assert_hecho_print (C : Consola) (ahora : Z) (m : MemoriaTrabajo)
    (predicado : string) (valor : Any) (tipo : TipoHecho)
    (origen : option string) (justificacion : string) (confianza : Q)
    : res (res string * MemoriaTrabajo) :=
  im <- assert_hecho ahora m predicado valor tipo origen justificacion confianza ;;
  Devuelve (match print_hecho C tipo predicado valor with
            | None => Devuelve im.1
            | Some e => Lanza e
            end, im.2).

(** Whether [str] converts every integer of a value: CPython, from 3.11 on,
    refuses an integer of more than [limite] digits, inside a list too. *)
Fixpoint cabe_en_digitos (limite : Z) (v : Any) : bool :=
  match v with
  | PyInt n => Z.abs n <? 10 ^ limite
  | PyList l => forallb (cabe_en_digitos limite) l
  | _ => true
  end.

(** A console that encodes every text, under an interpreter with its default
    limit of 4300 digits. *)
Definition consola_cpython : Consola :=
  {| print_hecho := λ _ _ valor,
       if cabe_en_digitos 4300 valor then None else Some ValueError |}.

(** [self._hechos[hid]] *)
Definition hecho_de_id (m : MemoriaTrabajo) (hid : string) : res Hecho.t :=
  match _hechos m !! hid with
  | Some h => Devuelve h
  | None => Lanza KeyError
  end.

Definition obtener_hecho (E : Entorno) (m : MemoriaTrabajo) (predicado : string)
    : res (option Hecho.t) :=
  let hechos_ids := default ∅ (_indice_por_predicado m !! predicado) in
  if decide (hechos_ids = ∅) then Devuelve None
  else
    hs <- res_mapM (hecho_de_id m) (iterar E hechos_ids) ;;
    h <- py_max Z.gtb Hecho.timestamp hs ;;
    Devuelve (Some h).

Definition obtener_hechos_por_tipo (E : Entorno) (m : MemoriaTrabajo)
    (tipo : TipoHecho) : res (list Hecho.t) :=
  res_mapM (hecho_de_id m) (iterar E (default ∅ (_indice_por_tipo m !! tipo))).

Definition limpiar_memoria (m : MemoriaTrabajo) : MemoriaTrabajo :=
  MemoriaTrabajo_init.

(** ** agenda.py *)

Inductive EstrategiaConflictResolution : Type :=
| ESPECIFICIDAD | RECENCIA | PRIORIDAD_EXPLICITA.

Module ReglaInstanciada.
Record t : Type := mk {
  regla_id : string;
  bindings : gmap string Any;
  hechos_activadores : list string;
  timestamp_activacion : Z;
  especificidad : Z;
  prioridad_explicita : Q;
  ya_ejecutada : bool
}.

Definition con_ya_ejecutada (b : bool) (r : t) : t :=
  mk (regla_id r) (bindings r) (hechos_activadores r) (timestamp_activacion r)
     (especificidad r) (prioridad_explicita r) b.
End ReglaInstanciada.

(** The activations live in [_reglas_instanciadas], which only grows; a
    reference to an activation object is its position in that list, so that
    [marcar_como_ejecutada] changes the object the list holds and the history
    shares it. *)
Record Agenda : Type := {
  _reglas_instanciadas : list ReglaInstanciada.t;
  _estrategia : EstrategiaConflictResolution;
  _historial_ejecucion : list nat
}.

Definition Agenda_init (estrategia : EstrategiaConflictResolution) : Agenda :=
  {| _reglas_instanciadas := [];
     _estrategia := estrategia;
     _historial_ejecucion := [] |}.

(** [ahora] is the clock reading the [ReglaInstanciada] constructor takes;
    the deep copy of the bindings is the map itself, its values being
    immutable here. *)
Definition activar_regla (ahora : Z) (ag : Agenda) (regla_id : string)
    (bindings : gmap string Any) (hechos_activadores : list string)
    (especificidad : Z) (prioridad_explicita : Q) : Agenda :=
  let instancia :=
    ReglaInstanciada.mk regla_id bindings hechos_activadores ahora
                        especificidad prioridad_explicita false in
  {| _reglas_instanciadas := _reglas_instanciadas ag ++ [instancia];
     _estrategia := _estrategia ag;
     _historial_ejecucion := _historial_ejecucion ag |}.

(** [[r for r in self._reglas_instanciadas if not r.ya_ejecutada]], each
    activation with its reference; [i] is the position of the head of [l]. *)
Fixpoint candidatos_desde (i : nat) (l : list ReglaInstanciada.t)
    : list (nat * ReglaInstanciada.t) :=
  match l with
  | [] => []
  | r :: l' =>
      if ReglaInstanciada.ya_ejecutada r then candidatos_desde (S i) l'
      else (i, r) :: candidatos_desde (S i) l'
  end.

Definition candidatos (l : list ReglaInstanciada.t)
    : list (nat * ReglaInstanciada.t) :=
  candidatos_desde 0 l.

Definition seleccionar_proxima_regla (ag : Agenda)
    : res (option (nat * ReglaInstanciada.t)) :=
  let cs := candidatos (_reglas_instanciadas ag) in
  match cs with
  | [] => Devuelve None
  | _ =>
      seleccionada <-
        match _estrategia ag with
        | ESPECIFICIDAD =>
            py_max Z.gtb (λ ir, ReglaInstanciada.especificidad ir.2) cs
        | RECENCIA =>
            py_max Z.gtb (λ ir, ReglaInstanciada.timestamp_activacion ir.2) cs
        | PRIORIDAD_EXPLICITA =>
            py_max Qgtb (λ ir, ReglaInstanciada.prioridad_explicita ir.2) cs
        end ;;
      Devuelve (Some seleccionada)
  end.

Definition marcar_como_ejecutada (ag : Agenda) (ref : nat) : Agenda :=
  {| _reglas_instanciadas :=
       alter (ReglaInstanciada.con_ya_ejecutada true) ref (_reglas_instanciadas ag);
     _estrategia := _estrategia ag;
     _historial_ejecucion := _historial_ejecucion ag ++ [ref] |}.

Definition esta_vacia (ag : Agenda) : bool :=
  forallb ReglaInstanciada.ya_ejecutada (_reglas_instanciadas ag).

Definition limpiar_agenda (ag : Agenda) : Agenda := Agenda_init (_estrategia ag).

(** ** parser_reglas.py *)

(** Truth value of [condicion.variable]: [None] and the empty string are
    false. *)
Definition variable_dada (v : option string) : option string :=
  match v with
  | Some EmptyString => None
  | _ => v
  end.

Definition _evaluar_condicion (E : Entorno) (m : MemoriaTrabajo)
    (condicion : CondicionRegla.t) (bindings : gmap string Any)
    : res (bool * gmap string Any) :=
  hecho <- obtener_hecho E m (CondicionRegla.predicado condicion) ;;
  match CondicionRegla.operador condicion with
  | NO_EXISTE => Devuelve (bool_decide (hecho = None), bindings)
  | EXISTE => Devuelve (negb (bool_decide (hecho = None)), bindings)
  | operador =>
      match hecho with
      | None => Devuelve (false, bindings)
      | Some hecho =>
          let valor_hecho := Hecho.valor hecho in
          let valor_condicion := CondicionRegla.valor condicion in
          let resultado :=
            match operador with
            | IGUAL => py_eq valor_hecho valor_condicion
            | DIFERENTE => negb (py_eq valor_hecho valor_condicion)
            | EN =>
                match valor_condicion with
                | PyList l => py_in valor_hecho l
                | _ => false
                end
            | NO_EN =>
                match valor_condicion with
                | PyList l => negb (py_in valor_hecho l)
                | _ => false
                end
            | _ => false
            end in
          match resultado, variable_dada (CondicionRegla.variable condicion) with
          | true, Some x => Devuelve (resultado, <[x := valor_hecho]> bindings)
          | _, _ => Devuelve (resultado, bindings)
          end
      end
  end.

(** The loop of [evaluar_regla] over the conditions that remain. *)
Fixpoint evaluar_condiciones (E : Entorno) (m : MemoriaTrabajo)
    (cs : list CondicionRegla.t) (bindings : gmap string Any)
    : res (option (gmap string Any)) :=
  match cs with
  | [] => Devuelve (Some bindings)
  | condicion :: cs' =>
      rb <- _evaluar_condicion E m condicion bindings ;;
      if rb.1 then evaluar_condiciones E m cs' rb.2 else Devuelve None
  end.

(** The result is the value under ['bindings'] of the dictionary returned,
    [None] when the rule does not match. *)
Definition evaluar_regla (E : Entorno) (m : MemoriaTrabajo)
    (regla : ReglaProduccionAcademica.t) : res (option (gmap string Any)) :=
  evaluar_condiciones E m (ReglaProduccionAcademica.condiciones regla) ∅.

(** ** The session: the objects [SistemaExpertoPlantaTDF] creates and shares *)

Inductive Razon : Type :=
| SinRazon                   (* the empty string *)
| AgendaVacia                (* "Agenda vacia - no hay mas reglas para ejecutar." *)
| LimiteCiclos (max : Z).    (* "Limite de ciclos (max) alcanzado." *)

Record Sesion : Type := {
  memoria : MemoriaTrabajo;
  agenda : Agenda;
  max_ciclos : Z;
  razon_terminacion : Razon;
  ciclos_ejecutados : Z;
  lecturas : nat               (* readings of the clock taken so far *)
}.

Definition M (A : Type) : Type := Sesion → res (A * Sesion).

Definition devolver {A : Type} (a : A) : M A := λ s, Devuelve (a, s).

Definition M_ligar {A B : Type} (c : M A) (f : A → M B) : M B := λ s,
  match c s with
  | Devuelve (a, s') => f a s'
  | Lanza e => Lanza e
  | SinCombustible => SinCombustible
  end.

Declare Scope M_scope.
Delimit Scope M_scope with M.
Bind Scope M_scope with M.

Notation "x <- c ;; k" := (M_ligar c (λ x, k))
  (at level 62, c at next level, right associativity) : M_scope.

Definition con_memoria (m : MemoriaTrabajo) (s : Sesion) : Sesion :=
  {| memoria := m; agenda := agenda s; max_ciclos := max_ciclos s;
     razon_terminacion := razon_terminacion s;
     ciclos_ejecutados := ciclos_ejecutados s; lecturas := lecturas s |}.

Definition con_agenda (a : Agenda) (s : Sesion) : Sesion :=
  {| memoria := memoria s; agenda := a; max_ciclos := max_ciclos s;
     razon_terminacion := razon_terminacion s;
     ciclos_ejecutados := ciclos_ejecutados s; lecturas := lecturas s |}.

Definition con_razon (r : Razon) (s : Sesion) : Sesion :=
  {| memoria := memoria s; agenda := agenda s; max_ciclos := max_ciclos s;
     razon_terminacion := r;
     ciclos_ejecutados := ciclos_ejecutados s; lecturas := lecturas s |}.

Definition con_ciclos (n : Z) (s : Sesion) : Sesion :=
  {| memoria := memoria s; agenda := agenda s; max_ciclos := max_ciclos s;
     razon_terminacion := razon_terminacion s;
     ciclos_ejecutados := n; lecturas := lecturas s |}.

Definition leer : M Sesion := λ s, Devuelve (s, s).
Definition modificar (f : Sesion → Sesion) : M unit := λ s, Devuelve (tt, f s).
Definition elevar {A : Type} (r : res A) : M A := λ s, res_map (λ a, (a, s)) r.

(** [datetime.now()] *)
Definition ahora (E : Entorno) : M Z := λ s,
  Devuelve (reloj E (lecturas s),
    {| memoria := memoria s; agenda := agenda s; max_ciclos := max_ciclos s;
       razon_terminacion := razon_terminacion s;
       ciclos_ejecutados := ciclos_ejecutados s; lecturas := S (lecturas s) |}).

(** [self.memoria.assert_hecho(...)] on the store of the session. *)
Definition assert_hecho_M (E : Entorno) (predicado : string) (valor : Any)
    (tipo : TipoHecho) (origen : option string) (justificacion : string)
    (confianza : Q) : M string :=
  (t <- ahora E ;;
   s <- leer ;;
   im <- elevar (assert_hecho t (memoria s) predicado valor tipo origen
                              justificacion confianza) ;;
   _ <- modificar (con_memoria im.2) ;;
   devolver im.1)%M.

(** The body of the [for] loop of [ejecutar_acciones]: [hechos_creados] is
    the list built so far. *)
Definition ejecutar_accion (E : Entorno) (regla : ReglaProduccionAcademica.t)
    (bindings : gmap string Any) (accion : AccionRegla.t)
    (hechos_creados : list string) : M (list string) :=
  (let valor_accion :=
     match AccionRegla.valor accion with
     | PyStr (String c nombre) =>
         if Ascii.eqb c "$"
         then default (AccionRegla.valor accion) (bindings !! nombre)
         else AccionRegla.valor accion
     | _ => AccionRegla.valor accion
     end in
   match AccionRegla.tipo accion with
   | ASSERT | CONCLUDE | RECOMMEND =>
       id_hecho <-
         assert_hecho_M E (AccionRegla.predicado accion) valor_accion
           (match AccionRegla.tipo accion with
            | ASSERT => DERIVADO
            | _ => CONCLUSION
            end)
           (Some (ReglaProduccionAcademica.id regla))
           (AccionRegla.explicacion accion) (AccionRegla.confianza accion) ;;
       devolver (hechos_creados ++ [id_hecho])%list
   | _ => devolver hechos_creados
   end)%M.

Fixpoint ejecutar_resto (E : Entorno) (regla : ReglaProduccionAcademica.t)
    (bindings : gmap string Any) (acciones : list AccionRegla.t)
    (hechos_creados : list string) : M (list string) :=
  match acciones with
  | [] => devolver hechos_creados
  | accion :: resto =>
      (hechos_creados' <- ejecutar_accion E regla bindings accion hechos_creados ;;
       ejecutar_resto E regla bindings resto hechos_creados')%M
  end.

Definition ejecutar_acciones (E : Entorno) (regla : ReglaProduccionAcademica.t)
    (bindings : gmap string Any) : M (list string) :=
  ejecutar_resto E regla bindings (ReglaProduccionAcademica.acciones regla) [].

(** ** motor_inferencia.py *)

(** The [BaseConocimiento] protocol. *)
Record BaseConocimiento : Type := {
  obtener_reglas : list ReglaProduccionAcademica.t;
  obtener_regla_por_id : string → option ReglaProduccionAcademica.t
}.

(** [BaseConocimientoBotanicoTDF] over a list of rules: the index is
    [{r.id: r for r in reglas}], a later rule replacing an earlier one of
    the same id. *)
Definition base_de_reglas (reglas : list ReglaProduccionAcademica.t)
    : BaseConocimiento :=
  let indice_reglas : gmap string ReglaProduccionAcademica.t :=
    foldl (λ d r, <[ReglaProduccionAcademica.id r := r]> d) ∅ reglas in
  {| obtener_reglas := reglas;
     obtener_regla_por_id := λ regla_id, indice_reglas !! regla_id |}.

Definition activar_regla_M (E : Entorno) (regla_id : string)
    (bindings : gmap string Any) (hechos_activadores : list string)
    (especificidad : Z) (prioridad_explicita : Q) : M unit :=
  (t <- ahora E ;;
   modificar (λ s, con_agenda
     (activar_regla t (agenda s) regla_id bindings hechos_activadores
                    especificidad prioridad_explicita) s))%M.

(** MATCH: the [for] loop over the rules (its counter
    [reglas_activadas_este_ciclo] is never read). *)
Fixpoint fase_match (E : Entorno) (reglas : list ReglaProduccionAcademica.t)
    : M unit :=
  match reglas with
  | [] => devolver tt
  | regla :: resto =>
      (s <- leer ;;
       resultado_eval <- elevar (evaluar_regla E (memoria s) regla) ;;
       _ <- match resultado_eval with
            | Some bindings =>
                activar_regla_M E (ReglaProduccionAcademica.id regla) bindings []
                  (ReglaProduccionAcademica.especificidad regla)
                  (ReglaProduccionAcademica.prioridad regla)
            | None => devolver tt
            end ;;
       fase_match E resto)%M
  end.

(** ACT: look the rule up, run its actions and mark the activation; nothing
    at all when the lookup finds no rule. *)
Definition fase_act (E : Entorno) (kb : BaseConocimiento)
    (ref : nat) (regla_instanciada : ReglaInstanciada.t) : M unit :=
  match obtener_regla_por_id kb (ReglaInstanciada.regla_id regla_instanciada) with
  | Some regla_a_ejecutar =>
      (_ <- ejecutar_acciones E regla_a_ejecutar
              (ReglaInstanciada.bindings regla_instanciada) ;;
       modificar (λ s, con_agenda (marcar_como_ejecutada (agenda s) ref) s))%M
  | None => devolver tt
  end.

(** One pass through the body of the [while] loop; [false] is [break]. *)
Definition ciclo (E : Entorno) (kb : BaseConocimiento) : M bool :=
  (_ <- modificar (λ s, con_ciclos (ciclos_ejecutados s + 1) s) ;;
   _ <- fase_match E (obtener_reglas kb) ;;
   s <- leer ;;
   regla_instanciada <- elevar (seleccionar_proxima_regla (agenda s)) ;;
   match regla_instanciada with
   | None =>
       _ <- modificar (con_razon AgendaVacia) ;;
       devolver false
   | Some (ref, inst) =>
       _ <- fase_act E kb ref inst ;;
       devolver true
   end)%M.

Fixpoint bucle (E : Entorno) (kb : BaseConocimiento) (combustible : nat)
    : M unit :=
  (s <- leer ;;
   if ciclos_ejecutados s <? max_ciclos s then
     match combustible with
     | O => λ _, SinCombustible
     | S combustible' =>
         sigue <- ciclo E kb ;;
         if sigue then bucle E kb combustible' else devolver tt
     end
   else devolver tt)%M.

Definition inferir (E : Entorno) (kb : BaseConocimiento) : M unit :=
  (_ <- modificar (con_ciclos 0) ;;
   s <- leer ;;
   _ <- bucle E kb (Z.to_nat (max_ciclos s)) ;;
   s <- leer ;;
   if max_ciclos s <=? ciclos_ejecutados s
   then modificar (con_razon (LimiteCiclos (max_ciclos s)))
   else devolver tt)%M.

(** ** sistema_experto.py *)

(** The objects [SistemaExpertoPlantaTDF()] builds, all empty; it takes the
    PRIORIDAD_EXPLICITA strategy and the engine's default of ten cycles. *)
Definition Sesion_init (estrategia : EstrategiaConflictResolution)
    (max_ciclos : Z) : Sesion :=
  {| memoria := MemoriaTrabajo_init;
     agenda := Agenda_init estrategia;
     max_ciclos := max_ciclos;
     razon_terminacion := SinRazon;
     ciclos_ejecutados := 0;
     lecturas := 0 |}.

Fixpoint sembrar (E : Entorno) (hechos_iniciales : list (string * Any)) : M unit :=
  match hechos_iniciales with
  | [] => devolver tt
  | (predicado, valor) :: resto =>
      (_ <- assert_hecho_M E predicado valor INICIAL None
              "Dato de entrada del usuario" 1%Q ;;
       sembrar E resto)%M
  end.

Definition consultar (E : Entorno) (kb : BaseConocimiento)
    (hechos_iniciales : list (string * Any)) : M unit :=
  (_ <- modificar (λ s, con_memoria (limpiar_memoria (memoria s)) s) ;;
   _ <- modificar (λ s, con_agenda (limpiar_agenda (agenda s)) s) ;;
   _ <- sembrar E hechos_iniciales ;;
   inferir E kb)%M.

(** ** The consultation with the output of [assert_hecho] *)

(** The functions above follow the store and the agenda and leave the
    console out.  The one line of output that can depend on the data of a
    request is the line of [assert_hecho]; the functions below are the same
    functions with that line printed, an exception of the print ending the
    call as any other does. *)

(** [self.memoria.assert_hecho(...)] on the store of the session. *)
Definition assert_hecho_M_print (C : Consola) (E : Entorno) (predicado : string)
    (valor : Any) (tipo : TipoHecho) (origen : option string)
    (justificacion : string) (confianza : Q) : M string :=
  (t <- ahora E ;;
   s <- leer ;;
   rm <- elevar (assert_hecho_print C t (memoria s) predicado valor tipo origen
                                    justificacion confianza) ;;
   _ <- modificar (con_memoria rm.2) ;;
   elevar rm.1)%M.

Definition ejecutar_accion_print (C : Consola) (E : Entorno)
    (regla : ReglaProduccionAcademica.t) (bindings : gmap string Any)
    (accion : AccionRegla.t) (hechos_creados : list string) : M (list string) :=
  (let valor_accion :=
     match AccionRegla.valor accion with
     | PyStr (String c nombre) =>
         if Ascii.eqb c "$"
         then default (AccionRegla.valor accion) (bindings !! nombre)
         else AccionRegla.valor accion
     | _ => AccionRegla.valor accion
     end in
   match AccionRegla.tipo accion with
   | ASSERT | CONCLUDE | RECOMMEND =>
       id_hecho <-
         assert_hecho_M_print C E (AccionRegla.predicado accion) valor_accion
           (match AccionRegla.tipo accion with
            | ASSERT => DERIVADO
            | _ => CONCLUSION
            end)
           (Some (ReglaProduccionAcademica.id regla))
           (AccionRegla.explicacion accion) (AccionRegla.confianza accion) ;;
       devolver (hechos_creados ++ [id_hecho])%list
   | _ => devolver hechos_creados
   end)%M.

Fixpoint ejecutar_resto_print (C : Consola) (E : Entorno)
    (regla : ReglaProduccionAcademica.t) (bindings : gmap string Any)
    (acciones : list AccionRegla.t) (hechos_creados : list string)
    : M (list string) :=
  match acciones with
  | [] => devolver hechos_creados
  | accion :: resto =>
      (hechos_creados' <-
         ejecutar_accion_print C E regla bindings accion hechos_creados ;;
       ejecutar_resto_print C E regla bindings resto hechos_creados')%M
  end.

Definition ejecutar_acciones_print (C : Consola) (E : Entorno)
    (regla : ReglaProduccionAcademica.t) (bindings : gmap string Any)
    : M (list string) :=
  ejecutar_resto_print C E regla bindings
    (ReglaProduccionAcademica.acciones regla) [].

Definition fase_act_print (C : Consola) (E : Entorno) (kb : BaseConocimiento)
    (ref : nat) (regla_instanciada : ReglaInstanciada.t) : M unit :=
  match obtener_regla_por_id kb (ReglaInstanciada.regla_id regla_instanciada) with
  | Some regla_a_ejecutar =>
      (_ <- ejecutar_acciones_print C E regla_a_ejecutar
              (ReglaInstanciada.bindings regla_instanciada) ;;
       modificar (λ s, con_agenda (marcar_como_ejecutada (agenda s) ref) s))%M
  | None => devolver tt
  end.

Definition ciclo_print (C : Consola) (E : Entorno) (kb : BaseConocimiento)
    : M bool :=
  (_ <- modificar (λ s, con_ciclos (ciclos_ejecutados s + 1) s) ;;
   _ <- fase_match E (obtener_reglas kb) ;;
   s <- leer ;;
   regla_instanciada <- elevar (seleccionar_proxima_regla (agenda s)) ;;
   match regla_instanciada with
   | None =>
       _ <- modificar (con_razon AgendaVacia) ;;
       devolver false
   | Some (ref, inst) =>
       _ <- fase_act_print C E kb ref inst ;;
       devolver true
   end)%M.

Fixpoint bucle_print (C : Consola) (E : Entorno) (kb : BaseConocimiento)
    (combustible : nat) : M unit :=
  (s <- leer ;;
   if ciclos_ejecutados s <? max_ciclos s then
     match combustible with
     | O => λ _, SinCombustible
     | S combustible' =>
         sigue <- ciclo_print C E kb ;;
         if sigue then bucle_print C E kb combustible' else devolver tt
     end
   else devolver tt)%M.

Definition inferir_print (C : Consola) (E : Entorno) (kb : BaseConocimiento)
    : M unit :=
  (_ <- modificar (con_ciclos 0) ;;
   s <- leer ;;
   _ <- bucle_print C E kb (Z.to_nat (max_ciclos s)) ;;
   s <- leer ;;
   if max_ciclos s <=? ciclos_ejecutados s
   then modificar (con_razon (LimiteCiclos (max_ciclos s)))
   else devolver tt)%M.

Fixpoint sembrar_print (C : Consola) (E : Entorno)
    (hechos_iniciales : list (string * Any)) : M unit :=
  match hechos_iniciales with
  | [] => devolver tt
  | (predicado, valor) :: resto =>
      (_ <- assert_hecho_M_print C E predicado valor INICIAL None
              "Dato de entrada del usuario" 1%Q ;;
       sembrar_print C E resto)%M
  end.

(** [SistemaExpertoPlantaTDF.consultar] *)
Definition consultar_print (C : Consola) (E : Entorno) (kb : BaseConocimiento)
    (hechos_iniciales : list (string * Any)) : M unit :=
  (_ <- modificar (λ s, con_memoria (limpiar_memoria (memoria s)) s) ;;
   _ <- modificar (λ s, con_agenda (limpiar_agenda (agenda s)) s) ;;
   _ <- sembrar_print C E hechos_iniciales ;;
   inferir_print C E kb)%M.

(** The environment in which sets iterate as [elements] lists them and the
    clock reads 0, 1, 2, ... *)
Definition entorno_simple : Entorno :=
  {| iterar := elements;
     iterar_perm := λ X, reflexivity (elements X);
     reloj := Z.of_nat |}.

(** ** The invariant of the store *)

(** What [MemoriaTrabajo()], [assert_hecho] and [limpiar_memoria] keep true:
    a fact is filed under its own identifier, every identifier in use was
    issued by the counter, and the two indices list exactly the facts of
    each predicate and of each category. *)
Record MemoriaTrabajo_ok (m : MemoriaTrabajo) : Prop := {
  ok_id : ∀ hid h, _hechos m !! hid = Some h → Hecho.id h = hid;
  ok_numero : ∀ hid, is_Some (_hechos m !! hid) →
    ∃ n, (1 ≤ n ≤ _contador_hechos m)%N ∧ hid = id_de_numero n;
  ok_predicado : ∀ p hid,
    hid ∈ default ∅ (_indice_por_predicado m !! p) ↔
    ∃ h, _hechos m !! hid = Some h ∧ Hecho.predicado h = p;
  ok_tipo : ∀ t, ∃ ids, _indice_por_tipo m !! t = Some ids ∧
    ∀ hid, hid ∈ ids ↔ ∃ h, _hechos m !! hid = Some h ∧ Hecho.tipo h = t
}.

(** The stores a program can build: the class offers the constructor,
    [assert_hecho] and [limpiar_memoria], and nothing else writes its fields. *)
Inductive MemoriaTrabajo_alcanzable : MemoriaTrabajo → Prop :=
| alcanzable_init : MemoriaTrabajo_alcanzable MemoriaTrabajo_init
| alcanzable_assert t m p v ty o j c hid m' :
    MemoriaTrabajo_alcanzable m →
    assert_hecho t m p v ty o j c = Devuelve (hid, m') →
    MemoriaTrabajo_alcanzable m'
| alcanzable_limpiar m :
    MemoriaTrabajo_alcanzable m →
    MemoriaTrabajo_alcanzable (limpiar_memoria m).

(** [h] is a fact of the store for predicate [p]. *)
Definition hecho_de (m : MemoriaTrabajo) (p : string) (h : Hecho.t) : Prop :=
  _hechos m !! Hecho.id h = Some h ∧ Hecho.predicado h = p.

(** Identifiers compared by the sequence number they carry. *)
Definition id_lt (a b : string) : Prop :=
  ∃ x y, numero_de_id a = Some x ∧ numero_de_id b = Some y ∧ (x < y)%N.

(** What [max] needs of the comparison [>] on keys. *)
Class OrdenClaves {K : Type} (gt : K → K → bool) : Prop := {
  gt_irrefl : ∀ a, gt a a = false;
  gt_sube : ∀ a b c, gt c b = true → gt a b = false → gt a c = false;
  gt_supera : ∀ a b c, gt c b = true → gt a b = false → gt c a = true
}.

(** ** What the properties are stated with, and sample data *)

Definition memoria_ejemplo : MemoriaTrabajo :=
  match assert_hecho 0 MemoriaTrabajo_init "edad" (PyInt 10) INICIAL None EmptyString 1%Q with
  | Devuelve (_, m) => m
  | _ => MemoriaTrabajo_init
  end.

Definition hecho_ejemplo : Hecho.t :=
  Hecho.mk "F0001" "edad" (PyInt 10) INICIAL None 0 EmptyString 1%Q.

Definition condicion_ejemplo (o : OperadorCondicion) (v : Any) : CondicionRegla.t :=
  CondicionRegla.mk "edad" o v (Some "x") 1%Q EmptyString.

Definition accion_ejemplo (k : TipoAccion) (v : Any) : AccionRegla.t :=
  AccionRegla.mk k "apto" v ∅ (3 # 2)%Q "por edad".

Definition regla_ejemplo (acciones : list AccionRegla.t) : ReglaProduccionAcademica.t :=
  ReglaProduccionAcademica.nueva "R1" "ejemplo" [] acciones 0%Q None None EmptyString EmptyString EmptyString.

Definition sesion_ejemplo : Sesion :=
  con_memoria memoria_ejemplo (Sesion_init ESPECIFICIDAD 10).

Definition memoria_ejemplo_uno : MemoriaTrabajo :=
  match assert_hecho 5 MemoriaTrabajo_init "p" (PyInt 1) INICIAL None
                     EmptyString 1%Q with
  | Devuelve (_, m) => m
  | _ => MemoriaTrabajo_init
  end.

Definition memoria_empate : MemoriaTrabajo :=
  match assert_hecho 5 memoria_ejemplo_uno "p" (PyInt 2) INICIAL None
                     EmptyString 1%Q with
  | Devuelve (_, m) => m
  | _ => memoria_ejemplo_uno
  end.

(** C2 as stated, the part on ties: no fact of the predicate with the
    timestamp of the fact returned has a greater identifier. *)
Definition desempata_por_id (E : Entorno) (m : MemoriaTrabajo) (p : string) : Prop :=
  ∀ h, obtener_hecho E m p = Devuelve (Some h) →
  ∀ h', hecho_de m p h' → Hecho.timestamp h' = Hecho.timestamp h →
        ¬ id_lt (Hecho.id h) (Hecho.id h').

(** Python's sequences among these values: a string is one as a list is
    (so are a tuple and a range, which the embedding leaves out), and only
    the list passes [isinstance(v, list)]. *)
Definition es_secuencia (v : Any) : bool :=
  match v with PyList _ | PyStr _ => true | _ => false end.

(** C8 as stated, the part on sequences: against a condition value that is a
    sequence, EN and NO_EN give opposite truth values on a store that holds
    a fact for the predicate. *)
Definition complementarios_en_secuencias (E : Entorno) (m : MemoriaTrabajo)
    (p : string) : Prop :=
  ∀ v var peso expl b h0,
    es_secuencia v = true →
    hecho_de m p h0 →
    ∃ r b1 b2,
      _evaluar_condicion E m (CondicionRegla.mk p EN v var peso expl) b
        = Devuelve (r, b1) ∧
      _evaluar_condicion E m (CondicionRegla.mk p NO_EN v var peso expl) b
        = Devuelve (negb r, b2).

(** The arguments of one call of [assert_hecho], with the clock reading it
    meets. *)
Record LlamadaAssert : Type := {
  ll_ahora : Z;
  ll_predicado : string;
  ll_valor : Any;
  ll_tipo : TipoHecho;
  ll_origen : option string;
  ll_justificacion : string;
  ll_confianza : Q
}.

(** A run of calls on one store, with the identifiers returned in the order
    of the calls. *)
Fixpoint assert_hechos (llamadas : list LlamadaAssert) (m : MemoriaTrabajo)
    : res (list string * MemoriaTrabajo) :=
  match llamadas with
  | [] => Devuelve ([], m)
  | ll :: resto =>
      im <- assert_hecho (ll_ahora ll) m (ll_predicado ll) (ll_valor ll)
              (ll_tipo ll) (ll_origen ll) (ll_justificacion ll)
              (ll_confianza ll) ;;
      r <- assert_hechos resto im.2 ;;
      Devuelve (im.1 :: r.1, r.2)
  end.

Definition llamadas_ejemplo : list LlamadaAssert :=
  [ {| ll_ahora := 7; ll_predicado := "edad"; ll_valor := PyInt 11;
       ll_tipo := DERIVADO; ll_origen := Some "R1"; ll_justificacion := EmptyString;
       ll_confianza := 1%Q |};
    {| ll_ahora := 7; ll_predicado := "apto"; ll_valor := PyBool true;
       ll_tipo := CONCLUSION; ll_origen := Some "R2"; ll_justificacion := EmptyString;
       ll_confianza := (1 # 2)%Q |} ].

(** The same run with the output of each call, the caller going on after a
    call that raised: what each call returned or raised, and the store in
    the end. *)
Fixpoint assert_hechos_print (C : Consola) (llamadas : list LlamadaAssert)
    (m : MemoriaTrabajo) : res (list (res string) * MemoriaTrabajo) :=
  match llamadas with
  | [] => Devuelve ([], m)
  | ll :: resto =>
      rm <- assert_hecho_print C (ll_ahora ll) m (ll_predicado ll) (ll_valor ll)
              (ll_tipo ll) (ll_origen ll) (ll_justificacion ll) (ll_confianza ll) ;;
      rms <- assert_hechos_print C resto rm.2 ;;
      Devuelve (rm.1 :: rms.1, rms.2)
  end.

(** What the call with identifier [hid] answers on the console [C]. *)
Definition respuesta_de (C : Consola) (ll : LlamadaAssert) (hid : string)
    : res string :=
  match print_hecho C (ll_tipo ll) (ll_predicado ll) (ll_valor ll) with
  | None => Devuelve hid
  | Some e => Lanza e
  end.

(** C7 as stated, the part on success: on a store that satisfies its
    invariant every call returns an identifier. *)
Definition siempre_retorna (C : Consola) : Prop :=
  ∀ t m p v ty o j c,
    MemoriaTrabajo_ok m →
    ∃ hid m', assert_hecho_print C t m p v ty o j c = Devuelve (Devuelve hid, m').

(** Three calls, the second for an integer of 4301 digits. *)
Definition llamadas_sin_linea : list LlamadaAssert :=
  [ {| ll_ahora := 7; ll_predicado := "edad"; ll_valor := PyInt 11;
       ll_tipo := DERIVADO; ll_origen := Some "R1"; ll_justificacion := EmptyString;
       ll_confianza := 1%Q |};
    {| ll_ahora := 8; ll_predicado := "temperatura"; ll_valor := PyInt (10 ^ 4300);
       ll_tipo := INICIAL; ll_origen := None; ll_justificacion := EmptyString;
       ll_confianza := 1%Q |};
    {| ll_ahora := 9; ll_predicado := "apto"; ll_valor := PyBool true;
       ll_tipo := CONCLUSION; ll_origen := Some "R2"; ll_justificacion := EmptyString;
       ll_confianza := (1 # 2)%Q |} ].

Definition clave_menor (e : EstrategiaConflictResolution)
    (a b : ReglaInstanciada.t) : Prop :=
  match e with
  | ESPECIFICIDAD =>
      ReglaInstanciada.especificidad a < ReglaInstanciada.especificidad b
  | RECENCIA =>
      ReglaInstanciada.timestamp_activacion a < ReglaInstanciada.timestamp_activacion b
  | PRIORIDAD_EXPLICITA =>
      (ReglaInstanciada.prioridad_explicita a < ReglaInstanciada.prioridad_explicita b)%Q
  end.

Definition clave_menor_igual (e : EstrategiaConflictResolution)
    (a b : ReglaInstanciada.t) : Prop :=
  match e with
  | ESPECIFICIDAD =>
      ReglaInstanciada.especificidad a ≤ ReglaInstanciada.especificidad b
  | RECENCIA =>
      ReglaInstanciada.timestamp_activacion a ≤ ReglaInstanciada.timestamp_activacion b
  | PRIORIDAD_EXPLICITA =>
      (ReglaInstanciada.prioridad_explicita a <= ReglaInstanciada.prioridad_explicita b)%Q
  end.

(** The kinds of action that create a fact, and the category of the fact. *)
Definition crea_hecho (k : TipoAccion) : bool :=
  match k with
  | ASSERT | CONCLUDE | RECOMMEND => true
  | _ => false
  end.

Definition tipo_creado (k : TipoAccion) : TipoHecho :=
  match k with
  | ASSERT => DERIVADO
  | _ => CONCLUSION
  end.

(** The value of an action under a binding map, in the words of the
    specification: a string that starts with the marker stands for the value
    bound to the name after the marker, or for itself when that name is not
    bound; any other value stands for itself. *)
Inductive valor_resuelto (bindings : gmap string Any) : Any → Any → Prop :=
| vr_ligada nombre v :
    bindings !! nombre = Some v →
    valor_resuelto bindings (PyStr (String "$" nombre)) v
| vr_libre nombre :
    bindings !! nombre = None →
    valor_resuelto bindings (PyStr (String "$" nombre)) (PyStr (String "$" nombre))
| vr_literal v :
    (∀ nombre, v ≠ PyStr (String "$" nombre)) →
    valor_resuelto bindings v v.

(** The fact filed under [hid] in [s'] is new with respect to [s] and is
    the one the action [a] of [regla] describes. *)
Definition hecho_creado_por (regla : ReglaProduccionAcademica.t)
    (bindings : gmap string Any) (s s' : Sesion)
    (a : AccionRegla.t) (hid : string) : Prop :=
  ∃ h, _hechos (memoria s') !! hid = Some h ∧
       _hechos (memoria s) !! hid = None ∧
       Hecho.id h = hid ∧
       Hecho.predicado h = AccionRegla.predicado a ∧
       valor_resuelto bindings (AccionRegla.valor a) (Hecho.valor h) ∧
       Hecho.tipo h = tipo_creado (AccionRegla.tipo a) ∧
       Hecho.origen h = Some (ReglaProduccionAcademica.id regla) ∧
       Hecho.confianza h = AccionRegla.confianza a ∧
       Hecho.justificacion h = AccionRegla.explicacion a.

(** The fields of the engine are the same in both sessions. *)
Definition mismo_motor (s s' : Sesion) : Prop :=
  max_ciclos s' = max_ciclos s ∧
  ciclos_ejecutados s' = ciclos_ejecutados s ∧
  razon_terminacion s' = razon_terminacion s.

Ltac desplegar_M :=
  unfold M_ligar, leer, modificar, elevar, devolver, ahora, res_map, res_ligar,
         con_memoria, con_agenda, con_razon, con_ciclos; simpl.

Definition bindings_ejemplo : gmap string Any := {[ "x" := PyInt 10 ]}.


Definition kb_huerfana : BaseConocimiento :=
  {| obtener_reglas := [regla_ejemplo [accion_ejemplo ASSERT (PyBool true)]];
     obtener_regla_por_id := λ _, None |}.

(** C4 as stated, the part on later cycles: when a cycle selects an
    activation whose rule the knowledge base does not find, the next cycle
    does not select that activation again. *)
Definition sin_reintento (E : Entorno) (kb : BaseConocimiento) (s : Sesion) : Prop :=
  ∀ s1 ref inst s',
    fase_match E (obtener_reglas kb) (con_ciclos (ciclos_ejecutados s + 1) s)
      = Devuelve (tt, s1) →
    seleccionar_proxima_regla (agenda s1) = Devuelve (Some (ref, inst)) →
    obtener_regla_por_id kb (ReglaInstanciada.regla_id inst) = None →
    ciclo E kb s = Devuelve (true, s') →
    ∀ s2 ref' inst',
      fase_match E (obtener_reglas kb) (con_ciclos (ciclos_ejecutados s' + 1) s')
        = Devuelve (tt, s2) →
      seleccionar_proxima_regla (agenda s2) = Devuelve (Some (ref', inst')) →
      ref' ≠ ref.

Definition kb_ejemplo : BaseConocimiento :=
  base_de_reglas [regla_ejemplo [accion_ejemplo ASSERT (PyBool true)]].

Definition kb_vacia : BaseConocimiento := base_de_reglas [].

Definition condicion (p : string) (o : OperadorCondicion) (v : Any)
    : CondicionRegla.t :=
  CondicionRegla.mk p o v None 1%Q EmptyString.

Definition R001 : ReglaProduccionAcademica.t :=
  ReglaProduccionAcademica.nueva "R001_AMBIENTE_INTERIOR_TDF_INVIERNO"
    "Deteccion de Ambiente Interior TDF en Invierno"
    [condicion "ubicacion_usuario" IGUAL (PyStr "interior");
     condicion "calefaccion_nivel" EN (PyList [PyStr "alta"; PyStr "muy_alta"]);
     condicion "ambiente_seco_extremo" NO_EXISTE PyNone]
    [AccionRegla.mk ASSERT "ambiente_seco_extremo" (PyBool true) ∅ (9 # 10)%Q
       "Calefaccion TDF genera sequedad extrema"]
    (19 # 2)%Q None None EmptyString "condiciones_ambientales_tdf" EmptyString.

Definition R002 : ReglaProduccionAcademica.t :=
  ReglaProduccionAcademica.nueva "R002_SANSEVIERIA" "Recomendar Sansevieria"
    [condicion "ambiente_seco_extremo" IGUAL (PyBool true);
     condicion "planta_ideal" NO_EXISTE PyNone]
    [AccionRegla.mk RECOMMEND "planta_ideal" (PyStr "Sansevieria") ∅ (19 # 20)%Q
       "Tolera la sequedad"]
    8%Q None None EmptyString "recomendacion_final" EmptyString.

Definition kb_sansevieria : BaseConocimiento := base_de_reglas [R001; R002].

Definition hechos_interior : list (string * Any) :=
  [("ubicacion_usuario", PyStr "interior"); ("calefaccion_nivel", PyStr "alta")].

(** ** memoria_trabajo.py: the trace *)

(** [TipoHecho.value] *)
Definition TipoHecho_value (t : TipoHecho) : string :=
  match t with
  | INICIAL => "inicial"
  | DERIVADO => "derivado"
  | CONCLUSION => "conclusion"
  end.

(** [self._hechos.values()].  A dict iterates in insertion order; facts
    enter the store in the order of their numbers and leave it only all at
    once, so the facts listed by number are the values in that order. *)
Definition valores_hechos (m : MemoriaTrabajo) : list Hecho.t :=
  omap (λ n, _hechos m !! id_de_numero (N.of_nat n))
       (seq 1 (N.to_nat (_contador_hechos m))).

(** The dictionary a fact is serialized to: [h.__dict__.copy()] with the
    category replaced by its value and the timestamp by its ISO text. *)
Module HechoSerializado.
Record t : Type := mk {
  id : string;
  predicado : string;
  valor : Any;
  tipo : string;
  origen : option string;
  timestamp : string;
  justificacion : string;
  confianza : Q
}.
End HechoSerializado.

(** [isoformat] is [datetime.isoformat] on the clock readings. *)
Definition serializar_hecho (isoformat : Z → string) (h : Hecho.t)
    : HechoSerializado.t :=
  HechoSerializado.mk (Hecho.id h) (Hecho.predicado h) (Hecho.valor h)
    (TipoHecho_value (Hecho.tipo h)) (Hecho.origen h)
    (isoformat (Hecho.timestamp h)) (Hecho.justificacion h) (Hecho.confianza h).

(** The dictionary [generar_trace_explicacion] returns; [hechos_por_tipo] in
    the order of the keys of [_indice_por_tipo], which is that of the
    enumeration. *)
Record Traza : Type := {
  total_hechos : nat;
  hechos_por_tipo : list (string * nat);
  hechos : list HechoSerializado.t
}.

Definition generar_trace_explicacion (isoformat : Z → string)
    (m : MemoriaTrabajo) : Traza :=
  {| total_hechos := size (_hechos m);
     hechos_por_tipo :=
       omap (λ t, (λ s : gset string, (TipoHecho_value t, size s))
                    <$> _indice_por_tipo m !! t)
            [INICIAL; DERIVADO; CONCLUSION];
     hechos := serializar_hecho isoformat <$> valores_hechos m |}.

(** ** web/api.py and main.py: what is read out of the trace *)

(** [[h for h in resultado_trace.get('hechos', []) if h.get('tipo') == tag]] *)
Definition hechos_con_tipo (tag : string) (tr : Traza)
    : list HechoSerializado.t :=
  List.filter (λ h, String.eqb (HechoSerializado.tipo h) tag) (hechos tr).

(** The two lists of the answer of [/api/consulta]. *)
Definition api_conclusiones (tr : Traza) : list HechoSerializado.t :=
  hechos_con_tipo "conclusion" tr.

Definition api_hechos_derivados (tr : Traza) : list HechoSerializado.t :=
  hechos_con_tipo "derivado" tr.

(** The two lists [main_cli] prints. *)
Definition cli_conclusiones (tr : Traza) : list HechoSerializado.t :=
  hechos_con_tipo "CONCLUSION" tr.

Definition cli_derivados (tr : Traza) : list HechoSerializado.t :=
  hechos_con_tipo "DERIVADO" tr.

(** ** More sample data *)

Definition memoria_ejemplo_dos : MemoriaTrabajo :=
  match assert_hecho 3 memoria_ejemplo "edad" (PyInt 11) DERIVADO (Some "R1")
                     EmptyString 1%Q with
  | Devuelve (_, m) => m
  | _ => memoria_ejemplo
  end.

(** The truth value a condition evaluates to on a store, whatever the
    bindings it is given. *)
Definition condicion_cumple (E : Entorno) (m : MemoriaTrabajo)
    (c : CondicionRegla.t) : bool :=
  match _evaluar_condicion E m c ∅ with
  | Devuelve (r, _) => r
  | _ => false
  end.

Definition agenda_ejemplo : Agenda :=
  activar_regla 2 (activar_regla 1 (Agenda_init ESPECIFICIDAD) "R1" ∅ [] 3 1%Q)
                "R2" ∅ [] 3 2%Q.

Definition instancia_ejemplo : ReglaInstanciada.t :=
  ReglaInstanciada.mk "R1" ∅ [] 1 3 1%Q false.

(** ** parser_reglas.py: what a match binds *)

(** The variable a condition binds when it holds: the four operators that
    compare the value of the fact bind [condicion.variable] when it is given
    and not empty; EXISTE and NO_EXISTE return before the binding is made. *)
Definition variable_ligada (c : CondicionRegla.t) : option string :=
  match CondicionRegla.operador c with
  | IGUAL | DIFERENTE | EN | NO_EN => variable_dada (CondicionRegla.variable c)
  | _ => None
  end.

Definition regla_de_condiciones (cs : list CondicionRegla.t)
    : ReglaProduccionAcademica.t :=
  ReglaProduccionAcademica.nueva "R1" "ejemplo" cs [] 0%Q None None
    EmptyString EmptyString EmptyString.
(** ** motor_inferencia.py: what the properties of the loop are stated with *)

(** The rule matches the store: each of its conditions holds. *)
Definition regla_cumple (E : Entorno) (m : MemoriaTrabajo)
    (regla : ReglaProduccionAcademica.t) : bool :=
  forallb (condicion_cumple E m) (ReglaProduccionAcademica.condiciones regla).

(** [a] is the activation the MATCH phase builds for [regla] on store [m]. *)
Definition activacion_de (E : Entorno) (m : MemoriaTrabajo)
    (regla : ReglaProduccionAcademica.t) (a : ReglaInstanciada.t) : Prop :=
  ReglaInstanciada.regla_id a = ReglaProduccionAcademica.id regla ∧
  evaluar_regla E m regla = Devuelve (Some (ReglaInstanciada.bindings a)) ∧
  ReglaInstanciada.hechos_activadores a = [] ∧
  ReglaInstanciada.especificidad a = ReglaProduccionAcademica.especificidad regla ∧
  ReglaInstanciada.prioridad_explicita a = ReglaProduccionAcademica.prioridad regla ∧
  ReglaInstanciada.ya_ejecutada a = false.

(** The fact was created by an action of a rule the knowledge base finds. *)
Definition procede_de (kb : BaseConocimiento) (h : Hecho.t) : Prop :=
  ∃ regla_id regla a,
    obtener_regla_por_id kb regla_id = Some regla ∧
    a ∈ ReglaProduccionAcademica.acciones regla ∧
    crea_hecho (AccionRegla.tipo a) = true ∧
    Hecho.origen h = Some (ReglaProduccionAcademica.id regla) ∧
    Hecho.predicado h = AccionRegla.predicado a ∧
    Hecho.tipo h = tipo_creado (AccionRegla.tipo a) ∧
    Hecho.confianza h = AccionRegla.confianza a ∧
    Hecho.justificacion h = AccionRegla.explicacion a ∧
    ∃ bindings, valor_resuelto bindings (AccionRegla.valor a) (Hecho.valor h).

(** The second store holds every fact of the first, unchanged, and what it
    holds beyond them was created by rules of the knowledge base. *)
Definition extiende (kb : BaseConocimiento) (m m' : MemoriaTrabajo) : Prop :=
  (∀ hid h, _hechos m !! hid = Some h → _hechos m' !! hid = Some h) ∧
  (∀ hid h, _hechos m' !! hid = Some h → _hechos m !! hid = None →
            procede_de kb h).

(** The history lists the activations that are marked as executed, each
    once: what [Agenda()], [activar_regla] and [marcar_como_ejecutada] on an
    activation just selected keep true. *)
Definition Agenda_ok (ag : Agenda) : Prop :=
  NoDup (_historial_ejecucion ag) ∧
  ∀ i, i ∈ _historial_ejecucion ag ↔
       ∃ r, _reglas_instanciadas ag !! i = Some r ∧
            ReglaInstanciada.ya_ejecutada r = true.

(** The second agenda continues the first: same strategy, the history
    extended, and every activation still in its place, changed at most in
    that it has been executed since. *)
Definition agenda_continua (ag ag' : Agenda) : Prop :=
  _estrategia ag' = _estrategia ag ∧
  (∃ nuevos, _historial_ejecucion ag'
             = (_historial_ejecucion ag ++ nuevos)%list) ∧
  ∀ i a, _reglas_instanciadas ag !! i = Some a →
    ∃ a', _reglas_instanciadas ag' !! i = Some a' ∧
          ReglaInstanciada.con_ya_ejecutada true a'
            = ReglaInstanciada.con_ya_ejecutada true a ∧
          (ReglaInstanciada.ya_ejecutada a = true →
           ReglaInstanciada.ya_ejecutada a' = true).
(** ** sistema_experto.py: what the properties of a consultation are stated with *)

(** The fact [consultar] files for the entry of position [i] of the initial
    facts, the clock having been read [lecturas] times before. *)
Definition hecho_inicial (E : Entorno) (lecturas : nat) (i : nat)
    (predicado : string) (valor : Any) : Hecho.t :=
  Hecho.mk (id_de_numero (N.of_nat (S i))) predicado valor INICIAL None
           (reloj E (lecturas + i)) "Dato de entrada del usuario" 1%Q.
(** The session with the reason replaced by [r] and the count of cycles
    by its image under [f]: what the store, the agenda and the parser never
    look at. *)
Definition con_motor (r : Razon) (f : Z → Z) (s : Sesion) : Sesion :=
  {| memoria := memoria s; agenda := agenda s; max_ciclos := max_ciclos s;
     razon_terminacion := r;
     ciclos_ejecutados := f (ciclos_ejecutados s); lecturas := lecturas s |}.

(** The computation neither reads nor writes the reason and the count. *)
Definition ajeno_al_motor {A : Type} (c : M A) : Prop :=
  ∀ r f s, c (con_motor r f s)
           = res_map (λ x, (x.1, con_motor r f x.2)) (c s).

Definition sesion_usada : Sesion :=
  {| memoria := memoria_empate;
     agenda := marcar_como_ejecutada agenda_ejemplo 0;
     max_ciclos := 10;
     razon_terminacion := LimiteCiclos 10;
     ciclos_ejecutados := 10;
     lecturas := 0 |}.

Definition sesion_interior : Sesion :=
  match sembrar entorno_simple hechos_interior (Sesion_init PRIORIDAD_EXPLICITA 10) with
  | Devuelve (_, s) => s
  | _ => Sesion_init PRIORIDAD_EXPLICITA 10
  end.

(** ** What the console prints *)

(** The console prints the line of the initial fact. *)
Definition imprime_inicial (C : Consola) (pv : string * Any) : Prop :=
  print_hecho C INICIAL pv.1 pv.2 = None.

(** The console prints the line of every fact the action can create, whatever
    the variables are bound to. *)
Definition imprime_accion (C : Consola) (a : AccionRegla.t) : Prop :=
  crea_hecho (AccionRegla.tipo a) = true →
  ∀ bindings v,
    valor_resuelto bindings (AccionRegla.valor a) v →
    print_hecho C (tipo_creado (AccionRegla.tipo a)) (AccionRegla.predicado a) v
      = None.

(** The console prints the line of every fact the rules of the knowledge
    base can create. *)
Definition imprime_reglas (C : Consola) (kb : BaseConocimiento) : Prop :=
  ∀ regla_id regla a,
    obtener_regla_por_id kb regla_id = Some regla →
    a ∈ ReglaProduccionAcademica.acciones regla →
    imprime_accion C a.

(** ** web/api.py: the endpoint *)

(** [str.lower()].  Only the letters A to Z are mapped here; the result is
    compared with ['true'] and ['false'] alone, and no character outside
    ASCII has one of their letters as its lower case, so that for these two
    comparisons the bytes beyond ASCII may stay as they are. *)
Definition ascii_lower (c : ascii) : ascii :=
  let n := N_of_ascii c in
  if ((65 <=? n) && (n <=? 90))%N then ascii_of_N (n + 32) else c.

Fixpoint str_lower (s : string) : string :=
  match s with
  | EmptyString => EmptyString
  | String c r => String (ascii_lower c) (str_lower r)
  end.

(** The body of the loop over [datos_usuario.items()]. *)
Definition coercionar (value : Any) : Any :=
  match value with
  | PyStr s =>
      if String.eqb (str_lower s) "true" then PyBool true
      else if String.eqb (str_lower s) "false" then PyBool false
      else value
  | _ => value
  end.

(** Assigning to a key the dictionary already has keeps its place. *)
Definition coercionar_datos (datos_usuario : list (string * Any))
    : list (string * Any) :=
  (λ kv, (kv.1, coercionar kv.2)) <$> datos_usuario.

(** What the endpoint answers: the two error payloads written in the
    function, the payload of the [except] branch, and the answer of a
    consultation that went through. *)
Inductive Respuesta : Type :=
| NoDisponible                       (* 500: the system could not be built *)
| SinDatos                           (* 400: no data in the request *)
| ErrorInterno (e : excepcion)       (* 500: the consultation raised *)
| Procesada (conclusiones hechos_derivados : list HechoSerializado.t).

Definition codigo (r : Respuesta) : Z :=
  match r with
  | NoDisponible | ErrorInterno _ => 500
  | SinDatos => 400
  | Procesada _ _ => 200
  end.

(** [consultar()] of [web/api.py] on a request whose JSON body is the object
    [datos_usuario]; [sistema_experto] is the session of the system built
    when the module was loaded, or [None].  The [except] branch catches what
    the consultation raises, the exception of a print included. *)
Definition api_consultar (C : Consola) (E : Entorno) (kb : BaseConocimiento)
    (isoformat : Z → string) (sistema_experto : option Sesion)
    (datos_usuario : list (string * Any)) : res Respuesta :=
  match sistema_experto with
  | None => Devuelve NoDisponible
  | Some s =>
      match datos_usuario with
      | [] => Devuelve SinDatos
      | _ =>
          match consultar_print C E kb (coercionar_datos datos_usuario) s with
          | Devuelve (_, s') =>
              let resultado_trace := generar_trace_explicacion isoformat (memoria s') in
              Devuelve (Procesada (api_conclusiones resultado_trace)
                                  (api_hechos_derivados resultado_trace))
          | Lanza e => Devuelve (ErrorInterno e)
          | SinCombustible => SinCombustible
          end
      end
  end.

(** A request that carries an integer of 4301 digits. *)
Definition datos_sin_linea : list (string * Any) :=
  [("ubicacion_usuario", PyStr "interior"); ("temperatura", PyInt (10 ^ 4300))].

Definition datos_interior : list (string * Any) :=
  [("ubicacion_usuario", PyStr "interior");
   ("calefaccion_nivel", PyStr "alta");
   ("mascotas_presentes", PyStr "False")].

(** ** base_conocimiento.py: the rules of the repository *)

(** [BaseConocimientoBotanicoTDF._crear_reglas()]: the twenty rules, in their
    order. *)
Definition _crear_reglas : list ReglaProduccionAcademica.t :=
  [
    ReglaProduccionAcademica.nueva "R001_AMBIENTE_INTERIOR_TDF_INVIERNO"
      "Detección de Ambiente Interior TDF en Invierno"
      [condicion "ubicacion_usuario" IGUAL (PyStr "interior");
       condicion "calefaccion_nivel" EN (PyList [PyStr "alta"; PyStr "muy_alta"]);
       condicion "ambiente_seco_extremo" NO_EXISTE PyNone]
      [AccionRegla.mk ASSERT "ambiente_seco_extremo" (PyBool true) ∅
         (9 # 10)%Q
         "Calefacción TDF genera sequedad extrema"]
      (19 # 2)%Q None None EmptyString "condiciones_ambientales_tdf" EmptyString;
    ReglaProduccionAcademica.nueva "R011_EXTERIOR_MATA_NEGRA"
      "Recomendar Mata Negra para Exterior Resistente"
      [condicion "ubicacion_usuario" IGUAL (PyStr "exterior");
       condicion "experiencia_usuario" IGUAL (PyStr "principiante");
       condicion "iluminacion_disponible" IGUAL (PyStr "alta");
       condicion "planta_ideal" NO_EXISTE PyNone]
      [AccionRegla.mk RECOMMEND "planta_ideal" (PyStr "Mata Negra") ∅
         (97 # 100)%Q
         "La Mata Negra es un arbusto nativo extremadamente resistente al viento y al sol directo. Es una opción perfecta y de bajo mantenimiento para jardines en TDF."]
      9%Q None None EmptyString "recomendacion_final" EmptyString;
    ReglaProduccionAcademica.nueva "R008_EXTERIOR_RESISTENTE"
      "Recomendar Planta Resistente para Exterior"
      [condicion "ubicacion_usuario" IGUAL (PyStr "exterior");
       condicion "experiencia_usuario" IGUAL (PyStr "principiante");
       condicion "proposito_planta" IGUAL (PyStr "decorativa");
       condicion "planta_ideal" NO_EXISTE PyNone]
      [AccionRegla.mk RECOMMEND "planta_ideal" (PyStr "Calafate") ∅
         (49 # 50)%Q
         "El Calafate es un arbusto nativo extremadamente resistente al viento y las duras condiciones de TDF, ideal para principiantes."]
      (17 # 2)%Q None None EmptyString "recomendacion_final" EmptyString;
    ReglaProduccionAcademica.nueva "R017_EXTERIOR_LENGAS"
      "Recomendar Lengas para Jardín Amplio"
      [condicion "ubicacion_usuario" IGUAL (PyStr "exterior");
       condicion "experiencia_usuario" IGUAL (PyStr "avanzado");
       condicion "proposito_planta" IGUAL (PyStr "decorativa");
       condicion "planta_ideal" NO_EXISTE PyNone]
      [AccionRegla.mk RECOMMEND "planta_ideal" (PyStr "Lengas") ∅
         (9 # 10)%Q
         "La Lenga es el árbol emblemático de los bosques andino-patagónicos. Ideal para un jardinero avanzado que desea una pieza central icónica y de gran porte."]
      (83 # 10)%Q None None EmptyString "recomendacion_final" EmptyString;
    ReglaProduccionAcademica.nueva "R019_EXTERIOR_CHAURA"
      "Recomendar Chaura para Frutos Decorativos"
      [condicion "ubicacion_usuario" IGUAL (PyStr "exterior");
       condicion "experiencia_usuario" IGUAL (PyStr "intermedio");
       condicion "proposito_planta" IGUAL (PyStr "decorativa");
       condicion "iluminacion_disponible" IGUAL (PyStr "media");
       condicion "planta_ideal" NO_EXISTE PyNone]
      [AccionRegla.mk RECOMMEND "planta_ideal" (PyStr "Chaura") ∅
         (91 # 100)%Q
         "La Chaura es un arbusto perenne muy atractivo, especialmente por sus frutos coloridos (blancos, rosados o rojos). Es una gran adición para un jardín con luz media."]
      (83 # 10)%Q None None EmptyString "recomendacion_final" EmptyString;
    ReglaProduccionAcademica.nueva "R012_EXTERIOR_NIRE"
      "Recomendar Ñire para Exterior Adaptable"
      [condicion "ubicacion_usuario" IGUAL (PyStr "exterior");
       condicion "experiencia_usuario" IGUAL (PyStr "intermedio");
       condicion "proposito_planta" IGUAL (PyStr "decorativa");
       condicion "planta_ideal" NO_EXISTE PyNone]
      [AccionRegla.mk RECOMMEND "planta_ideal" (PyStr "Ñire") ∅
         (47 # 50)%Q
         "El Ñire es un árbol nativo muy adaptable, conocido por los hermosos colores de sus hojas en otoño. Ideal para dar un toque local y resistente a cualquier jardín."]
      (41 # 5)%Q None None EmptyString "recomendacion_final" EmptyString;
    ReglaProduccionAcademica.nueva "R015_EXTERIOR_ORQUIDEA"
      "Recomendar Orquídea de Magallanes para Expertos"
      [condicion "ubicacion_usuario" IGUAL (PyStr "exterior");
       condicion "experiencia_usuario" IGUAL (PyStr "avanzado");
       condicion "proposito_planta" IGUAL (PyStr "flores");
       condicion "planta_ideal" NO_EXISTE PyNone]
      [AccionRegla.mk RECOMMEND "planta_ideal" (PyStr "Orquídea de Magallanes") ∅
         (17 # 20)%Q
         "La Orquídea de Magallanes es una joya nativa. Es delicada y un desafío gratificante para un jardinero experimentado que busca una flor única."]
      (81 # 10)%Q None None EmptyString "recomendacion_final" EmptyString;
    ReglaProduccionAcademica.nueva "R016_EXTERIOR_ZAPATITO"
      "Recomendar Zapatito de la Virgen"
      [condicion "ubicacion_usuario" IGUAL (PyStr "exterior");
       condicion "experiencia_usuario" IGUAL (PyStr "intermedio");
       condicion "proposito_planta" IGUAL (PyStr "flores");
       condicion "iluminacion_disponible" IGUAL (PyStr "media");
       condicion "planta_ideal" NO_EXISTE PyNone]
      [AccionRegla.mk RECOMMEND "planta_ideal" (PyStr "Zapatito de la Virgen") ∅
         (89 # 100)%Q
         "El Zapatito de la Virgen tiene una de las flores más curiosas y atractivas de la flora nativa, ideal para un lugar con luz parcial en el jardín."]
      (81 # 10)%Q None None EmptyString "recomendacion_final" EmptyString;
    ReglaProduccionAcademica.nueva "R005_EXTERIOR_FLORES"
      "Recomendar Planta con Flores para Exterior"
      [condicion "ubicacion_usuario" IGUAL (PyStr "exterior");
       condicion "proposito_planta" IGUAL (PyStr "flores");
       condicion "planta_ideal" NO_EXISTE PyNone]
      [AccionRegla.mk RECOMMEND "planta_ideal" (PyStr "Notro / Ciruelillo") ∅
         (19 # 20)%Q
         "El Notro es un árbol nativo famoso por sus espectaculares flores rojas, ideal para jardines en TDF."]
      8%Q None None EmptyString "recomendacion_final" EmptyString;
    ReglaProduccionAcademica.nueva "R014_INTERIOR_FLORES_INVIERNO"
      "Recomendar Cactus de Navidad para Flores en Interior"
      [condicion "ubicacion_usuario" IGUAL (PyStr "interior");
       condicion "proposito_planta" IGUAL (PyStr "flores");
       condicion "experiencia_usuario" IGUAL (PyStr "intermedio");
       condicion "planta_ideal" NO_EXISTE PyNone]
      [AccionRegla.mk RECOMMEND "planta_ideal" (PyStr "Cactus de Navidad") ∅
         (91 # 100)%Q
         "El Cactus de Navidad es famoso por su espectacular floración invernal, ideal para dar color a los interiores durante los meses fríos."]
      (79 # 10)%Q None None EmptyString "recomendacion_final" EmptyString;
    ReglaProduccionAcademica.nueva "R009_INTERIOR_AVANZADO_DECORATIVA"
      "Recomendar Planta Decorativa para Usuario Avanzado"
      [condicion "ubicacion_usuario" IGUAL (PyStr "interior");
       condicion "experiencia_usuario" IGUAL (PyStr "avanzado");
       condicion "proposito_planta" IGUAL (PyStr "decorativa");
       condicion "iluminacion_disponible" IGUAL (PyStr "media");
       condicion "planta_ideal" NO_EXISTE PyNone]
      [AccionRegla.mk RECOMMEND "planta_ideal" (PyStr "Monstera Deliciosa") ∅
         (9 # 10)%Q
         "La Monstera Deliciosa es una planta icónica y muy decorativa que recompensa los cuidados de un usuario más experimentado."]
      (39 # 5)%Q None None EmptyString "recomendacion_final" EmptyString;
    ReglaProduccionAcademica.nueva "R013_INTERIOR_HUMEDAD"
      "Recomendar Helecho para Ambiente Húmedo"
      [condicion "ubicacion_usuario" IGUAL (PyStr "interior");
       condicion "proposito_planta" IGUAL (PyStr "decorativa");
       condicion "experiencia_usuario" IGUAL (PyStr "intermedio");
       condicion "calefaccion_nivel" IGUAL (PyStr "baja");
       condicion "planta_ideal" NO_EXISTE PyNone]
      [AccionRegla.mk RECOMMEND "planta_ideal" (PyStr "Helecho Serrucho") ∅
         (22 # 25)%Q
         "El Helecho Serrucho ama la humedad. Un ambiente con calefacción baja sugiere mayor humedad, ideal para esta planta."]
      (38 # 5)%Q None None EmptyString "recomendacion_final" EmptyString;
    ReglaProduccionAcademica.nueva "R010_INTERIOR_UTILITARIA"
      "Recomendar Planta Utilitaria de Interior"
      [condicion "ubicacion_usuario" IGUAL (PyStr "interior");
       condicion "proposito_planta" IGUAL (PyStr "utilitaria");
       condicion "iluminacion_disponible" IGUAL (PyStr "alta");
       condicion "planta_ideal" NO_EXISTE PyNone]
      [AccionRegla.mk RECOMMEND "planta_ideal" (PyStr "Aloe Vera") ∅
         (93 # 100)%Q
         "El Aloe Vera es una planta utilitaria excelente por el gel de sus hojas, y prospera con mucha luz indirecta o algo de sol directo."]
      (15 # 2)%Q None None EmptyString "recomendacion_final" EmptyString;
    ReglaProduccionAcademica.nueva "R003_PRINCIPIANTE_INTERIOR"
      "Recomendar para Principiantes en Interior"
      [condicion "ubicacion_usuario" IGUAL (PyStr "interior");
       condicion "experiencia_usuario" IGUAL (PyStr "principiante");
       condicion "mascotas_presentes" IGUAL (PyBool true);
       condicion "planta_ideal" NO_EXISTE PyNone]
      [AccionRegla.mk RECOMMEND "planta_ideal" (PyStr "Lazo de Amor") ∅
         (9 # 10)%Q
         "El Lazo de Amor es extremadamente resistente, fácil de cuidar y seguro para mascotas."]
      (15 # 2)%Q None None EmptyString "recomendacion_final" EmptyString;
    ReglaProduccionAcademica.nueva "R018_EXTERIOR_FRUTILLA_DIABLO"
      "Recomendar Frutilla del Diablo para Cubresuelos"
      [condicion "ubicacion_usuario" IGUAL (PyStr "exterior");
       condicion "proposito_planta" IGUAL (PyStr "decorativa");
       condicion "iluminacion_disponible" IGUAL (PyStr "baja");
       condicion "planta_ideal" NO_EXISTE PyNone]
      [AccionRegla.mk RECOMMEND "planta_ideal" (PyStr "Frutilla del Diablo") ∅
         (22 # 25)%Q
         "La Frutilla del Diablo es un excelente cubresuelos nativo que prospera en zonas sombrías y húmedas del jardín, donde otras plantas no crecen."]
      (37 # 5)%Q None None EmptyString "recomendacion_final" EmptyString;
    ReglaProduccionAcademica.nueva "R002_RECOMENDAR_SANSEVIERIA_SECO"
      "Recomendar Sansevieria para Ambiente Seco"
      [condicion "ambiente_seco_extremo" IGUAL (PyBool true);
       condicion "planta_ideal" NO_EXISTE PyNone]
      [AccionRegla.mk RECOMMEND "planta_ideal" (PyStr "Sansevieria / Lengua de suegra") ∅
         (19 # 20)%Q
         "La Sansevieria es ideal para ambientes secos y requiere muy poco riego."]
      (73 # 10)%Q None None EmptyString "recomendacion_final" EmptyString;
    ReglaProduccionAcademica.nueva "R020_INTERIOR_MENTA"
      "Recomendar Menta para Interior Aromático/Utilitario"
      [condicion "ubicacion_usuario" IGUAL (PyStr "interior");
       condicion "proposito_planta" EN (PyList [PyStr "aromatica"; PyStr "utilitaria"]);
       condicion "iluminacion_disponible" IGUAL (PyStr "alta");
       condicion "planta_ideal" NO_EXISTE PyNone]
      [AccionRegla.mk RECOMMEND "planta_ideal" (PyStr "Menta") ∅
         (89 # 100)%Q
         "La Menta crece vigorosamente en interiores con mucha luz, ideal para tener hierbas frescas a mano para cocinar o disfrutar de su aroma."]
      (36 # 5)%Q None None EmptyString "recomendacion_final" EmptyString;
    ReglaProduccionAcademica.nueva "R021_EXTERIOR_ROMERO"
      "Recomendar Romero para Exterior Aromático/Utilitario"
      [condicion "ubicacion_usuario" IGUAL (PyStr "exterior");
       condicion "proposito_planta" EN (PyList [PyStr "aromatica"; PyStr "utilitaria"]);
       condicion "iluminacion_disponible" IGUAL (PyStr "alta");
       condicion "planta_ideal" NO_EXISTE PyNone]
      [AccionRegla.mk RECOMMEND "planta_ideal" (PyStr "Romero Rastrero") ∅
         (9 # 10)%Q
         "El Romero Rastrero es una excelente opción para exterior a pleno sol. Es resistente, de bajo mantenimiento y sirve tanto como condimento como planta aromática."]
      (71 # 10)%Q None None EmptyString "recomendacion_final" EmptyString;
    ReglaProduccionAcademica.nueva "R004_INTERIOR_POCA_LUZ"
      "Recomendar para Interior con Poca Luz"
      [condicion "ubicacion_usuario" IGUAL (PyStr "interior");
       condicion "iluminacion_disponible" IGUAL (PyStr "baja");
       condicion "planta_ideal" NO_EXISTE PyNone]
      [AccionRegla.mk RECOMMEND "planta_ideal" (PyStr "Potus") ∅
         (23 # 25)%Q
         "El Potus es una de las plantas más tolerantes a condiciones de baja luminosidad."]
      7%Q None None EmptyString "recomendacion_final" EmptyString;
    ReglaProduccionAcademica.nueva "R006_EXTERIOR_AROMATICA_LAVANDA"
      "Recomendar Lavanda para Exterior Aromática"
      [condicion "ubicacion_usuario" IGUAL (PyStr "exterior");
       condicion "proposito_planta" IGUAL (PyStr "aromatica");
       condicion "iluminacion_disponible" IGUAL (PyStr "alta");
       condicion "planta_ideal" NO_EXISTE PyNone]
      [AccionRegla.mk RECOMMEND "planta_ideal" (PyStr "Lavanda") ∅
         (9 # 10)%Q
         "La Lavanda prospera a pleno sol, es resistente y ofrece un aroma excepcional."]
      7%Q None None EmptyString "recomendacion_final" EmptyString
  ].

(** [BaseConocimientoBotanicoTDF()] *)
Definition BaseConocimientoBotanicoTDF : BaseConocimiento :=
  base_de_reglas _crear_reglas.

(** The case [main_cli] consults, and one that opens two guards at once. *)
Definition caso_prueba : list (string * Any) :=
  [("ubicacion_usuario", PyStr "interior");
   ("calefaccion_nivel", PyStr "alta");
   ("mascotas_presentes", PyBool false)].

Definition caso_poca_luz : list (string * Any) :=
  [("ubicacion_usuario", PyStr "interior");
   ("calefaccion_nivel", PyStr "alta");
   ("iluminacion_disponible", PyStr "baja")].

(** ** Conflict resolution, in terms of the rules *)

(** The order of two rules under the strategies whose key is copied from the
    rule: its specificity, or its priority. *)
Definition regla_menor_igual (e : EstrategiaConflictResolution)
    (r' r : ReglaProduccionAcademica.t) : Prop :=
  match e with
  | ESPECIFICIDAD =>
      ReglaProduccionAcademica.especificidad r'
        ≤ ReglaProduccionAcademica.especificidad r
  | PRIORIDAD_EXPLICITA =>
      (ReglaProduccionAcademica.prioridad r'
         <= ReglaProduccionAcademica.prioridad r)%Q
  | RECENCIA => True
  end.

Definition regla_menor (e : EstrategiaConflictResolution)
    (r' r : ReglaProduccionAcademica.t) : Prop :=
  match e with
  | ESPECIFICIDAD =>
      ReglaProduccionAcademica.especificidad r'
        < ReglaProduccionAcademica.especificidad r
  | PRIORIDAD_EXPLICITA =>
      (ReglaProduccionAcademica.prioridad r'
         < ReglaProduccionAcademica.prioridad r)%Q
  | RECENCIA => True
  end.

(** * Properties *)

(** ** Identifiers *)

Lemma uint_of_string_ceros k s :
  NilEmpty.uint_of_string (ceros k +:+ s) =
  Nat.iter k Decimal.D0 <$> NilEmpty.uint_of_string s.
Proof.
  induction k as [|k IH].
  - change (ceros 0 +:+ s) with s. by destruct (NilEmpty.uint_of_string s).
  - change (ceros (S k) +:+ s) with (String "0" (ceros k +:+ s)).
    change (NilEmpty.uint_of_string (String "0" (ceros k +:+ s)))
      with (uint_of_char "0" (NilEmpty.uint_of_string (ceros k +:+ s))).
    rewrite IH. by destruct (NilEmpty.uint_of_string s).
Qed.

Lemma of_uint_ceros k d : N.of_uint (Nat.iter k Decimal.D0 d) = N.of_uint d.
Proof. induction k as [|k IH]; [done|]. simpl. exact IH. Qed.

Lemma numero_de_id_de_numero n : numero_de_id (id_de_numero n) = Some n.
Proof.
  unfold id_de_numero, formato_04d.
  change (numero_de_id ("F" +:+ ?x))
    with (N.of_uint <$> NilEmpty.uint_of_string x).
  rewrite uint_of_string_ceros, NilEmpty.usu. simpl.
  by rewrite of_uint_ceros, DecimalN.Unsigned.of_to.
Qed.

#[global] Instance id_de_numero_inj : Inj (=) (=) id_de_numero.
Proof.
  intros a b Hab. apply (f_equal numero_de_id) in Hab.
  rewrite !numero_de_id_de_numero in Hab. congruence.
Qed.

Lemma id_lt_de_numero a b : id_lt (id_de_numero a) (id_de_numero b) ↔ (a < b)%N.
Proof.
  unfold id_lt. split.
  - intros (x & y & Hx & Hy & Hxy).
    rewrite numero_de_id_de_numero in Hx, Hy. congruence.
  - intros Hab. exists a, b. by rewrite !numero_de_id_de_numero.
Qed.

(** The padding is to four digits: up to [F9999] the identifiers are in
    the order of their numbers also as strings, and from [F10000] on they
    are not. *)
Example id_de_numero_diez_mil :
  id_de_numero 9999 = "F9999" ∧ id_de_numero 10000 = "F10000" ∧
  id_lt (id_de_numero 9999) (id_de_numero 10000) ∧
  String.ltb (id_de_numero 10000) (id_de_numero 9999) = true.
Proof.
  split; [reflexivity|]. split; [reflexivity|].
  split; [by apply id_lt_de_numero|reflexivity].
Qed.

(** ** The store keeps its invariant *)

Lemma MemoriaTrabajo_init_ok : MemoriaTrabajo_ok MemoriaTrabajo_init.
Proof.
  split; simpl.
  - intros hid h Hh. by rewrite lookup_empty in Hh.
  - intros hid [h Hh]. by rewrite lookup_empty in Hh.
  - intros p hid. rewrite lookup_empty. simpl. split.
    + intros Hin. by apply not_elem_of_empty in Hin.
    + intros (h & Hh & _). by rewrite lookup_empty in Hh.
  - intros t. exists ∅. split.
    + by destruct t.
    + intros hid. split.
      * intros Hin. by apply not_elem_of_empty in Hin.
      * intros (h & Hh & _). by rewrite lookup_empty in Hh.
Qed.

Lemma limpiar_memoria_ok m : MemoriaTrabajo_ok (limpiar_memoria m).
Proof. apply MemoriaTrabajo_init_ok. Qed.

Lemma id_nuevo_libre m :
  MemoriaTrabajo_ok m →
  _hechos m !! id_de_numero (_contador_hechos m + 1) = None.
Proof.
  intros Hok. destruct (_hechos m !! _) as [h|] eqn:Hh; [|done].
  destruct (ok_numero m Hok _ (mk_is_Some _ _ Hh)) as (n & Hn & Heq).
  apply (inj id_de_numero) in Heq. lia.
Qed.

Lemma assert_hecho_spec t m p v ty o j c :
  MemoriaTrabajo_ok m →
  let hid := id_de_numero (_contador_hechos m + 1) in
  ∃ m', assert_hecho t m p v ty o j c = Devuelve (hid, m')
      ∧ _hechos m' = <[hid := Hecho.mk hid p v ty o t j c]> (_hechos m)
      ∧ _hechos m !! hid = None
      ∧ _contador_hechos m' = (_contador_hechos m + 1)%N
      ∧ MemoriaTrabajo_ok m'.
Proof.
  intros Hok hid.
  pose proof (id_nuevo_libre m Hok) as Hlibre. fold hid in Hlibre.
  destruct (ok_tipo m Hok ty) as (ids & Hids & Hids_ok).
  unfold assert_hecho, _generar_id_hecho. simpl. fold hid. rewrite Hids.
  eexists. split; [reflexivity|]. simpl.
  split; [done|]. split; [done|]. split; [done|].
  split; simpl.
  - intros hid' h'. rewrite lookup_insert. case_decide as Hd.
    + intros [= <-]. by subst.
    + apply (ok_id m Hok).
  - intros hid'. rewrite lookup_insert. case_decide as Hd.
    + intros _. exists (_contador_hechos m + 1)%N. split; [lia|done].
    + intros Hs. destruct (ok_numero m Hok _ Hs) as (n & Hn & ->).
      exists n. split; [lia|done].
  - intros p' hid'. rewrite lookup_insert. case_decide as Hp; simpl.
    + subst p'. rewrite elem_of_union, elem_of_singleton, (ok_predicado m Hok).
      split.
      * intros [(h & Hh & Hph)| ->].
        -- exists h. split; [|done]. rewrite lookup_insert_ne; [done|].
           intros <-. congruence.
        -- eexists. by rewrite lookup_insert_eq.
      * intros (h & Hh & Hph). rewrite lookup_insert in Hh.
        case_decide as Hd; [by right|]. left. by exists h.
    + rewrite (ok_predicado m Hok). split.
      * intros (h & Hh & Hph). exists h. split; [|done].
        rewrite lookup_insert_ne; [done|]. intros <-. congruence.
      * intros (h & Hh & Hph). rewrite lookup_insert in Hh.
        case_decide as Hd; [|by exists h].
        injection Hh as <-. simpl in Hph. congruence.
  - intros t'. rewrite lookup_insert. case_decide as Ht.
    + subst t'. eexists. split; [reflexivity|]. intros hid'.
      rewrite elem_of_union, elem_of_singleton, Hids_ok. split.
      * intros [(h & Hh & Hth)| ->].
        -- exists h. split; [|done]. rewrite lookup_insert_ne; [done|].
           intros <-. congruence.
        -- eexists. by rewrite lookup_insert_eq.
      * intros (h & Hh & Hth). rewrite lookup_insert in Hh.
        case_decide as Hd; [by right|]. left. by exists h.
    + destruct (ok_tipo m Hok t') as (ids' & Hids' & Hids'_ok).
      exists ids'. split; [done|]. intros hid'. rewrite Hids'_ok. split.
      * intros (h & Hh & Hth). exists h. split; [|done].
        rewrite lookup_insert_ne; [done|]. intros <-. congruence.
      * intros (h & Hh & Hth). rewrite lookup_insert in Hh.
        case_decide as Hd; [|by exists h].
        injection Hh as <-. simpl in Hth. congruence.
Qed.

(** Every store a program can build satisfies the invariant. *)
Lemma MemoriaTrabajo_alcanzable_ok m :
  MemoriaTrabajo_alcanzable m → MemoriaTrabajo_ok m.
Proof.
  induction 1 as [|t m p v ty o j c hid m' _ IH Heq|m _ _].
  - apply MemoriaTrabajo_init_ok.
  - destruct (assert_hecho_spec t m p v ty o j c IH) as (m'' & Heq' & _ & _ & _ & Hok).
    rewrite Heq in Heq'. by injection Heq' as _ ->.
  - apply limpiar_memoria_ok.
Qed.

(** ** [max] with a key *)

#[global] Instance Zgtb_orden : OrdenClaves Z.gtb.
Proof. split; intros; lia. Qed.

Lemma Qgtb_true a b : Qgtb a b = true ↔ (b < a)%Q.
Proof.
  unfold Qgtb. rewrite negb_true_iff, <- not_true_iff_false, Qle_bool_iff.
  split; [apply Qnot_le_lt | apply Qlt_not_le].
Qed.

Lemma Qgtb_false a b : Qgtb a b = false ↔ (a <= b)%Q.
Proof. unfold Qgtb. by rewrite negb_false_iff, Qle_bool_iff. Qed.

#[global] Instance Qgtb_orden : OrdenClaves Qgtb.
Proof.
  split.
  - intros a. apply Qgtb_false, Qle_refl.
  - intros a b c Hcb Hab. apply Qgtb_true in Hcb. apply Qgtb_false in Hab.
    apply Qgtb_false, Qlt_le_weak. by eapply Qle_lt_trans.
  - intros a b c Hcb Hab. apply Qgtb_true in Hcb. apply Qgtb_false in Hab.
    apply Qgtb_true. by eapply Qle_lt_trans.
Qed.

Section py_max.
Context {A K : Type} (gt : K → K → bool) `{!OrdenClaves gt} (key : A → K).

Lemma py_max_fold xs : ∀ pre m l1 l2,
  pre = l1 ++ m :: l2 →
  (∀ y, y ∈ l1 → gt (key m) (key y) = true) →
  (∀ y, y ∈ pre → gt (key y) (key m) = false) →
  ∃ r k1 k2,
    fst (fold_left (py_max_paso gt key) xs (m, key m)) = r ∧
    pre ++ xs = k1 ++ r :: k2 ∧
    (∀ y, y ∈ k1 → gt (key r) (key y) = true) ∧
    (∀ y, y ∈ pre ++ xs → gt (key y) (key r) = false).
Proof.
  induction xs as [|z xs IH]; intros pre m l1 l2 Hpre Hl1 Hmax.
  - exists m, l1, l2. rewrite app_nil_r. auto.
  - simpl. unfold py_max_paso at 2. simpl.
    destruct (gt (key z) (key m)) eqn:Hz.
    + destruct (IH (pre ++ [z]) z pre []) as (r & k1 & k2 & Hr & Hk & Hk1 & Hall).
      * done.
      * intros y Hy. eapply gt_supera; eauto.
      * intros y Hy. apply elem_of_app in Hy as [Hy|Hy].
        -- eapply gt_sube; eauto.
        -- apply list_elem_of_singleton in Hy as ->. apply gt_irrefl.
      * exists r, k1, k2. rewrite <- app_assoc in Hk, Hall. auto.
    + destruct (IH (pre ++ [z]) m l1 (l2 ++ [z])) as (r & k1 & k2 & Hr & Hk & Hk1 & Hall).
      * rewrite Hpre, <- app_assoc. done.
      * done.
      * intros y Hy. apply elem_of_app in Hy as [Hy|Hy]; [auto|].
        by apply list_elem_of_singleton in Hy as ->.
      * exists r, k1, k2. rewrite <- app_assoc in Hk, Hall. auto.
Qed.

(** On a list that is not empty [max] returns its first item of greatest
    key. *)
Lemma py_max_spec l :
  l ≠ [] →
  ∃ r l1 l2,
    py_max gt key l = Devuelve r ∧ l = l1 ++ r :: l2 ∧
    (∀ y, y ∈ l1 → gt (key r) (key y) = true) ∧
    (∀ y, y ∈ l → gt (key y) (key r) = false).
Proof.
  destruct l as [|x xs]; [done|]. intros _.
  destruct (py_max_fold xs [x] x [] []) as (r & k1 & k2 & Hr & Hk & Hk1 & Hall).
  - done.
  - intros y Hy. by apply elem_of_nil in Hy.
  - intros y Hy. apply list_elem_of_singleton in Hy as ->. apply gt_irrefl.
  - exists r, k1, k2. simpl. rewrite Hr. auto.
Qed.

End py_max.

(** ** Reading the store *)

Lemma res_mapM_hecho_de_id m ids :
  (∀ hid, hid ∈ ids → is_Some (_hechos m !! hid)) →
  ∃ hs, res_mapM (hecho_de_id m) ids = Devuelve hs ∧
        Forall2 (λ hid h, _hechos m !! hid = Some h) ids hs.
Proof.
  induction ids as [|hid ids IH]; intros Hall.
  - exists []. split; [done|constructor].
  - destruct (Hall hid) as [h Hh]; [left|].
    destruct IH as (hs & Hhs & HF).
    { intros hid' Hin. apply Hall. by right. }
    exists (h :: hs). split.
    + simpl. unfold hecho_de_id at 1. rewrite Hh. simpl. by rewrite Hhs.
    + by constructor.
Qed.

Lemma hecho_de_en_indice m p h :
  MemoriaTrabajo_ok m → hecho_de m p h →
  Hecho.id h ∈ default ∅ (_indice_por_predicado m !! p).
Proof. intros Hok [Hh Hp]. apply (ok_predicado m Hok). eauto. Qed.

Lemma obtener_hecho_spec E m p :
  MemoriaTrabajo_ok m →
  match obtener_hecho E m p with
  | Devuelve None => ∀ h, ¬ hecho_de m p h
  | Devuelve (Some h) =>
      hecho_de m p h ∧
      (∀ h', hecho_de m p h' → Hecho.timestamp h' ≤ Hecho.timestamp h) ∧
      ∃ antes despues,
        iterar E (default ∅ (_indice_por_predicado m !! p))
          = antes ++ Hecho.id h :: despues ∧
        ∀ h', hecho_de m p h' → Hecho.id h' ∈ antes →
              Hecho.timestamp h' < Hecho.timestamp h
  | _ => False
  end.
Proof.
  intros Hok. unfold obtener_hecho.
  set (ids := default ∅ (_indice_por_predicado m !! p)).
  assert (Hids : ∀ hid, hid ∈ iterar E ids ↔ hid ∈ ids).
  { intros hid. rewrite (iterar_perm E ids). apply elem_of_elements. }
  destruct (decide (ids = ∅)) as [Hvacio|Hno_vacio].
  - intros h Hh. apply (hecho_de_en_indice m p h Hok) in Hh.
    fold ids in Hh. rewrite Hvacio in Hh. by apply not_elem_of_empty in Hh.
  - destruct (res_mapM_hecho_de_id m (iterar E ids)) as (hs & Hhs & HF).
    { intros hid Hin. apply Hids, (ok_predicado m Hok) in Hin.
      destruct Hin as (h & Hh & _). eauto. }
    rewrite Hhs. simpl.
    assert (Hne : hs ≠ []).
    { intros ->. apply Forall2_nil_inv_r in HF.
      apply Hno_vacio, leibniz_equiv, elem_of_equiv_empty.
      intros hid Hin. apply Hids in Hin. rewrite HF in Hin.
      by apply elem_of_nil in Hin. }
    destruct (py_max_spec Z.gtb Hecho.timestamp hs Hne)
      as (r & l1 & l2 & Hr & Hl & Hl1 & Hall).
    rewrite Hr. simpl.
    assert (Hde : ∀ hid h, hid ∈ ids → _hechos m !! hid = Some h →
                  hecho_de m p h ∧ Hecho.id h = hid).
    { intros hid h Hin Hh. apply (ok_predicado m Hok) in Hin.
      destruct Hin as (h' & Hh' & Hp). assert (h' = h) as -> by congruence.
      pose proof (ok_id m Hok _ _ Hh) as Hid. unfold hecho_de.
      by rewrite Hid. }
    subst hs. apply Forall2_app_inv_r in HF as (a1 & a2' & HF1 & HF2 & Ha).
    apply Forall2_cons_inv_r in HF2 as (hid_r & a2 & Hhid_r & HF2 & ->).
    assert (Hin_r : hid_r ∈ ids).
    { apply Hids. rewrite Ha. apply elem_of_app. right. left. }
    destruct (Hde _ _ Hin_r Hhid_r) as [Hde_r Hid_r].
    split; [done|]. split.
    + intros h' Hh'. pose proof (hecho_de_en_indice m p h' Hok Hh') as Hin.
      fold ids in Hin. apply Hids in Hin. rewrite Ha in Hin.
      assert (Hh'_in : h' ∈ l1 ++ r :: l2).
      { destruct Hh' as [Hh' _].
        apply elem_of_app in Hin as [Hin|Hin].
        - apply list_elem_of_lookup in Hin as [i Hi].
          destruct (Forall2_lookup_l _ _ _ _ _ HF1 Hi) as (h'' & Hl1i & Hh'').
          assert (h'' = h') as -> by congruence.
          apply elem_of_app. left. by eapply list_elem_of_lookup_2.
        - apply elem_of_cons in Hin as [Hin|Hin].
          + assert (r = h') as -> by congruence.
            apply elem_of_app. right. left.
          + apply list_elem_of_lookup in Hin as [i Hi].
            destruct (Forall2_lookup_l _ _ _ _ _ HF2 Hi) as (h'' & Hl2i & Hh'').
            assert (h'' = h') as -> by congruence.
            apply elem_of_app. right. right. by eapply list_elem_of_lookup_2. }
      apply Hall in Hh'_in. lia.
    + exists a1, a2. rewrite Hid_r. split; [done|].
      intros h' [Hh' _] Hin.
      apply list_elem_of_lookup in Hin as [i Hi].
      destruct (Forall2_lookup_l _ _ _ _ _ HF1 Hi) as (h'' & Hl1i & Hh'').
      assert (h'' = h') as -> by congruence.
      apply list_elem_of_lookup_2 in Hl1i. apply Hl1 in Hl1i. lia.
Qed.

Lemma obtener_hecho_devuelve E m p :
  MemoriaTrabajo_ok m → ∃ oh, obtener_hecho E m p = Devuelve oh.
Proof.
  intros Hok. pose proof (obtener_hecho_spec E m p Hok) as H.
  destruct (obtener_hecho E m p) as [oh| |]; [eauto|done|done].
Qed.

Lemma obtener_hecho_existe E m p h0 :
  MemoriaTrabajo_ok m → hecho_de m p h0 →
  ∃ h, obtener_hecho E m p = Devuelve (Some h).
Proof.
  intros Hok Hh0. pose proof (obtener_hecho_spec E m p Hok) as H.
  destruct (obtener_hecho E m p) as [[h|]| |]; [eauto| |done|done].
  by destruct (H h0).
Qed.

(** ** Evaluating conditions *)

Lemma _evaluar_condicion_devuelve E m c b :
  MemoriaTrabajo_ok m → ∃ r b', _evaluar_condicion E m c b = Devuelve (r, b').
Proof.
  intros Hok. unfold _evaluar_condicion.
  destruct (obtener_hecho_devuelve E m (CondicionRegla.predicado c) Hok) as [oh ->].
  simpl.
  destruct (CondicionRegla.operador c), oh as [h|]; simpl; eauto;
    match goal with
    | |- context [match ?r with true => _ | false => _ end] => destruct r
    end;
    try destruct (variable_dada _); eauto.
Qed.

Lemma evaluar_condiciones_devuelve E m cs : ∀ b,
  MemoriaTrabajo_ok m → ∃ ob, evaluar_condiciones E m cs b = Devuelve ob.
Proof.
  induction cs as [|c cs IH]; intros b Hok; simpl; [eauto|].
  destruct (_evaluar_condicion_devuelve E m c b Hok) as (r & b' & ->). simpl.
  destruct r; eauto.
Qed.

Lemma evaluar_regla_devuelve E m regla :
  MemoriaTrabajo_ok m → ∃ ob, evaluar_regla E m regla = Devuelve ob.
Proof. apply evaluar_condiciones_devuelve. Qed.

Lemma memoria_ejemplo_ok : MemoriaTrabajo_ok memoria_ejemplo.
Proof.
  destruct (assert_hecho_spec 0 MemoriaTrabajo_init "edad" (PyInt 10) INICIAL
              None EmptyString 1%Q MemoriaTrabajo_init_ok) as (m' & Heq & _ & _ & _ & Hok).
  unfold memoria_ejemplo. by rewrite Heq.
Qed.

Lemma hecho_ejemplo_de : hecho_de memoria_ejemplo "edad" hecho_ejemplo.
Proof. split; [vm_compute|]; reflexivity. Qed.

(** ** Operators and action kinds without a branch *)

(** C1, as the code has it: on a store that satisfies its invariant a
    condition whose operator is MENOR, MENOR_IGUAL, MAYOR, MAYOR_IGUAL,
    CONTIENE or COINCIDE_PATRON evaluates to false and binds nothing, and an
    action of kind RETRACT, MODIFY, CALL_FUNCTION, SET_VARIABLE or INCREMENT
    is passed over: the session and the list of created facts stay as they
    were.  Neither raises. *)
Theorem sin_implementar_falso_y_sin_efecto E m c b regla bindings a creados s :
  MemoriaTrabajo_ok m →
  operador_sin_implementar (CondicionRegla.operador c) = true →
  accion_sin_implementar (AccionRegla.tipo a) = true →
  _evaluar_condicion E m c b = Devuelve (false, b) ∧
  ejecutar_accion E regla bindings a creados s = Devuelve (creados, s).
Proof.
  intros Hok Hop Hacc. split.
  - unfold _evaluar_condicion.
    destruct (obtener_hecho_devuelve E m (CondicionRegla.predicado c) Hok) as [oh ->].
    simpl. destruct (CondicionRegla.operador c); try discriminate Hop;
      by destruct oh.
  - unfold ejecutar_accion.
    by destruct (AccionRegla.tipo a); try discriminate Hacc.
Qed.

Lemma sin_implementar_falso_y_sin_efecto_witness :
  _evaluar_condicion entorno_simple memoria_ejemplo
    (condicion_ejemplo MENOR (PyInt 18)) ∅ = Devuelve (false, ∅) ∧
  ejecutar_accion entorno_simple (regla_ejemplo []) ∅
    (accion_ejemplo RETRACT PyNone) [] sesion_ejemplo
  = Devuelve ([], sesion_ejemplo).
Proof.
  apply (sin_implementar_falso_y_sin_efecto entorno_simple memoria_ejemplo
           (condicion_ejemplo MENOR (PyInt 18)) ∅ (regla_ejemplo []) ∅
           (accion_ejemplo RETRACT PyNone) [] sesion_ejemplo).
  - exact memoria_ejemplo_ok.
  - reflexivity.
  - reflexivity.
Defined.

(** C1 as stated fails: with the fact [edad = 10] in the store, the condition
    [edad < 18] and the action [RETRACT apto] raise nothing. *)
Lemma sin_implementar_no_lanza :
  ¬ lanza_error (_evaluar_condicion entorno_simple memoria_ejemplo
                   (condicion_ejemplo MENOR (PyInt 18)) ∅) ∧
  ¬ lanza_error (ejecutar_accion entorno_simple (regla_ejemplo []) ∅
                   (accion_ejemplo RETRACT PyNone) [] sesion_ejemplo).
Proof. split; intros [e He]; vm_compute in He; discriminate He. Qed.

(** ** Membership operators *)

(** C8, as the code has it: on a store that holds a fact for the predicate,
    EN and NO_EN against a list give opposite truth values; against a value
    that is not a list, a string or any other sequence included, both give
    false, whatever the store holds. *)
Theorem en_y_no_en_complementarios E m p var peso expl b l v :
  MemoriaTrabajo_ok m →
  es_lista v = false →
  (∀ h0, hecho_de m p h0 →
     ∃ r b1 b2,
       _evaluar_condicion E m (CondicionRegla.mk p EN (PyList l) var peso expl) b
         = Devuelve (r, b1) ∧
       _evaluar_condicion E m (CondicionRegla.mk p NO_EN (PyList l) var peso expl) b
         = Devuelve (negb r, b2)) ∧
  _evaluar_condicion E m (CondicionRegla.mk p EN v var peso expl) b
    = Devuelve (false, b) ∧
  _evaluar_condicion E m (CondicionRegla.mk p NO_EN v var peso expl) b
    = Devuelve (false, b).
Proof.
  intros Hok Hv. unfold _evaluar_condicion. simpl. split.
  - intros h0 Hh0.
    destruct (obtener_hecho_existe E m p h0 Hok Hh0) as [h ->]. simpl.
    exists (py_in (Hecho.valor h) l).
    destruct (py_in (Hecho.valor h) l), (variable_dada var); simpl; eauto.
  - destruct (obtener_hecho_devuelve E m p Hok) as [oh ->]. simpl.
    by destruct oh, v.
Qed.

Lemma en_y_no_en_complementarios_witness :
  (∃ r b1 b2,
     _evaluar_condicion entorno_simple memoria_ejemplo
       (condicion_ejemplo EN (PyList [PyInt 10; PyInt 20])) ∅ = Devuelve (r, b1) ∧
     _evaluar_condicion entorno_simple memoria_ejemplo
       (condicion_ejemplo NO_EN (PyList [PyInt 10; PyInt 20])) ∅
       = Devuelve (negb r, b2)) ∧
  _evaluar_condicion entorno_simple memoria_ejemplo
    (condicion_ejemplo EN (PyInt 10)) ∅ = Devuelve (false, ∅) ∧
  _evaluar_condicion entorno_simple memoria_ejemplo
    (condicion_ejemplo NO_EN (PyInt 10)) ∅ = Devuelve (false, ∅).
Proof.
  destruct (en_y_no_en_complementarios entorno_simple memoria_ejemplo "edad"
              (Some "x") 1%Q EmptyString ∅ [PyInt 10; PyInt 20] (PyInt 10)
              memoria_ejemplo_ok eq_refl) as [Hlista Hotro].
  split; [|exact Hotro].
  exact (Hlista hecho_ejemplo hecho_ejemplo_de).
Defined.

(** C8 as stated fails: a string is a sequence and not a list.  With the fact
    [edad = 10] in the store, [edad EN "10"] and [edad NO_EN "10"] are both
    false. *)
Lemma en_y_no_en_contra_una_cadena :
  ¬ complementarios_en_secuencias entorno_simple memoria_ejemplo "edad".
Proof.
  intros H.
  destruct (H (PyStr "10") (Some "x") 1%Q EmptyString ∅ hecho_ejemplo eq_refl
              hecho_ejemplo_de) as (r & b1 & b2 & Hen & Hno).
  vm_compute in Hen, Hno. by destruct r.
Qed.

(** ** The latest fact of a predicate *)

Lemma memoria_empate_alcanzable : MemoriaTrabajo_alcanzable memoria_empate.
Proof.
  apply (alcanzable_assert 5 memoria_ejemplo_uno "p" (PyInt 2) INICIAL None
           EmptyString 1%Q "F0002").
  - apply (alcanzable_assert 5 MemoriaTrabajo_init "p" (PyInt 1) INICIAL None
             EmptyString 1%Q "F0001"); [apply alcanzable_init|].
    vm_compute. reflexivity.
  - vm_compute. reflexivity.
Qed.

(** C2, as the code has it: on a store that satisfies its invariant
    [obtener_hecho] raises nothing; it returns [None] exactly when the store
    has no fact for the predicate, and otherwise a fact of the predicate whose
    timestamp no other fact of the predicate exceeds.  Among facts that share
    that timestamp it is the one the iteration over the predicate's set of
    identifiers meets first: every fact met before it is strictly older. *)
Theorem obtener_hecho_mas_reciente E m p :
  MemoriaTrabajo_ok m →
  match obtener_hecho E m p with
  | Devuelve None => ∀ h, ¬ hecho_de m p h
  | Devuelve (Some h) =>
      hecho_de m p h ∧
      (∀ h', hecho_de m p h' → Hecho.timestamp h' ≤ Hecho.timestamp h) ∧
      ∃ antes despues,
        iterar E (default ∅ (_indice_por_predicado m !! p))
          = antes ++ Hecho.id h :: despues ∧
        ∀ h', hecho_de m p h' → Hecho.id h' ∈ antes →
              Hecho.timestamp h' < Hecho.timestamp h
  | _ => False
  end.
Proof. apply obtener_hecho_spec. Qed.

Lemma obtener_hecho_mas_reciente_witness :
  match obtener_hecho entorno_simple memoria_ejemplo "edad" with
  | Devuelve None => ∀ h, ¬ hecho_de memoria_ejemplo "edad" h
  | Devuelve (Some h) =>
      hecho_de memoria_ejemplo "edad" h ∧
      (∀ h', hecho_de memoria_ejemplo "edad" h' →
             Hecho.timestamp h' ≤ Hecho.timestamp h) ∧
      ∃ antes despues,
        iterar entorno_simple
          (default ∅ (_indice_por_predicado memoria_ejemplo !! "edad"))
          = antes ++ Hecho.id h :: despues ∧
        ∀ h', hecho_de memoria_ejemplo "edad" h' → Hecho.id h' ∈ antes →
              Hecho.timestamp h' < Hecho.timestamp h
  | _ => False
  end.
Proof.
  exact (obtener_hecho_mas_reciente entorno_simple memoria_ejemplo "edad"
           memoria_ejemplo_ok).
Defined.

(** C2 as stated fails: two facts for [p] created at the same clock reading,
    the set iterating [F0001] first; [F0001] is returned although [F0002]
    has the same timestamp and the greater identifier. *)
Lemma empate_sin_desempate_por_id :
  ¬ desempata_por_id entorno_simple memoria_empate "p".
Proof.
  intros H.
  apply (H (Hecho.mk "F0001" "p" (PyInt 1) INICIAL None 5 EmptyString 1%Q)
           ltac:(vm_compute; reflexivity)
           (Hecho.mk "F0002" "p" (PyInt 2) INICIAL None 5 EmptyString 1%Q)).
  - split; [vm_compute|]; reflexivity.
  - reflexivity.
  - exists 1%N, 2%N. repeat split; vm_compute; reflexivity.
Qed.

(** ** Asserting facts *)

Lemma assert_hechos_spec llamadas : ∀ m,
  MemoriaTrabajo_ok m →
  ∃ ids m',
    assert_hechos llamadas m = Devuelve (ids, m') ∧
    MemoriaTrabajo_ok m' ∧
    length ids = length llamadas ∧
    size (_hechos m') = (size (_hechos m) + length llamadas)%nat ∧
    (∀ hid h, _hechos m !! hid = Some h → _hechos m' !! hid = Some h) ∧
    Forall (λ hid, ∃ n, (_contador_hechos m < n ≤ _contador_hechos m')%N ∧
                        hid = id_de_numero n) ids ∧
    (_contador_hechos m ≤ _contador_hechos m')%N ∧
    StronglySorted id_lt ids ∧
    Forall (λ hid, is_Some (_hechos m' !! hid)) ids.
Proof.
  induction llamadas as [|ll resto IH]; intros m Hok.
  - exists [], m. simpl.
    split; [done|]. split; [done|]. split; [done|]. split; [lia|].
    split; [done|]. split; [constructor|]. split; [lia|].
    split; constructor.
  - destruct (assert_hecho_spec (ll_ahora ll) m (ll_predicado ll) (ll_valor ll)
                (ll_tipo ll) (ll_origen ll) (ll_justificacion ll)
                (ll_confianza ll) Hok)
      as (m1 & Heq & Hhechos & Hlibre & Hcont & Hok1).
    destruct (IH m1 Hok1)
      as (ids & m' & Hresto & Hok' & Hlen & Hsize & Hpres & Hnum & Hle & Hsort & Hen).
    exists (id_de_numero (_contador_hechos m + 1) :: ids), m'.
    simpl. rewrite Heq. simpl. rewrite Hresto. simpl.
    split; [done|]. split; [done|]. split; [by rewrite Hlen|]. split.
    { rewrite Hsize, Hhechos, map_size_insert_None by done. lia. }
    split.
    { intros hid h Hh. apply Hpres. rewrite Hhechos.
      rewrite lookup_insert_ne; [done|]. intros <-. congruence. }
    split.
    { constructor.
      - exists (_contador_hechos m + 1)%N. split; [lia|done].
      - eapply Forall_impl; [exact Hnum|]. simpl.
        intros hid (n & Hn & ->). exists n. split; [lia|done]. }
    split; [lia|]. split.
    { constructor; [done|].
      eapply Forall_impl; [exact Hnum|]. simpl.
      intros hid (n & Hn & ->). apply id_lt_de_numero. lia. }
    constructor; [|done].
    eexists. apply Hpres. rewrite Hhechos. apply lookup_insert_eq.
Qed.

Lemma id_lt_irrefl a : ¬ id_lt a a.
Proof. intros (x & y & Hx & Hy & Hxy). rewrite Hx in Hy. injection Hy as <-. lia. Qed.

Lemma StronglySorted_id_lt_NoDup ids : StronglySorted id_lt ids → NoDup ids.
Proof.
  induction 1 as [|hid ids Hsort IH Hall]; constructor; [|done].
  intros Hin. rewrite Forall_forall in Hall.
  by apply (id_lt_irrefl hid), Hall.
Qed.

Lemma assert_hechos_print_spec C llamadas : ∀ m,
  MemoriaTrabajo_ok m →
  ∃ ids m',
    assert_hechos llamadas m = Devuelve (ids, m') ∧
    assert_hechos_print C llamadas m
      = Devuelve (zip_with (respuesta_de C) llamadas ids, m').
Proof.
  induction llamadas as [|ll resto IH]; intros m Hok.
  - by exists [], m.
  - destruct (assert_hecho_spec (ll_ahora ll) m (ll_predicado ll) (ll_valor ll)
                (ll_tipo ll) (ll_origen ll) (ll_justificacion ll)
                (ll_confianza ll) Hok)
      as (m1 & Heq & _ & _ & _ & Hok1).
    destruct (IH m1 Hok1) as (ids & m' & Hresto & Himp).
    exists (id_de_numero (_contador_hechos m + 1) :: ids), m'.
    cbn [assert_hechos assert_hechos_print]. unfold assert_hecho_print.
    rewrite Heq. cbn [res_ligar fst snd]. rewrite Hresto, Himp. done.
Qed.

(** C7, as the code has it: on a store that satisfies its invariant,
    whatever was asserted before and whatever the console, every call of a
    run of calls of [assert_hecho] files one fact: the store has one fact
    more a call and keeps every fact it had under the identifier it had; the
    identifiers the facts are filed under were free before, are pairwise
    distinct and carry strictly growing sequence numbers, whatever the
    categories of the facts.  A call returns the identifier of its fact
    unless the line it prints raises; then the call raises that exception,
    the fact staying in the store.  A single call is the run of length
    one. *)
Theorem assert_hecho_monotono C llamadas m :
  MemoriaTrabajo_ok m →
  ∃ ids m',
    assert_hechos_print C llamadas m
      = Devuelve (zip_with (respuesta_de C) llamadas ids, m') ∧
    MemoriaTrabajo_ok m' ∧
    length ids = length llamadas ∧
    size (_hechos m') = (size (_hechos m) + length llamadas)%nat ∧
    (∀ hid h, _hechos m !! hid = Some h → _hechos m' !! hid = Some h) ∧
    (∀ hid, hid ∈ ids → _hechos m !! hid = None ∧ is_Some (_hechos m' !! hid)) ∧
    NoDup ids ∧
    StronglySorted id_lt ids ∧
    (∀ hid hid', is_Some (_hechos m !! hid) → hid' ∈ ids → id_lt hid hid').
Proof.
  intros Hok.
  destruct (assert_hechos_spec llamadas m Hok)
    as (ids & m' & Heq & Hok' & Hlen & Hsize & Hpres & Hnum & Hle & Hsort & Hen).
  destruct (assert_hechos_print_spec C llamadas m Hok)
    as (ids1 & m1 & Heq1 & Himp).
  rewrite Heq in Heq1. injection Heq1 as <- <-.
  exists ids, m'. rewrite Forall_forall in Hnum, Hen.
  split; [done|]. split; [done|]. split; [done|]. split; [done|].
  split; [done|]. split; [|split; [by apply StronglySorted_id_lt_NoDup|split; [done|]]].
  - intros hid Hin. destruct (Hnum hid Hin) as (n & Hn & ->). split.
    + destruct (_hechos m !! id_de_numero n) eqn:Hh; [|done].
      destruct (ok_numero m Hok _ (mk_is_Some _ _ Hh)) as (n' & Hn' & Hnn').
      apply (inj id_de_numero) in Hnn'. lia.
    + by apply Hen.
  - intros hid hid' Hs Hin. destruct (Hnum hid' Hin) as (n' & Hn' & ->).
    destruct (ok_numero m Hok _ Hs) as (n & Hn & ->).
    apply id_lt_de_numero. lia.
Qed.

Lemma assert_hecho_monotono_witness :
  ∃ ids m',
    assert_hechos_print consola_cpython llamadas_sin_linea memoria_ejemplo
      = Devuelve (zip_with (respuesta_de consola_cpython) llamadas_sin_linea ids,
                  m') ∧
    MemoriaTrabajo_ok m' ∧
    length ids = length llamadas_sin_linea ∧
    size (_hechos m')
      = (size (_hechos memoria_ejemplo) + length llamadas_sin_linea)%nat ∧
    (∀ hid h, _hechos memoria_ejemplo !! hid = Some h → _hechos m' !! hid = Some h) ∧
    (∀ hid, hid ∈ ids →
       _hechos memoria_ejemplo !! hid = None ∧ is_Some (_hechos m' !! hid)) ∧
    NoDup ids ∧
    StronglySorted id_lt ids ∧
    (∀ hid hid', is_Some (_hechos memoria_ejemplo !! hid) → hid' ∈ ids →
                 id_lt hid hid').
Proof.
  exact (assert_hecho_monotono consola_cpython llamadas_sin_linea memoria_ejemplo
           memoria_ejemplo_ok).
Defined.

Lemma consola_cpython_digitos ty p :
  print_hecho consola_cpython ty p (PyInt (10 ^ 4300)) = Some ValueError.
Proof. vm_compute. reflexivity. Qed.

(** C7 as stated fails: under CPython with its default limit, the call for
    the integer [10 ** 4300], of 4301 digits, files the fact and then raises
    [ValueError] where it formats the value for its line of output. *)
Lemma assert_hecho_lanza_al_imprimir : ¬ siempre_retorna consola_cpython.
Proof.
  intros H.
  destruct (H 0 memoria_ejemplo "edad" (PyInt (10 ^ 4300)) INICIAL None
              EmptyString 1%Q memoria_ejemplo_ok) as (hid & m' & Heq).
  unfold assert_hecho_print in Heq.
  rewrite consola_cpython_digitos in Heq.
  destruct (assert_hecho _ _ _ _ _ _ _ _) as [[hid1 m1]| |];
    cbn [res_ligar] in Heq; [|discriminate..].
  injection Heq as Hr _. discriminate Hr.
Qed.

(** The run on which the second of three calls raises: the three facts are
    filed under F0002, F0003 and F0004, and the caller is given F0002, the
    exception and F0004. *)
Example assert_hechos_print_ejemplo :
  match assert_hechos_print consola_cpython llamadas_sin_linea memoria_ejemplo with
  | Devuelve (respuestas, m') =>
      (respuestas, size (_hechos m'),
       Hecho.predicado <$> _hechos m' !! "F0003")
      = ([Devuelve "F0002"; Lanza ValueError; Devuelve "F0004"], 4%nat,
         Some "temperatura")
  | _ => False
  end.
Proof. vm_compute. reflexivity. Qed.

(** C10: [assert_hecho] looks at no bound of the confidence: on a store that
    satisfies its invariant the call returns for every rational [c], inside
    [0, 1] or not, and the fact it files under the identifier returned has
    confidence [c]. *)
Theorem assert_hecho_confianza_sin_validar t m p v ty o j (c : Q) :
  MemoriaTrabajo_ok m →
  ∃ hid m' h,
    assert_hecho t m p v ty o j c = Devuelve (hid, m') ∧
    _hechos m' !! hid = Some h ∧
    Hecho.confianza h = c.
Proof.
  intros Hok.
  destruct (assert_hecho_spec t m p v ty o j c Hok)
    as (m' & Heq & Hhechos & _ & _ & _).
  eexists _, m', _. split; [exact Heq|]. split.
  - rewrite Hhechos. apply lookup_insert_eq.
  - reflexivity.
Qed.

Lemma assert_hecho_confianza_sin_validar_witness :
  ∃ hid m' h,
    assert_hecho 3 memoria_ejemplo "apto" (PyBool true) DERIVADO (Some "R1")
                 "por edad" (-5 # 2)%Q = Devuelve (hid, m') ∧
    _hechos m' !! hid = Some h ∧
    Hecho.confianza h = (-5 # 2)%Q.
Proof.
  exact (assert_hecho_confianza_sin_validar 3 memoria_ejemplo "apto" (PyBool true)
           DERIVADO (Some "R1") "por edad" (-5 # 2)%Q memoria_ejemplo_ok).
Defined.

(** ** Conflict resolution *)

Lemma elem_of_candidatos_desde l : ∀ k j r,
  (j, r) ∈ candidatos_desde k l ↔
  ∃ n, j = (k + n)%nat ∧ l !! n = Some r ∧ ReglaInstanciada.ya_ejecutada r = false.
Proof.
  induction l as [|x l IH]; intros k j r; simpl.
  - split; [intros H; by apply elem_of_nil in H|].
    intros (n & _ & Hn & _). by rewrite lookup_nil in Hn.
  - assert (Hresto : (j, r) ∈ candidatos_desde (S k) l ↔
      ∃ n, j = (k + S n)%nat ∧ l !! n = Some r ∧
           ReglaInstanciada.ya_ejecutada r = false).
    { rewrite IH. split; intros (n & Hj & Hn); exists n; (split; [lia|done]). }
    destruct (ReglaInstanciada.ya_ejecutada x) eqn:Hx.
    + rewrite Hresto. split.
      * intros (n & Hj & Hn). exists (S n). done.
      * intros ([|n] & Hj & Hn & Hr); [|by exists n].
        simpl in Hn. injection Hn as ->. congruence.
    + rewrite elem_of_cons, Hresto. split.
      * intros [[= -> ->]|(n & Hj & Hn)].
        -- exists 0%nat. split; [lia|done].
        -- by exists (S n).
      * intros ([|n] & Hj & Hn & Hr).
        -- left. simpl in Hn. injection Hn as ->. f_equal. lia.
        -- right. by exists n.
Qed.

Lemma candidatos_desde_ordenados l : ∀ k,
  StronglySorted (λ a b : nat * ReglaInstanciada.t, (a.1 < b.1)%nat)
                 (candidatos_desde k l).
Proof.
  induction l as [|x l IH]; intros k; simpl; [constructor|].
  destruct (ReglaInstanciada.ya_ejecutada x); [apply IH|].
  constructor; [apply IH|]. apply Forall_forall. intros [j r] Hin.
  apply elem_of_candidatos_desde in Hin as (n & -> & _). simpl. lia.
Qed.

Section seleccion.
Context {K : Type} (gt : K → K → bool) `{!OrdenClaves gt}.
Context (key : ReglaInstanciada.t → K).

Lemma py_max_candidatos l :
  candidatos l ≠ [] →
  ∃ i r,
    py_max gt (λ ir : nat * ReglaInstanciada.t, key ir.2) (candidatos l)
      = Devuelve (i, r) ∧
    l !! i = Some r ∧ ReglaInstanciada.ya_ejecutada r = false ∧
    ∀ j r', l !! j = Some r' → ReglaInstanciada.ya_ejecutada r' = false →
      gt (key r') (key r) = false ∧ ((j < i)%nat → gt (key r) (key r') = true).
Proof.
  intros Hne.
  destruct (py_max_spec gt (λ ir : nat * ReglaInstanciada.t, key ir.2)
              (candidatos l) Hne) as ([i r] & l1 & l2 & Hmax & Hl & Hl1 & Hall).
  exists i, r. split; [done|].
  assert (Hin : (i, r) ∈ candidatos l).
  { rewrite Hl. apply elem_of_app. right. left. }
  apply elem_of_candidatos_desde in Hin as (n & -> & Hn & Hr). simpl.
  split; [done|]. split; [done|].
  intros j r' Hj Hr'.
  assert (Hin' : (j, r') ∈ candidatos l).
  { apply elem_of_candidatos_desde. exists j. done. }
  split; [by apply (Hall _ Hin')|].
  intros Hji. pose proof (candidatos_desde_ordenados l 0) as Hsort.
  fold (candidatos l) in Hsort. rewrite Hl in Hsort, Hin'.
  apply elem_of_app in Hin' as [Hin'|Hin']; [by apply (Hl1 _ Hin')|].
  apply elem_of_cons in Hin' as [[= -> ->]|Hin']; [lia|].
  apply StronglySorted_app_1_r, StronglySorted_cons in Hsort as [Hsort _].
  rewrite Forall_forall in Hsort. apply Hsort in Hin'. simpl in Hin'. lia.
Qed.

End seleccion.

Lemma seleccionar_proxima_regla_spec ag :
  match seleccionar_proxima_regla ag with
  | Devuelve None =>
      ∀ r, r ∈ _reglas_instanciadas ag → ReglaInstanciada.ya_ejecutada r = true
  | Devuelve (Some (i, r)) =>
      _reglas_instanciadas ag !! i = Some r ∧
      ReglaInstanciada.ya_ejecutada r = false ∧
      ∀ j r', _reglas_instanciadas ag !! j = Some r' →
              ReglaInstanciada.ya_ejecutada r' = false →
        clave_menor_igual (_estrategia ag) r' r ∧
        ((j < i)%nat → clave_menor (_estrategia ag) r' r)
  | _ => False
  end.
Proof.
  unfold seleccionar_proxima_regla.
  destruct (candidatos (_reglas_instanciadas ag)) as [|c cs] eqn:Hcs.
  - intros r Hin. destruct (ReglaInstanciada.ya_ejecutada r) eqn:Hr; [done|].
    apply list_elem_of_lookup in Hin as [n Hn].
    assert (Hc : (n, r) ∈ candidatos (_reglas_instanciadas ag)).
    { apply elem_of_candidatos_desde. by exists n. }
    rewrite Hcs in Hc. by apply elem_of_nil in Hc.
  - rewrite <- Hcs.
    assert (Hne : candidatos (_reglas_instanciadas ag) ≠ []) by (by rewrite Hcs).
    destruct (_estrategia ag); simpl.
    + destruct (py_max_candidatos Z.gtb ReglaInstanciada.especificidad _ Hne)
        as (i & r & -> & Hi & Hr & Hmax). simpl.
      split; [done|]. split; [done|]. intros j r' Hj Hr'.
      destruct (Hmax j r' Hj Hr') as [Hle Hlt]. split; [lia|].
      intros Hji. specialize (Hlt Hji). lia.
    + destruct (py_max_candidatos Z.gtb ReglaInstanciada.timestamp_activacion _ Hne)
        as (i & r & -> & Hi & Hr & Hmax). simpl.
      split; [done|]. split; [done|]. intros j r' Hj Hr'.
      destruct (Hmax j r' Hj Hr') as [Hle Hlt]. split; [lia|].
      intros Hji. specialize (Hlt Hji). lia.
    + destruct (py_max_candidatos Qgtb ReglaInstanciada.prioridad_explicita _ Hne)
        as (i & r & -> & Hi & Hr & Hmax). simpl.
      split; [done|]. split; [done|]. intros j r' Hj Hr'.
      destruct (Hmax j r' Hj Hr') as [Hle Hlt]. split; [by apply Qgtb_false|].
      intros Hji. by apply Qgtb_true, Hlt.
Qed.

(** C5: [seleccionar_proxima_regla] raises nothing.  It returns [None]
    exactly when every activation is executed; otherwise it returns an
    activation of the agenda that is not executed, whose key under the
    strategy (specificity, activation timestamp, explicit priority) no other
    activation that is not executed exceeds, and every such activation
    inserted before it has a strictly smaller key: among equal maxima the
    first inserted wins.  The result depends on the list of activations and
    the strategy alone. *)
Theorem seleccionar_proxima_regla_maxima ag :
  match seleccionar_proxima_regla ag with
  | Devuelve None =>
      ∀ r, r ∈ _reglas_instanciadas ag → ReglaInstanciada.ya_ejecutada r = true
  | Devuelve (Some (i, r)) =>
      _reglas_instanciadas ag !! i = Some r ∧
      ReglaInstanciada.ya_ejecutada r = false ∧
      ∀ j r', _reglas_instanciadas ag !! j = Some r' →
              ReglaInstanciada.ya_ejecutada r' = false →
        clave_menor_igual (_estrategia ag) r' r ∧
        ((j < i)%nat → clave_menor (_estrategia ag) r' r)
  | _ => False
  end ∧
  ((seleccionar_proxima_regla ag = Devuelve None) ↔
   (∀ r, r ∈ _reglas_instanciadas ag → ReglaInstanciada.ya_ejecutada r = true)) ∧
  ∀ ag', _reglas_instanciadas ag' = _reglas_instanciadas ag →
         _estrategia ag' = _estrategia ag →
         seleccionar_proxima_regla ag' = seleccionar_proxima_regla ag.
Proof.
  pose proof (seleccionar_proxima_regla_spec ag) as Hprimero.
  split; [exact Hprimero|]. split.
  - split.
    + intros Heq. by rewrite Heq in Hprimero.
    + intros Htodas.
      destruct (seleccionar_proxima_regla ag) as [[[i r]|]| |]; try done.
      destruct Hprimero as (Hi & Hr & _).
      apply list_elem_of_lookup_2, Htodas in Hi. congruence.
  - intros ag' Hl He. unfold seleccionar_proxima_regla. by rewrite Hl, He.
Qed.

(** ** Executing actions *)

Lemma mismo_motor_refl s : mismo_motor s s.
Proof. by repeat split. Qed.

Lemma mismo_motor_trans s1 s2 s3 :
  mismo_motor s1 s2 → mismo_motor s2 s3 → mismo_motor s1 s3.
Proof. unfold mismo_motor. intros (?&?&?) (?&?&?). repeat split; congruence. Qed.

Lemma valor_resuelto_codigo bindings v :
  valor_resuelto bindings v
    match v with
    | PyStr (String c nombre) =>
        if Ascii.eqb c "$" then default v (bindings !! nombre) else v
    | _ => v
    end.
Proof.
  destruct v as [| | |[|c nombre]|]; try (constructor; intros; discriminate).
  destruct (Ascii.eqb c "$") eqn:Hc.
  - apply Ascii.eqb_eq in Hc as ->.
    destruct (bindings !! nombre) as [x|] eqn:Hx; simpl;
      [by apply vr_ligada | by apply vr_libre].
  - apply vr_literal. intros n [= -> _]. by rewrite Ascii.eqb_refl in Hc.
Qed.

Lemma assert_hecho_M_spec E p v ty o j c s :
  MemoriaTrabajo_ok (memoria s) →
  let hid := id_de_numero (_contador_hechos (memoria s) + 1) in
  ∃ s', assert_hecho_M E p v ty o j c s = Devuelve (hid, s') ∧
        agenda s' = agenda s ∧ mismo_motor s s' ∧
        MemoriaTrabajo_ok (memoria s') ∧
        _hechos (memoria s') =
          <[hid := Hecho.mk hid p v ty o (reloj E (lecturas s)) j c]>
            (_hechos (memoria s)) ∧
        _hechos (memoria s) !! hid = None.
Proof.
  intros Hok hid.
  destruct (assert_hecho_spec (reloj E (lecturas s)) (memoria s) p v ty o j c Hok)
    as (m' & Heq & Hhechos & Hlibre & _ & Hok').
  unfold assert_hecho_M. desplegar_M. rewrite Heq. simpl.
  eexists. split; [reflexivity|]. simpl.
  split; [done|]. split; [by repeat split|]. done.
Qed.

Lemma ejecutar_accion_crea E regla bindings a creados s :
  MemoriaTrabajo_ok (memoria s) →
  crea_hecho (AccionRegla.tipo a) = true →
  ∃ hid s',
    ejecutar_accion E regla bindings a creados s = Devuelve (creados ++ [hid], s') ∧
    agenda s' = agenda s ∧ mismo_motor s s' ∧
    MemoriaTrabajo_ok (memoria s') ∧
    (∀ hid' h, _hechos (memoria s) !! hid' = Some h →
               _hechos (memoria s') !! hid' = Some h) ∧
    dom (_hechos (memoria s')) = dom (_hechos (memoria s)) ∪ {[hid]} ∧
    hecho_creado_por regla bindings s s' a hid.
Proof.
  intros Hok Hcrea. unfold ejecutar_accion.
  set (valor_accion := match AccionRegla.valor a with
                       | PyStr (String c nombre) => _ | _ => _ end).
  pose proof (valor_resuelto_codigo bindings (AccionRegla.valor a)) as Hval.
  fold valor_accion in Hval.
  destruct (assert_hecho_M_spec E (AccionRegla.predicado a) valor_accion
              (tipo_creado (AccionRegla.tipo a))
              (Some (ReglaProduccionAcademica.id regla))
              (AccionRegla.explicacion a) (AccionRegla.confianza a) s Hok)
    as (s' & Heq & Hag & Hmot & Hok' & Hhechos & Hlibre).
  eexists _, s'. split.
  { destruct (AccionRegla.tipo a); try discriminate Hcrea;
      simpl in Heq; unfold M_ligar at 1; rewrite Heq; reflexivity. }
  split; [done|]. split; [done|]. split; [done|]. split.
  { intros hid' h Hh. rewrite Hhechos, lookup_insert_ne; [done|].
    intros <-. congruence. }
  split.
  { by rewrite Hhechos, dom_insert_L, (comm_L (∪)). }
  eexists. split; [rewrite Hhechos; apply lookup_insert_eq|]. simpl.
  split; [done|]. split; [done|]. split; [done|]. split; [exact Hval|].
  by repeat split.
Qed.

Lemma ejecutar_accion_omite E regla bindings a creados s :
  crea_hecho (AccionRegla.tipo a) = false →
  ejecutar_accion E regla bindings a creados s = Devuelve (creados, s).
Proof.
  intros Hcrea. unfold ejecutar_accion.
  by destruct (AccionRegla.tipo a); try discriminate Hcrea.
Qed.

Lemma ejecutar_resto_spec E regla bindings acciones : ∀ creados s,
  MemoriaTrabajo_ok (memoria s) →
  ∃ ids s',
    ejecutar_resto E regla bindings acciones creados s
      = Devuelve (creados ++ ids, s') ∧
    agenda s' = agenda s ∧ mismo_motor s s' ∧
    MemoriaTrabajo_ok (memoria s') ∧
    (∀ hid h, _hechos (memoria s) !! hid = Some h →
              _hechos (memoria s') !! hid = Some h) ∧
    dom (_hechos (memoria s')) = dom (_hechos (memoria s)) ∪ list_to_set ids ∧
    NoDup ids ∧
    Forall2 (hecho_creado_por regla bindings s s')
            (List.filter (λ a, crea_hecho (AccionRegla.tipo a)) acciones) ids.
Proof.
  induction acciones as [|a acciones IH]; intros creados s Hok.
  - exists [], s. simpl. rewrite app_nil_r.
    split; [done|]. split; [done|]. split; [apply mismo_motor_refl|].
    split; [done|]. split; [done|]. split; [set_solver|].
    split; constructor.
  - change (ejecutar_resto E regla bindings (a :: acciones) creados s)
      with (M_ligar (ejecutar_accion E regla bindings a creados)
              (ejecutar_resto E regla bindings acciones) s).
    unfold M_ligar. simpl List.filter.
    destruct (crea_hecho (AccionRegla.tipo a)) eqn:Hcrea.
    + destruct (ejecutar_accion_crea E regla bindings a creados s Hok Hcrea)
        as (hid & s1 & Heq & Hag1 & Hmot1 & Hok1 & Hpres1 & Hdom1 & Hcreado).
      destruct (IH (creados ++ [hid]) s1 Hok1)
        as (ids & s' & Hresto & Hag & Hmot & Hok' & Hpres & Hdom & Hnodup & HF).
      exists (hid :: ids), s'.
      split.
      { rewrite Heq, Hresto. by rewrite <- app_assoc. }
      split; [congruence|]. split; [by eapply mismo_motor_trans|].
      split; [done|]. split; [auto|]. split.
      { rewrite Hdom, Hdom1. set_solver. }
      assert (Hlibre : ∀ hid', _hechos (memoria s1) !! hid' = None →
                               _hechos (memoria s) !! hid' = None).
      { intros hid' Hn. destruct (_hechos (memoria s) !! hid') eqn:Hh; [|done].
        apply Hpres1 in Hh. congruence. }
      split.
      { constructor; [|done]. intros Hin.
        assert (Hen : hid ∈ dom (_hechos (memoria s1))) by set_solver.
        apply elem_of_dom in Hen as [h Hh].
        apply list_elem_of_lookup in Hin as [i Hi].
        destruct (Forall2_lookup_r _ _ _ _ _ HF Hi) as (a' & _ & h' & _ & Hn & _).
        congruence. }
      constructor.
      * destruct Hcreado as (h & Hh & Hrest). exists h. split; [auto|done].
      * eapply Forall2_impl; [exact HF|]. simpl.
        intros a' hid' (h & Hh & Hn & Hrest). exists h. auto.
    + rewrite (ejecutar_accion_omite E regla bindings a creados s Hcrea).
      by apply IH.
Qed.



(** ** The phases of a cycle *)

Lemma fase_match_spec E reglas : ∀ s,
  MemoriaTrabajo_ok (memoria s) →
  ∃ s' nuevas,
    fase_match E reglas s = Devuelve (tt, s') ∧
    memoria s' = memoria s ∧ mismo_motor s s' ∧
    _reglas_instanciadas (agenda s') = _reglas_instanciadas (agenda s) ++ nuevas ∧
    _estrategia (agenda s') = _estrategia (agenda s) ∧
    _historial_ejecucion (agenda s') = _historial_ejecucion (agenda s) ∧
    ∀ regla b, regla ∈ reglas →
      evaluar_regla E (memoria s) regla = Devuelve (Some b) →
      ∃ a, a ∈ nuevas ∧
           ReglaInstanciada.regla_id a = ReglaProduccionAcademica.id regla ∧
           ReglaInstanciada.bindings a = b ∧
           ReglaInstanciada.hechos_activadores a = [] ∧
           ReglaInstanciada.especificidad a
             = ReglaProduccionAcademica.especificidad regla ∧
           ReglaInstanciada.prioridad_explicita a
             = ReglaProduccionAcademica.prioridad regla ∧
           ReglaInstanciada.ya_ejecutada a = false.
Proof.
  induction reglas as [|regla reglas IH]; intros s Hok.
  - exists s, []. simpl. rewrite app_nil_r.
    split; [done|]. split; [done|]. split; [apply mismo_motor_refl|].
    split; [done|]. split; [done|]. split; [done|].
    intros regla b Hin. by apply elem_of_nil in Hin.
  - destruct (evaluar_regla_devuelve E (memoria s) regla Hok) as [ob Hob].
    simpl. desplegar_M. rewrite Hob. simpl.
    destruct ob as [b0|].
    + unfold activar_regla_M. desplegar_M.
      match goal with
      | |- context [fase_match E reglas ?s1] =>
          destruct (IH s1 Hok)
            as (s' & nuevas & Heq & Hmem & Hmot & Hl & He & Hh & Hact)
      end.
      simpl in *. rewrite Heq.
      eexists s', (_ :: nuevas). split; [done|]. split; [done|].
      split; [done|]. split; [by rewrite Hl, <- app_assoc|].
      split; [done|]. split; [done|].
      intros regla' b Hin Hb. apply elem_of_cons in Hin as [->|Hin].
      * eexists. split; [left|]. simpl.
        repeat split. congruence.
      * destruct (Hact regla' b Hin Hb) as (a & Ha & Hrest).
        exists a. split; [by right|done].
    + destruct (IH s Hok)
        as (s' & nuevas & Heq & Hmem & Hmot & Hl & He & Hh & Hact).
      match goal with
      | |- context [fase_match E reglas ?s1] =>
          replace s1 with s by (by destruct s)
      end.
      rewrite Heq. exists s', nuevas.
      split; [done|]. split; [done|]. split; [done|]. split; [done|].
      split; [done|]. split; [done|].
      intros regla' b Hin Hb. apply elem_of_cons in Hin as [->|Hin]; [|eauto].
      congruence.
Qed.

(** The knowledge base of the repository finds by id every rule it lists,
    so that with it no activation names a rule that is absent. *)
Lemma base_de_reglas_encuentra reglas regla :
  regla ∈ reglas →
  is_Some (obtener_regla_por_id (base_de_reglas reglas)
             (ReglaProduccionAcademica.id regla)).
Proof.
  simpl.
  assert (Hgen : ∀ (d : gmap string ReglaProduccionAcademica.t),
    regla ∈ reglas ∨ is_Some (d !! ReglaProduccionAcademica.id regla) →
    is_Some (foldl (λ d r, <[ReglaProduccionAcademica.id r := r]> d) d reglas
               !! ReglaProduccionAcademica.id regla)).
  { induction reglas as [|r reglas IH]; intros d [Hin|Hd]; simpl.
    - by apply elem_of_nil in Hin.
    - done.
    - apply IH. apply elem_of_cons in Hin as [->|Hin]; [|by left].
      right. rewrite lookup_insert_eq. eauto.
    - apply IH. right. rewrite lookup_insert.
      case_decide; [eauto|done]. }
  intros Hin. apply Hgen. by left.
Qed.

Lemma M_ligar_devuelve {A B : Type} (c : M A) (f : A → M B) s a s' :
  c s = Devuelve (a, s') → M_ligar c f s = f a s'.
Proof. intros H. unfold M_ligar. by rewrite H. Qed.

Lemma elevar_devuelve {A : Type} (r : res A) a s :
  r = Devuelve a → elevar r s = Devuelve (a, s).
Proof. by intros ->. Qed.

Lemma fase_match_marco E reglas : ∀ s u s',
  fase_match E reglas s = Devuelve (u, s') →
  memoria s' = memoria s ∧
  _historial_ejecucion (agenda s') = _historial_ejecucion (agenda s).
Proof.
  induction reglas as [|regla reglas IH]; intros s u s' Heq.
  - injection Heq as _ <-. done.
  - simpl in Heq. unfold M_ligar at 1 in Heq. simpl in Heq.
    unfold M_ligar at 1, elevar, res_map, res_ligar in Heq.
    destruct (evaluar_regla E (memoria s) regla) as [[b|]| |]; try discriminate Heq.
    + unfold M_ligar at 1 in Heq. simpl in Heq. by apply IH in Heq.
    + unfold M_ligar at 1 in Heq. simpl in Heq. by apply IH in Heq.
Qed.

(** C4, as the code has it: when the activation selected names a rule the
    knowledge base does not find, the cycle raises nothing and does not
    break the loop; it ends in the state the MATCH phase left, so the store
    is the one the cycle began with, no activation is marked and the history
    is unchanged.  The activation stays in the agenda, not executed, and
    open to selection in the cycles that follow. *)
Theorem activacion_huerfana_se_omite E kb s s1 ref inst :
  fase_match E (obtener_reglas kb) (con_ciclos (ciclos_ejecutados s + 1) s)
    = Devuelve (tt, s1) →
  seleccionar_proxima_regla (agenda s1) = Devuelve (Some (ref, inst)) →
  obtener_regla_por_id kb (ReglaInstanciada.regla_id inst) = None →
  ciclo E kb s = Devuelve (true, s1) ∧
  memoria s1 = memoria s ∧
  _historial_ejecucion (agenda s1) = _historial_ejecucion (agenda s) ∧
  _reglas_instanciadas (agenda s1) !! ref = Some inst ∧
  ReglaInstanciada.ya_ejecutada inst = false.
Proof.
  intros Hmatch Hsel Hid. split; [|split; [|split]].
  - unfold ciclo.
    rewrite (M_ligar_devuelve
               (modificar (λ s, con_ciclos (ciclos_ejecutados s + 1) s)) _ s tt
               (con_ciclos (ciclos_ejecutados s + 1) s) eq_refl).
    rewrite (M_ligar_devuelve _ _ _ _ _ Hmatch).
    rewrite (M_ligar_devuelve leer _ s1 s1 s1 eq_refl).
    rewrite (M_ligar_devuelve _ _ _ _ _ (elevar_devuelve _ _ s1 Hsel)).
    unfold fase_act. rewrite Hid. reflexivity.
  - by apply fase_match_marco in Hmatch as [-> _].
  - by apply fase_match_marco in Hmatch as [_ ->].
  - pose proof (seleccionar_proxima_regla_spec (agenda s1)) as Hspec.
    rewrite Hsel in Hspec. by destruct Hspec as (? & ? & _).
Qed.

Lemma activacion_huerfana_se_omite_witness :
  ∃ s1 ref inst,
    ciclo entorno_simple kb_huerfana (Sesion_init ESPECIFICIDAD 10)
      = Devuelve (true, s1) ∧
    memoria s1 = memoria (Sesion_init ESPECIFICIDAD 10) ∧
    _historial_ejecucion (agenda s1)
      = _historial_ejecucion (agenda (Sesion_init ESPECIFICIDAD 10)) ∧
    _reglas_instanciadas (agenda s1) !! ref = Some inst ∧
    ReglaInstanciada.ya_ejecutada inst = false.
Proof.
  eexists _, _, _.
  apply (activacion_huerfana_se_omite entorno_simple kb_huerfana
           (Sesion_init ESPECIFICIDAD 10)).
  - vm_compute. reflexivity.
  - vm_compute. reflexivity.
  - reflexivity.
Defined.

(** C4 as stated fails: the rule base lists a rule without conditions that
    its lookup by id does not find; the first cycle selects activation 0 and
    skips it, and the second cycle selects activation 0 again. *)
Lemma activacion_huerfana_se_reintenta :
  ¬ sin_reintento entorno_simple kb_huerfana (Sesion_init ESPECIFICIDAD 10).
Proof.
  intros H.
  eapply (H _ 0%nat _ _ ltac:(vm_compute; reflexivity)
            ltac:(vm_compute; reflexivity) eq_refl
            ltac:(vm_compute; reflexivity) _ 0%nat _
            ltac:(vm_compute; reflexivity)
            ltac:(vm_compute; reflexivity)).
  reflexivity.
Qed.

(** ** The loop *)

Lemma ciclo_spec E kb s :
  MemoriaTrabajo_ok (memoria s) →
  ∃ sigue s',
    ciclo E kb s = Devuelve (sigue, s') ∧
    MemoriaTrabajo_ok (memoria s') ∧
    max_ciclos s' = max_ciclos s ∧
    ciclos_ejecutados s' = ciclos_ejecutados s + 1 ∧
    (sigue = false → razon_terminacion s' = AgendaVacia ∧
                     esta_vacia (agenda s') = true) ∧
    ∃ s1, fase_match E (obtener_reglas kb)
            (con_ciclos (ciclos_ejecutados s + 1) s) = Devuelve (tt, s1) ∧
          ∀ i a, _reglas_instanciadas (agenda s1) !! i = Some a →
            ∃ a', _reglas_instanciadas (agenda s') !! i = Some a' ∧
                  ReglaInstanciada.regla_id a' = ReglaInstanciada.regla_id a ∧
                  ReglaInstanciada.bindings a' = ReglaInstanciada.bindings a.
Proof.
  intros Hok. unfold ciclo.
  rewrite (M_ligar_devuelve
             (modificar (λ s, con_ciclos (ciclos_ejecutados s + 1) s)) _ s tt
             (con_ciclos (ciclos_ejecutados s + 1) s) eq_refl).
  destruct (fase_match_spec E (obtener_reglas kb)
              (con_ciclos (ciclos_ejecutados s + 1) s) Hok)
    as (s1 & nuevas & Hmatch & Hmem & (Hmax & Hcic & Hraz) & _).
  rewrite (M_ligar_devuelve _ _ _ _ _ Hmatch).
  rewrite (M_ligar_devuelve leer _ s1 s1 s1 eq_refl).
  simpl in Hmem, Hmax, Hcic.
  pose proof (seleccionar_proxima_regla_spec (agenda s1)) as Hspec.
  destruct (seleccionar_proxima_regla (agenda s1)) as [[[ref inst]|]| |] eqn:Hsel;
    try done;
    rewrite (M_ligar_devuelve _ _ _ _ _ (elevar_devuelve _ _ s1 eq_refl)).
  - unfold fase_act.
    destruct (obtener_regla_por_id kb (ReglaInstanciada.regla_id inst)) as [regla|].
    + assert (Hok1 : MemoriaTrabajo_ok (memoria s1)) by (by rewrite Hmem).
      destruct (ejecutar_resto_spec E regla (ReglaInstanciada.bindings inst)
                  (ReglaProduccionAcademica.acciones regla) [] s1 Hok1)
        as (ids & s2 & Heq & Hag2 & (Hmax2 & Hcic2 & _) & Hok2 & _).
      unfold ejecutar_acciones.
      rewrite (M_ligar_devuelve _ _ _ _ _
                 (M_ligar_devuelve _ _ _ _ _ Heq)).
      exists true. eexists. split; [reflexivity|]. simpl.
      split; [done|]. split; [congruence|]. split; [congruence|].
      split; [done|]. exists s1. split; [done|].
      intros i a Hi. rewrite Hag2.
      destruct (decide (ref = i)) as [->|Hne].
      * exists (ReglaInstanciada.con_ya_ejecutada true a).
        by rewrite list_lookup_alter_eq, Hi.
      * exists a. by rewrite list_lookup_alter_ne.
    + exists true, s1. split; [reflexivity|].
      split; [by rewrite Hmem|]. split; [done|]. split; [done|].
      split; [done|]. exists s1. split; [done|]. eauto.
  - exists false. eexists. split; [reflexivity|]. simpl.
    split; [by rewrite Hmem|]. split; [done|]. split; [done|]. split.
    + intros _. split; [done|].
      unfold esta_vacia. apply forallb_forall. intros r Hin.
      apply Hspec. by apply list_elem_of_In.
    + exists s1. split; [done|]. eauto.
Qed.

(** C9: a rule without conditions matches on every store, the bindings it
    returns being empty; so every MATCH phase over a knowledge base that
    lists the rule, on a store that satisfies its invariant, appends an
    activation of it, not executed and with empty bindings, and every cycle
    of the loop, which opens with that phase, ends with the new activation
    of the rule in the agenda. *)
Theorem regla_sin_condiciones_siempre_activa E kb regla s :
  ReglaProduccionAcademica.condiciones regla = [] →
  regla ∈ obtener_reglas kb →
  MemoriaTrabajo_ok (memoria s) →
  (∀ m, evaluar_regla E m regla = Devuelve (Some ∅)) ∧
  (∃ s' nuevas a,
     fase_match E (obtener_reglas kb) s = Devuelve (tt, s') ∧
     _reglas_instanciadas (agenda s') = _reglas_instanciadas (agenda s) ++ nuevas ∧
     a ∈ nuevas ∧
     ReglaInstanciada.regla_id a = ReglaProduccionAcademica.id regla ∧
     ReglaInstanciada.bindings a = ∅ ∧
     ReglaInstanciada.ya_ejecutada a = false) ∧
  ∃ sigue s' i a,
    ciclo E kb s = Devuelve (sigue, s') ∧
    (length (_reglas_instanciadas (agenda s)) ≤ i)%nat ∧
    _reglas_instanciadas (agenda s') !! i = Some a ∧
    ReglaInstanciada.regla_id a = ReglaProduccionAcademica.id regla ∧
    ReglaInstanciada.bindings a = ∅.
Proof.
  intros Hcond Hin Hok.
  assert (Heval : ∀ m, evaluar_regla E m regla = Devuelve (Some ∅)).
  { intros m. unfold evaluar_regla. by rewrite Hcond. }
  split; [exact Heval|]. split.
  - destruct (fase_match_spec E (obtener_reglas kb) s Hok)
      as (s' & nuevas & Heq & _ & _ & Hl & _ & _ & Hact).
    destruct (Hact regla ∅ Hin (Heval _)) as (a & Ha & Hid & Hb & _ & _ & _ & Hej).
    by exists s', nuevas, a.
  - destruct (ciclo_spec E kb s Hok)
      as (sigue & s' & Hciclo & _ & _ & _ & _ & s1 & Hmatch & Hquedan).
    destruct (fase_match_spec E (obtener_reglas kb)
                (con_ciclos (ciclos_ejecutados s + 1) s) Hok)
      as (s1' & nuevas & Heq & _ & _ & Hl & _ & _ & Hact).
    assert (s1' = s1) as -> by congruence.
    destruct (Hact regla ∅ Hin (Heval _)) as (a & Ha & Hid & Hb & _).
    apply list_elem_of_lookup in Ha as [n Hn].
    destruct (Hquedan (length (_reglas_instanciadas (agenda s)) + n)%nat a)
      as (a' & Ha' & Hid' & Hb').
    { rewrite Hl. simpl. by rewrite lookup_app_r, Nat.add_comm, Nat.add_sub by lia. }
    exists sigue, s', (length (_reglas_instanciadas (agenda s)) + n)%nat, a'.
    split; [done|]. split; [lia|]. split; [done|]. split; congruence.
Qed.

Lemma regla_sin_condiciones_siempre_activa_witness :
  (∀ m, evaluar_regla entorno_simple m
          (regla_ejemplo [accion_ejemplo ASSERT (PyBool true)])
        = Devuelve (Some ∅)) ∧
  (∃ s' nuevas a,
     fase_match entorno_simple (obtener_reglas kb_ejemplo) sesion_ejemplo
       = Devuelve (tt, s') ∧
     _reglas_instanciadas (agenda s')
       = _reglas_instanciadas (agenda sesion_ejemplo) ++ nuevas ∧
     a ∈ nuevas ∧
     ReglaInstanciada.regla_id a
       = ReglaProduccionAcademica.id
           (regla_ejemplo [accion_ejemplo ASSERT (PyBool true)]) ∧
     ReglaInstanciada.bindings a = ∅ ∧
     ReglaInstanciada.ya_ejecutada a = false) ∧
  ∃ sigue s' i a,
    ciclo entorno_simple kb_ejemplo sesion_ejemplo = Devuelve (sigue, s') ∧
    (length (_reglas_instanciadas (agenda sesion_ejemplo)) ≤ i)%nat ∧
    _reglas_instanciadas (agenda s') !! i = Some a ∧
    ReglaInstanciada.regla_id a
      = ReglaProduccionAcademica.id
          (regla_ejemplo [accion_ejemplo ASSERT (PyBool true)]) ∧
    ReglaInstanciada.bindings a = ∅.
Proof.
  apply (regla_sin_condiciones_siempre_activa entorno_simple kb_ejemplo
           (regla_ejemplo [accion_ejemplo ASSERT (PyBool true)]) sesion_ejemplo).
  - reflexivity.
  - left.
  - exact memoria_ejemplo_ok.
Defined.

Lemma bucle_eq E kb combustible :
  bucle E kb combustible =
  (s <- leer ;;
   if ciclos_ejecutados s <? max_ciclos s then
     match combustible with
     | O => λ _, SinCombustible
     | S combustible' =>
         sigue <- ciclo E kb ;;
         if sigue then bucle E kb combustible' else devolver tt
     end
   else devolver tt)%M.
Proof. by destruct combustible. Qed.

Lemma bucle_spec E kb : ∀ combustible s,
  MemoriaTrabajo_ok (memoria s) →
  max_ciclos s - ciclos_ejecutados s ≤ Z.of_nat combustible →
  ∃ s',
    bucle E kb combustible s = Devuelve (tt, s') ∧
    MemoriaTrabajo_ok (memoria s') ∧
    max_ciclos s' = max_ciclos s ∧
    ciclos_ejecutados s ≤ ciclos_ejecutados s' ∧
    (ciclos_ejecutados s ≤ max_ciclos s → ciclos_ejecutados s' ≤ max_ciclos s) ∧
    (ciclos_ejecutados s' < max_ciclos s →
       razon_terminacion s' = AgendaVacia ∧ esta_vacia (agenda s') = true).
Proof.
  induction combustible as [|f IH]; intros s Hok Hf; rewrite bucle_eq;
    rewrite (M_ligar_devuelve leer _ s s s eq_refl);
    destruct (ciclos_ejecutados s <? max_ciclos s) eqn:Hcond.
  - lia.
  - exists s. split; [done|]. split; [done|]. split; [done|].
    split; [lia|]. split; [done|]. lia.
  - destruct (ciclo_spec E kb s Hok)
      as (sigue & s1 & Hciclo & Hok1 & Hmax1 & Hcic1 & Hfin & _).
    rewrite (M_ligar_devuelve _ _ _ _ _ Hciclo).
    destruct sigue.
    + destruct (IH s1 Hok1) as (s' & Heq & Hok' & Hmax' & Hle & Hcota & Hraz);
        [lia|].
      rewrite Hmax1 in Hmax', Hcota, Hraz.
      exists s'. split; [done|]. split; [done|]. split; [done|].
      split; [lia|]. split; [intros _; apply Hcota; lia|]. done.
    + exists s1. split; [done|]. split; [done|]. split; [done|].
      split; [lia|]. split; [lia|]. intros _. by apply Hfin.
  - exists s. split; [done|]. split; [done|]. split; [done|].
    split; [lia|]. split; [done|]. lia.
Qed.

(** On a store that satisfies its invariant the engine raises nothing and
    its loop ends within [max_ciclos] cycles.  The reason it leaves is the
    cycle limit whenever the count of cycles has reached [max_ciclos], also
    when the last of those cycles left the loop on an empty agenda. *)
Theorem inferir_devuelve E kb s :
  MemoriaTrabajo_ok (memoria s) →
  ∃ s',
    inferir E kb s = Devuelve (tt, s') ∧
    MemoriaTrabajo_ok (memoria s') ∧
    max_ciclos s' = max_ciclos s ∧
    0 ≤ ciclos_ejecutados s' ∧
    (0 ≤ max_ciclos s → ciclos_ejecutados s' ≤ max_ciclos s) ∧
    razon_terminacion s' =
      (if max_ciclos s <=? ciclos_ejecutados s'
       then LimiteCiclos (max_ciclos s) else AgendaVacia).
Proof.
  intros Hok. unfold inferir.
  rewrite (M_ligar_devuelve (modificar (con_ciclos 0)) _ s tt
             (con_ciclos 0 s) eq_refl).
  rewrite (M_ligar_devuelve leer _ _ _ _ eq_refl).
  destruct (bucle_spec E kb (Z.to_nat (max_ciclos (con_ciclos 0 s)))
              (con_ciclos 0 s) Hok)
    as (s1 & Heq & Hok1 & Hmax1 & Hle & Hcota & Hraz); [simpl; lia|].
  simpl in Hmax1, Hle, Hcota, Hraz.
  rewrite (M_ligar_devuelve _ _ _ _ _ Heq).
  rewrite (M_ligar_devuelve leer _ _ _ _ eq_refl).
  rewrite Hmax1.
  destruct (max_ciclos s <=? ciclos_ejecutados s1) eqn:Hlim.
  - eexists. split; [reflexivity|]. simpl. rewrite Hlim.
    split; [done|]. split; [done|]. split; [done|]. split; [done|]. done.
  - exists s1. split; [reflexivity|]. rewrite Hlim.
    split; [done|]. split; [done|]. split; [done|]. split; [done|].
    apply Hraz. lia.
Qed.

(** ** The reason of termination *)

(** C3, at the input where the code departs from it: one cycle allowed, no
    rule, nothing in store or agenda.  The only cycle finds no activation to
    select and leaves the loop with the reason "agenda empty"; [inferir] then
    replaces that reason by the cycle limit, the count of cycles having
    reached [max_ciclos]. *)
Theorem inferir_ultimo_ciclo_informa_limite E estrategia :
  ∃ s1,
    ciclo E kb_vacia (con_ciclos 0 (Sesion_init estrategia 1))
      = Devuelve (false, s1) ∧
    seleccionar_proxima_regla (agenda s1) = Devuelve None ∧
    ciclos_ejecutados s1 = 1 ∧
    razon_terminacion s1 = AgendaVacia ∧
    inferir E kb_vacia (Sesion_init estrategia 1)
      = Devuelve (tt, con_razon (LimiteCiclos 1) s1).
Proof.
  eexists. split; [vm_compute; reflexivity|].
  split; [by destruct estrategia|]. split; [reflexivity|].
  split; reflexivity.
Qed.

(** ** The scenarios of the specification *)

(** With ten cycles allowed the two rules fire once each, the third cycle
    finds the agenda exhausted, and the one conclusion is the Sansevieria. *)
Example escenario_sansevieria :
  ∃ s h,
    consultar entorno_simple kb_sansevieria hechos_interior
              (Sesion_init PRIORIDAD_EXPLICITA 10) = Devuelve (tt, s) ∧
    ciclos_ejecutados s = 3 ∧
    razon_terminacion s = AgendaVacia ∧
    esta_vacia (agenda s) = true ∧
    _historial_ejecucion (agenda s) = [0%nat; 1%nat] ∧
    obtener_hechos_por_tipo entorno_simple (memoria s) CONCLUSION = Devuelve [h] ∧
    Hecho.predicado h = "planta_ideal" ∧
    Hecho.valor h = PyStr "Sansevieria" ∧
    Hecho.origen h = Some "R002_SANSEVIERIA".
Proof.
  eexists _, _. split; [vm_compute; reflexivity|].
  split; [vm_compute; reflexivity|]. split; [vm_compute; reflexivity|].
  split; [vm_compute; reflexivity|]. split; [vm_compute; reflexivity|].
  split; [vm_compute; reflexivity|]. split; [vm_compute; reflexivity|].
  split; vm_compute; reflexivity.
Qed.

(** With three cycles allowed the run is the same, fact for fact, and the
    reason reported is the cycle limit. *)
Example escenario_sansevieria_tres_ciclos :
  ∃ s,
    consultar entorno_simple kb_sansevieria hechos_interior
              (Sesion_init PRIORIDAD_EXPLICITA 3) = Devuelve (tt, s) ∧
    ciclos_ejecutados s = 3 ∧
    esta_vacia (agenda s) = true ∧
    razon_terminacion s = LimiteCiclos 3.
Proof.
  eexists. split; [vm_compute; reflexivity|].
  split; [vm_compute; reflexivity|]. split; vm_compute; reflexivity.
Qed.

(** * Further properties of the code *)

(** ** The store: writing and reading back *)

Lemma assert_hecho_forma t m p v ty o j c hid m' :
  MemoriaTrabajo_ok m →
  assert_hecho t m p v ty o j c = Devuelve (hid, m') →
  hid = id_de_numero (_contador_hechos m + 1) ∧
  MemoriaTrabajo_ok m' ∧
  _hechos m !! hid = None ∧
  _hechos m' = <[hid := Hecho.mk hid p v ty o t j c]> (_hechos m) ∧
  _indice_por_predicado m' =
    <[p := default ∅ (_indice_por_predicado m !! p) ∪ {[hid]}]>
      (_indice_por_predicado m) ∧
  _contador_hechos m' = (_contador_hechos m + 1)%N.
Proof.
  intros Hok Heq.
  destruct (assert_hecho_spec t m p v ty o j c Hok)
    as (m'' & Heq' & Hhechos & Hlibre & Hcont & Hok').
  assert (Heq2 := Heq). rewrite Heq' in Heq2. injection Heq2 as <- <-.
  split; [done|]. split; [done|]. split; [done|]. split; [done|].
  split; [|done].
  unfold assert_hecho, _generar_id_hecho in Heq'. simpl in Heq'.
  destruct (_indice_por_tipo m !! ty); [|discriminate Heq'].
  injection Heq' as <-. reflexivity.
Qed.

Lemma memoria_ejemplo_dos_ok : MemoriaTrabajo_ok memoria_ejemplo_dos.
Proof.
  destruct (assert_hecho_spec 3 memoria_ejemplo "edad" (PyInt 11) DERIVADO
              (Some "R1") EmptyString 1%Q memoria_ejemplo_ok)
    as (m' & Heq & _ & _ & _ & Hok).
  unfold memoria_ejemplo_dos. by rewrite Heq.
Qed.

Lemma res_mapM_ext {A B : Type} (f g : A → res B) l :
  (∀ x, x ∈ l → f x = g x) → res_mapM f l = res_mapM g l.
Proof.
  induction l as [|x l IH]; intros Hfg; [done|].
  simpl. rewrite (Hfg x) by left. destruct (g x); [|done|done].
  simpl. rewrite IH; [done|]. intros y Hy. apply Hfg. by right.
Qed.

(** X1: on a store that satisfies its invariant, a fact asserted at a clock
    reading later than the timestamp of every fact the store holds for its
    predicate is the fact [obtener_hecho] returns for that predicate from
    then on. *)
Theorem assert_hecho_luego_obtener E t m p v ty o j c hid m' :
  MemoriaTrabajo_ok m →
  assert_hecho t m p v ty o j c = Devuelve (hid, m') →
  (∀ h, hecho_de m p h → Hecho.timestamp h < t) →
  obtener_hecho E m' p = Devuelve (Some (Hecho.mk hid p v ty o t j c)).
Proof.
  intros Hok Heq Hnuevo.
  destruct (assert_hecho_forma t m p v ty o j c hid m' Hok Heq)
    as (_ & Hok' & Hlibre & Hhechos & _).
  assert (Hde : hecho_de m' p (Hecho.mk hid p v ty o t j c)).
  { split; [|done]. simpl. rewrite Hhechos. apply lookup_insert_eq. }
  pose proof (obtener_hecho_spec E m' p Hok') as Hspec.
  destruct (obtener_hecho E m' p) as [[h|]| |]; try done.
  - destruct Hspec as ([Hh Hp] & Hmax & _).
    specialize (Hmax _ Hde). simpl in Hmax.
    rewrite Hhechos, lookup_insert in Hh. case_decide as Hd.
    + by injection Hh as <-.
    + assert (Hviejo : hecho_de m p h) by done.
      apply Hnuevo in Hviejo. lia.
  - by destruct (Hspec _ Hde).
Qed.

Lemma hecho_de_memoria_ejemplo p h :
  hecho_de memoria_ejemplo p h → h = hecho_ejemplo.
Proof.
  intros [Hh _].
  destruct (ok_numero _ memoria_ejemplo_ok _ (mk_is_Some _ _ Hh)) as (n & Hn & Hid).
  assert (Hc : _contador_hechos memoria_ejemplo = 1%N) by reflexivity.
  rewrite Hc in Hn. assert (n = 1%N) as -> by lia.
  rewrite Hid in Hh. vm_compute in Hh. by injection Hh as <-.
Qed.

Lemma assert_hecho_luego_obtener_witness :
  obtener_hecho entorno_simple memoria_ejemplo_dos "edad"
    = Devuelve (Some (Hecho.mk "F0002" "edad" (PyInt 11) DERIVADO (Some "R1") 3
                               EmptyString 1%Q)).
Proof.
  apply (assert_hecho_luego_obtener entorno_simple 3 memoria_ejemplo "edad"
           (PyInt 11) DERIVADO (Some "R1") EmptyString 1%Q "F0002"
           memoria_ejemplo_dos memoria_ejemplo_ok).
  - vm_compute. reflexivity.
  - intros h Hh. apply hecho_de_memoria_ejemplo in Hh as ->. simpl. lia.
Defined.

(** X2: on a store that satisfies its invariant, asserting a fact for one
    predicate leaves what [obtener_hecho] returns for every other predicate
    as it was. *)
Theorem assert_hecho_otro_predicado E t m p v ty o j c hid m' q :
  MemoriaTrabajo_ok m →
  assert_hecho t m p v ty o j c = Devuelve (hid, m') →
  q ≠ p →
  obtener_hecho E m' q = obtener_hecho E m q.
Proof.
  intros Hok Heq Hqp.
  destruct (assert_hecho_forma t m p v ty o j c hid m' Hok Heq)
    as (_ & _ & Hlibre & Hhechos & Hindice & _).
  unfold obtener_hecho. rewrite Hindice, lookup_insert_ne by done.
  case_decide; [done|]. f_equal.
  apply res_mapM_ext. intros hid' Hin. unfold hecho_de_id.
  rewrite Hhechos, lookup_insert_ne; [done|]. intros <-.
  rewrite (iterar_perm E) in Hin.
  apply elem_of_elements, (ok_predicado m Hok) in Hin.
  destruct Hin as (h & Hh & _). congruence.
Qed.

Lemma assert_hecho_otro_predicado_witness :
  obtener_hecho entorno_simple memoria_ejemplo_dos "apto"
    = obtener_hecho entorno_simple memoria_ejemplo "apto".
Proof.
  apply (assert_hecho_otro_predicado entorno_simple 3 memoria_ejemplo "edad"
           (PyInt 11) DERIVADO (Some "R1") EmptyString 1%Q "F0002"
           memoria_ejemplo_dos "apto" memoria_ejemplo_ok).
  - vm_compute. reflexivity.
  - discriminate.
Defined.

(** X3: on a store that satisfies its invariant [obtener_hechos_por_tipo]
    raises nothing and returns, each once, exactly the facts of the store
    that have the category asked for. *)
Theorem obtener_hechos_por_tipo_exacto E m t :
  MemoriaTrabajo_ok m →
  ∃ hs,
    obtener_hechos_por_tipo E m t = Devuelve hs ∧
    NoDup hs ∧
    ∀ h, h ∈ hs ↔ (_hechos m !! Hecho.id h = Some h ∧ Hecho.tipo h = t).
Proof.
  intros Hok. destruct (ok_tipo m Hok t) as (ids & Hids & Hen).
  unfold obtener_hechos_por_tipo. rewrite Hids. simpl.
  assert (Hiter : ∀ hid, hid ∈ iterar E ids ↔ hid ∈ ids).
  { intros hid. rewrite (iterar_perm E ids). apply elem_of_elements. }
  destruct (res_mapM_hecho_de_id m (iterar E ids)) as (hs & Hhs & HF).
  { intros hid Hin. apply Hiter, Hen in Hin as (h & Hh & _). eauto. }
  exists hs. split; [done|]. split.
  - apply NoDup_alt. intros i k h Hi Hk.
    destruct (Forall2_lookup_r _ _ _ _ _ HF Hi) as (hid1 & H1 & Hh1).
    destruct (Forall2_lookup_r _ _ _ _ _ HF Hk) as (hid2 & H2 & Hh2).
    assert (hid1 = hid2).
    { rewrite <- (ok_id m Hok _ _ Hh1). apply (ok_id m Hok _ _ Hh2). }
    subst hid2.
    assert (Hnd : NoDup (iterar E ids)).
    { rewrite (iterar_perm E ids). apply NoDup_elements. }
    by apply (proj1 (NoDup_alt _) Hnd i k hid1).
  - intros h. split.
    + intros Hin. apply list_elem_of_lookup in Hin as [i Hi].
      destruct (Forall2_lookup_r _ _ _ _ _ HF Hi) as (hid & Hhid & Hh).
      pose proof (ok_id m Hok _ _ Hh) as Hid. rewrite Hid. split; [done|].
      apply list_elem_of_lookup_2, Hiter, Hen in Hhid as (h' & Hh' & Ht).
      congruence.
    + intros [Hh Ht].
      assert (Hin : Hecho.id h ∈ iterar E ids).
      { apply Hiter, Hen. eauto. }
      apply list_elem_of_lookup in Hin as [i Hi].
      destruct (Forall2_lookup_l _ _ _ _ _ HF Hi) as (h' & Hi' & Hh').
      assert (h' = h) as -> by congruence.
      by eapply list_elem_of_lookup_2.
Qed.

Lemma obtener_hechos_por_tipo_exacto_witness :
  ∃ hs,
    obtener_hechos_por_tipo entorno_simple memoria_ejemplo_dos DERIVADO
      = Devuelve hs ∧
    NoDup hs ∧
    ∀ h, h ∈ hs ↔ (_hechos memoria_ejemplo_dos !! Hecho.id h = Some h ∧
                   Hecho.tipo h = DERIVADO).
Proof.
  exact (obtener_hechos_por_tipo_exacto entorno_simple memoria_ejemplo_dos
           DERIVADO memoria_ejemplo_dos_ok).
Defined.

Lemma size_hechos_alcanzable m :
  MemoriaTrabajo_alcanzable m →
  size (_hechos m) = N.to_nat (_contador_hechos m).
Proof.
  induction 1 as [|t m p v ty o j c hid m' Halc IH Heq|m _ _]; [done| |done].
  destruct (assert_hecho_forma t m p v ty o j c hid m'
              (MemoriaTrabajo_alcanzable_ok m Halc) Heq)
    as (_ & _ & Hlibre & -> & _ & ->).
  rewrite map_size_insert_None by done. lia.
Qed.

(** X4: in every store built by the constructor, [assert_hecho] and
    [limpiar_memoria] the counter is the number of facts, and the facts are
    filed under the identifiers of the numbers 1 to the counter, none
    missing. *)
Theorem MemoriaTrabajo_alcanzable_densa m :
  MemoriaTrabajo_alcanzable m →
  size (_hechos m) = N.to_nat (_contador_hechos m) ∧
  ∀ n, (1 ≤ n ≤ _contador_hechos m)%N →
       is_Some (_hechos m !! id_de_numero n).
Proof.
  induction 1 as [|t m p v ty o j c hid m' Halc [IHsize IHden] Heq|m _ _].
  - split; [done|]. simpl. lia.
  - destruct (assert_hecho_forma t m p v ty o j c hid m'
                (MemoriaTrabajo_alcanzable_ok m Halc) Heq)
      as (-> & _ & Hlibre & -> & _ & ->).
    split.
    + rewrite map_size_insert_None by done. lia.
    + intros n Hn. rewrite lookup_insert. case_decide; [eauto|].
      apply IHden. assert (n ≠ (_contador_hechos m + 1)%N) by congruence. lia.
  - split; [done|]. simpl. lia.
Qed.

Lemma MemoriaTrabajo_alcanzable_densa_witness :
  size (_hechos memoria_empate) = N.to_nat (_contador_hechos memoria_empate) ∧
  ∀ n, (1 ≤ n ≤ _contador_hechos memoria_empate)%N →
       is_Some (_hechos memoria_empate !! id_de_numero n).
Proof.
  exact (MemoriaTrabajo_alcanzable_densa memoria_empate memoria_empate_alcanzable).
Defined.

(** ** The trace *)

Lemma TipoHecho_value_eqb a t :
  String.eqb (TipoHecho_value a) (TipoHecho_value t) = bool_decide (a = t).
Proof. by destruct a, t. Qed.

Lemma hechos_con_tipo_value iso t (l : list Hecho.t) :
  List.filter (λ h, String.eqb (HechoSerializado.tipo h) (TipoHecho_value t))
              (serializar_hecho iso <$> l)
  = serializar_hecho iso <$> List.filter (λ h, bool_decide (Hecho.tipo h = t)) l.
Proof.
  induction l as [|h l IH]; [done|].
  rewrite fmap_cons. cbn [List.filter serializar_hecho HechoSerializado.tipo].
  rewrite TipoHecho_value_eqb, IH. by case_bool_decide.
Qed.

Lemma hechos_con_tipo_otro iso tag (l : list Hecho.t) :
  (∀ t, String.eqb (TipoHecho_value t) tag = false) →
  List.filter (λ h, String.eqb (HechoSerializado.tipo h) tag)
              (serializar_hecho iso <$> l) = [].
Proof.
  intros Htag. induction l as [|h l IH]; [done|].
  rewrite fmap_cons. cbn [List.filter serializar_hecho HechoSerializado.tipo].
  by rewrite Htag.
Qed.

Lemma length_por_tipo (l : list Hecho.t) :
  length l =
  (length (List.filter (λ h, bool_decide (Hecho.tipo h = INICIAL)) l) +
   length (List.filter (λ h, bool_decide (Hecho.tipo h = DERIVADO)) l) +
   length (List.filter (λ h, bool_decide (Hecho.tipo h = CONCLUSION)) l))%nat.
Proof.
  induction l as [|h l IH]; [done|]. simpl.
  destruct (Hecho.tipo h); simpl; lia.
Qed.

Lemma ids_de_omap (f : nat → option Hecho.t) (g : nat → string) (l : list nat) :
  (∀ n, n ∈ l → ∃ h, f n = Some h ∧ Hecho.id h = g n) →
  Hecho.id <$> omap f l = g <$> l.
Proof.
  induction l as [|n l IH]; intros Hl; [done|]. simpl.
  destruct (Hl n) as (h & -> & Hid); [left|]. simpl.
  f_equal; [done|]. apply IH. intros k Hk. apply Hl. by right.
Qed.

Lemma valores_hechos_spec m :
  MemoriaTrabajo_alcanzable m →
  Hecho.id <$> valores_hechos m
    = (λ n, id_de_numero (N.of_nat n)) <$> seq 1 (N.to_nat (_contador_hechos m)) ∧
  NoDup (Hecho.id <$> valores_hechos m) ∧
  ∀ h, h ∈ valores_hechos m ↔ _hechos m !! Hecho.id h = Some h.
Proof.
  intros Halc. pose proof (MemoriaTrabajo_alcanzable_ok m Halc) as Hok.
  assert (Hden : ∀ n, (1 ≤ n ≤ _contador_hechos m)%N →
                      is_Some (_hechos m !! id_de_numero n)).
  { clear Hok. induction Halc as [|t m p v ty o j c hid m' Halc IH Heq|m _ _].
    - simpl. lia.
    - destruct (assert_hecho_forma t m p v ty o j c hid m'
                  (MemoriaTrabajo_alcanzable_ok m Halc) Heq)
        as (-> & _ & Hlibre & -> & _ & ->).
      intros n Hn. rewrite lookup_insert. case_decide; [eauto|].
      apply IH. assert (n ≠ (_contador_hechos m + 1)%N) by congruence. lia.
    - simpl. lia. }
  assert (Hids : Hecho.id <$> valores_hechos m
    = (λ n, id_de_numero (N.of_nat n)) <$> seq 1 (N.to_nat (_contador_hechos m))).
  { apply ids_de_omap. intros n Hn. apply elem_of_seq in Hn.
    destruct (Hden (N.of_nat n)) as [h Hh]; [lia|].
    exists h. split; [done|]. by apply (ok_id m Hok). }
  split; [done|]. split.
  - rewrite Hids. apply NoDup_fmap_2_strong; [|apply NoDup_seq].
    intros a b _ _ Hab. apply (inj id_de_numero) in Hab. lia.
  - intros h. unfold valores_hechos. rewrite list_elem_of_omap. split.
    + intros (n & _ & Hh). by rewrite (ok_id m Hok _ _ Hh).
    + intros Hh.
      destruct (ok_numero m Hok _ (mk_is_Some _ _ Hh)) as (n & Hn & Hid).
      exists (N.to_nat n). split; [apply elem_of_seq; lia|].
      by rewrite N2Nat.id, <- Hid.
Qed.

Lemma size_indice_por_tipo m t ids :
  MemoriaTrabajo_alcanzable m →
  _indice_por_tipo m !! t = Some ids →
  size ids
  = length (List.filter (λ h, bool_decide (Hecho.tipo h = t)) (valores_hechos m)).
Proof.
  intros Halc Hids. pose proof (MemoriaTrabajo_alcanzable_ok m Halc) as Hok.
  destruct (valores_hechos_spec m Halc) as (_ & Hnd & Hen).
  destruct (ok_tipo m Hok t) as (ids' & Hids' & Hids_en).
  assert (ids' = ids) as -> by congruence.
  set (l := List.filter (λ h, bool_decide (Hecho.tipo h = t)) (valores_hechos m)).
  assert (Hperm : Hecho.id <$> l ≡ₚ elements ids).
  { apply NoDup_Permutation; [|apply NoDup_elements|].
    - subst l. clear Hen. induction (valores_hechos m) as [|h k IH]; [constructor|].
      simpl in *. apply NoDup_cons in Hnd as [Hh Hk].
      case_bool_decide; [|by apply IH].
      simpl. apply NoDup_cons. split; [|by apply IH].
      intros Hin. apply Hh. apply list_elem_of_fmap in Hin as (h' & -> & Hin).
      apply list_elem_of_In, filter_In in Hin as [Hin _].
      apply list_elem_of_fmap. exists h'. split; [done|by apply list_elem_of_In].
    - intros hid. rewrite elem_of_elements, Hids_en, list_elem_of_fmap. split.
      + intros (h & -> & Hin). apply list_elem_of_In, filter_In in Hin as [Hin Ht].
        apply bool_decide_eq_true in Ht. apply list_elem_of_In, Hen in Hin. eauto.
      + intros (h & Hh & Ht). exists h.
        pose proof (ok_id m Hok _ _ Hh) as Hid. split; [done|].
        apply list_elem_of_In, filter_In. split.
        * apply list_elem_of_In, Hen. by rewrite Hid.
        * by apply bool_decide_eq_true. }
  apply Permutation_length in Hperm. rewrite length_fmap in Hperm.
  by rewrite Hperm.
Qed.

(** X5: for every store built by the constructor, [assert_hecho] and
    [limpiar_memoria] the trace is consistent with itself: the total is the
    number of facts listed, the three counts, given in the order inicial,
    derivado, conclusion, are the numbers of facts listed with each tag, and
    the total is their sum. *)
Theorem generar_trace_explicacion_cuentas iso m :
  MemoriaTrabajo_alcanzable m →
  total_hechos (generar_trace_explicacion iso m)
    = length (hechos (generar_trace_explicacion iso m)) ∧
  hechos_por_tipo (generar_trace_explicacion iso m)
    = [("inicial",
        length (hechos_con_tipo "inicial" (generar_trace_explicacion iso m)));
       ("derivado",
        length (api_hechos_derivados (generar_trace_explicacion iso m)));
       ("conclusion",
        length (api_conclusiones (generar_trace_explicacion iso m)))] ∧
  total_hechos (generar_trace_explicacion iso m)
    = (length (hechos_con_tipo "inicial" (generar_trace_explicacion iso m)) +
       length (api_hechos_derivados (generar_trace_explicacion iso m)) +
       length (api_conclusiones (generar_trace_explicacion iso m)))%nat.
Proof.
  intros Halc. pose proof (MemoriaTrabajo_alcanzable_ok m Halc) as Hok.
  destruct (valores_hechos_spec m Halc) as (Hids & _ & _).
  assert (Hlen : length (valores_hechos m) = size (_hechos m)).
  { rewrite <- (length_fmap Hecho.id), Hids, length_fmap, length_seq.
    symmetry. by apply size_hechos_alcanzable. }
  unfold api_hechos_derivados, api_conclusiones, hechos_con_tipo. simpl.
  rewrite (hechos_con_tipo_value iso INICIAL), (hechos_con_tipo_value iso DERIVADO),
    (hechos_con_tipo_value iso CONCLUSION), !length_fmap.
  split; [done|]. split.
  - destruct (ok_tipo m Hok INICIAL) as (i1 & H1 & _).
    destruct (ok_tipo m Hok DERIVADO) as (i2 & H2 & _).
    destruct (ok_tipo m Hok CONCLUSION) as (i3 & H3 & _).
    rewrite H1, H2, H3. simpl.
    by rewrite (size_indice_por_tipo m _ _ Halc H1),
      (size_indice_por_tipo m _ _ Halc H2), (size_indice_por_tipo m _ _ Halc H3).
  - rewrite <- Hlen. apply length_por_tipo.
Qed.

Lemma generar_trace_explicacion_cuentas_witness :
  total_hechos (generar_trace_explicacion (λ _, EmptyString) memoria_empate)
    = length (hechos (generar_trace_explicacion (λ _, EmptyString) memoria_empate)) ∧
  hechos_por_tipo (generar_trace_explicacion (λ _, EmptyString) memoria_empate)
    = [("inicial",
        length (hechos_con_tipo "inicial"
                  (generar_trace_explicacion (λ _, EmptyString) memoria_empate)));
       ("derivado",
        length (api_hechos_derivados
                  (generar_trace_explicacion (λ _, EmptyString) memoria_empate)));
       ("conclusion",
        length (api_conclusiones
                  (generar_trace_explicacion (λ _, EmptyString) memoria_empate)))] ∧
  total_hechos (generar_trace_explicacion (λ _, EmptyString) memoria_empate)
    = (length (hechos_con_tipo "inicial"
                 (generar_trace_explicacion (λ _, EmptyString) memoria_empate)) +
       length (api_hechos_derivados
                 (generar_trace_explicacion (λ _, EmptyString) memoria_empate)) +
       length (api_conclusiones
                 (generar_trace_explicacion (λ _, EmptyString) memoria_empate)))%nat.
Proof.
  exact (generar_trace_explicacion_cuentas (λ _, EmptyString) memoria_empate
           memoria_empate_alcanzable).
Defined.

(** X6: whatever the store, the answer of [/api/consulta] lists under
    [conclusiones] and [hechos_derivados] the serialized facts of category
    CONCLUSION and DERIVADO, in the order of the trace, while the two lists
    [main_cli] builds are empty: it compares the tag with the upper-case
    names, and the trace carries the lower-case values. *)
Theorem lectura_de_la_traza iso m :
  api_conclusiones (generar_trace_explicacion iso m)
    = serializar_hecho iso <$>
        List.filter (λ h, bool_decide (Hecho.tipo h = CONCLUSION))
                    (valores_hechos m) ∧
  api_hechos_derivados (generar_trace_explicacion iso m)
    = serializar_hecho iso <$>
        List.filter (λ h, bool_decide (Hecho.tipo h = DERIVADO))
                    (valores_hechos m) ∧
  cli_conclusiones (generar_trace_explicacion iso m) = [] ∧
  cli_derivados (generar_trace_explicacion iso m) = [].
Proof.
  unfold api_conclusiones, api_hechos_derivados, cli_conclusiones,
    cli_derivados, hechos_con_tipo. simpl.
  split; [apply (hechos_con_tipo_value iso CONCLUSION)|].
  split; [apply (hechos_con_tipo_value iso DERIVADO)|].
  split; apply hechos_con_tipo_otro; by intros [].
Qed.

(** ** The agenda: how its operations compose *)

(** X7: [esta_vacia] answers true exactly when [seleccionar_proxima_regla]
    has nothing to return. *)
Theorem esta_vacia_sii_sin_seleccion ag :
  esta_vacia ag = true ↔ seleccionar_proxima_regla ag = Devuelve None.
Proof.
  pose proof (seleccionar_proxima_regla_spec ag) as Hspec.
  unfold esta_vacia. rewrite forallb_forall. split.
  - intros Htodas.
    destruct (seleccionar_proxima_regla ag) as [[[i r]|]| |]; try done.
    destruct Hspec as (Hi & Hr & _).
    apply list_elem_of_lookup_2, list_elem_of_In, Htodas in Hi. congruence.
  - intros Heq r Hin. rewrite Heq in Hspec. by apply Hspec, list_elem_of_In.
Qed.

Lemma candidatos_desde_alter l : ∀ k i r,
  l !! i = Some r → ReglaInstanciada.ya_ejecutada r = false →
  S (length (candidatos_desde k
       (alter (ReglaInstanciada.con_ya_ejecutada true) i l)))
  = length (candidatos_desde k l).
Proof.
  induction l as [|x l IH]; intros k i r Hi Hr; [done|].
  destruct i as [|i]; simpl in *.
  - injection Hi as ->. by rewrite Hr.
  - destruct (ReglaInstanciada.ya_ejecutada x); simpl; [by eapply IH|].
    f_equal. by eapply IH.
Qed.

(** X8: marking the activation just selected takes it, and it alone, out of
    the candidates: there is one candidate less, the activation is never the
    one selected afterwards, every other activation is as it was, and the
    history ends with it. *)
Theorem marcar_la_seleccionada ag i r :
  seleccionar_proxima_regla ag = Devuelve (Some (i, r)) →
  S (length (candidatos (_reglas_instanciadas (marcar_como_ejecutada ag i))))
    = length (candidatos (_reglas_instanciadas ag)) ∧
  (∀ r', seleccionar_proxima_regla (marcar_como_ejecutada ag i)
         ≠ Devuelve (Some (i, r'))) ∧
  _reglas_instanciadas (marcar_como_ejecutada ag i) !! i
    = Some (ReglaInstanciada.con_ya_ejecutada true r) ∧
  (∀ j, j ≠ i → _reglas_instanciadas (marcar_como_ejecutada ag i) !! j
                = _reglas_instanciadas ag !! j) ∧
  _historial_ejecucion (marcar_como_ejecutada ag i)
    = _historial_ejecucion ag ++ [i].
Proof.
  intros Hsel. pose proof (seleccionar_proxima_regla_spec ag) as Hspec.
  rewrite Hsel in Hspec. destruct Hspec as (Hi & Hr & _).
  assert (Hmarcada :
    _reglas_instanciadas (marcar_como_ejecutada ag i) !! i
      = Some (ReglaInstanciada.con_ya_ejecutada true r)).
  { simpl. by rewrite list_lookup_alter_eq, Hi. }
  split; [by eapply candidatos_desde_alter|]. split.
  - intros r' Hsel'.
    pose proof (seleccionar_proxima_regla_spec (marcar_como_ejecutada ag i)) as Hspec'.
    rewrite Hsel' in Hspec'. destruct Hspec' as (Hi' & Hr' & _).
    rewrite Hmarcada in Hi'. injection Hi' as <-. discriminate Hr'.
  - split; [done|]. split; [|done].
    intros j Hj. simpl. by rewrite list_lookup_alter_ne.
Qed.

Lemma marcar_la_seleccionada_witness :
  S (length (candidatos
       (_reglas_instanciadas (marcar_como_ejecutada agenda_ejemplo 0))))
    = length (candidatos (_reglas_instanciadas agenda_ejemplo)) ∧
  (∀ r', seleccionar_proxima_regla (marcar_como_ejecutada agenda_ejemplo 0)
         ≠ Devuelve (Some (0%nat, r'))) ∧
  _reglas_instanciadas (marcar_como_ejecutada agenda_ejemplo 0) !! 0%nat
    = Some (ReglaInstanciada.con_ya_ejecutada true instancia_ejemplo) ∧
  (∀ j, j ≠ 0%nat →
        _reglas_instanciadas (marcar_como_ejecutada agenda_ejemplo 0) !! j
        = _reglas_instanciadas agenda_ejemplo !! j) ∧
  _historial_ejecucion (marcar_como_ejecutada agenda_ejemplo 0)
    = _historial_ejecucion agenda_ejemplo ++ [0%nat].
Proof.
  apply (marcar_la_seleccionada agenda_ejemplo 0 instancia_ejemplo).
  reflexivity.
Defined.

Lemma candidatos_desde_app l x : ∀ k,
  candidatos_desde k (l ++ [x])
  = candidatos_desde k l ++
    (if ReglaInstanciada.ya_ejecutada x then [] else [((k + length l)%nat, x)]).
Proof.
  induction l as [|y l IH]; intros k; simpl.
  - rewrite Nat.add_0_r. by destruct (ReglaInstanciada.ya_ejecutada x).
  - rewrite IH, Nat.add_succ_r. by destruct (ReglaInstanciada.ya_ejecutada y).
Qed.

Lemma candidatos_desde_agotada l : ∀ k,
  forallb ReglaInstanciada.ya_ejecutada l = true → candidatos_desde k l = [].
Proof.
  induction l as [|y l IH]; intros k Hl; [done|]. simpl in *.
  apply andb_true_iff in Hl as [-> Hl]. by apply IH.
Qed.

(** X9: an activation appended to an agenda all of whose activations are
    executed is the next one selected, under each of the three strategies,
    and the agenda is no longer exhausted. *)
Theorem activar_en_agenda_agotada t ag regla_id bindings activadores esp prio :
  esta_vacia ag = true →
  seleccionar_proxima_regla
    (activar_regla t ag regla_id bindings activadores esp prio)
  = Devuelve (Some (length (_reglas_instanciadas ag),
                    ReglaInstanciada.mk regla_id bindings activadores t esp prio
                                        false)) ∧
  esta_vacia (activar_regla t ag regla_id bindings activadores esp prio) = false.
Proof.
  intros Hvacia. split.
  - unfold seleccionar_proxima_regla, candidatos. simpl.
    rewrite candidatos_desde_app, (candidatos_desde_agotada _ _ Hvacia). simpl.
    by destruct (_estrategia ag).
  - unfold esta_vacia. simpl. rewrite forallb_app. simpl.
    by rewrite andb_false_r.
Qed.

Lemma activar_en_agenda_agotada_witness :
  seleccionar_proxima_regla
    (activar_regla 9 (marcar_como_ejecutada
                        (marcar_como_ejecutada agenda_ejemplo 0) 1)
                   "R3" ∅ [] 0 0%Q)
  = Devuelve (Some (length (_reglas_instanciadas
                              (marcar_como_ejecutada
                                 (marcar_como_ejecutada agenda_ejemplo 0) 1)),
                    ReglaInstanciada.mk "R3" ∅ [] 9 0 0%Q false)) ∧
  esta_vacia (activar_regla 9 (marcar_como_ejecutada
                                 (marcar_como_ejecutada agenda_ejemplo 0) 1)
                            "R3" ∅ [] 0 0%Q) = false.
Proof.
  apply (activar_en_agenda_agotada 9
           (marcar_como_ejecutada (marcar_como_ejecutada agenda_ejemplo 0) 1)).
  reflexivity.
Defined.

(** ** Conditions *)

(** X10: on a store that satisfies its invariant EXISTE and NO_EXISTE give
    opposite truth values, EXISTE being true exactly when the store holds a
    fact for the predicate; neither binds the variable of the condition. *)
Theorem existe_y_no_existe_complementarios E m p v var peso expl b :
  MemoriaTrabajo_ok m →
  ∃ r,
    _evaluar_condicion E m (CondicionRegla.mk p EXISTE v var peso expl) b
      = Devuelve (r, b) ∧
    _evaluar_condicion E m (CondicionRegla.mk p NO_EXISTE v var peso expl) b
      = Devuelve (negb r, b) ∧
    (r = true ↔ ∃ h, hecho_de m p h).
Proof.
  intros Hok. pose proof (obtener_hecho_spec E m p Hok) as Hspec.
  unfold _evaluar_condicion. simpl.
  destruct (obtener_hecho E m p) as [[h|]| |]; try done; simpl.
  - exists true. split; [done|]. split; [done|].
    split; [|done]. intros _. exists h. apply Hspec.
  - exists false. split; [done|]. split; [done|].
    split; [done|]. intros [h Hh]. by destruct (Hspec h).
Qed.

Lemma existe_y_no_existe_complementarios_witness :
  ∃ r,
    _evaluar_condicion entorno_simple memoria_ejemplo
      (condicion_ejemplo EXISTE PyNone) ∅ = Devuelve (r, ∅) ∧
    _evaluar_condicion entorno_simple memoria_ejemplo
      (condicion_ejemplo NO_EXISTE PyNone) ∅ = Devuelve (negb r, ∅) ∧
    (r = true ↔ ∃ h, hecho_de memoria_ejemplo "edad" h).
Proof.
  exact (existe_y_no_existe_complementarios entorno_simple memoria_ejemplo
           "edad" PyNone (Some "x") 1%Q EmptyString ∅ memoria_ejemplo_ok).
Defined.

(** X11: on a store that satisfies its invariant IGUAL and DIFERENTE give
    opposite truth values when the store holds a fact for the predicate, and
    both give false, binding nothing, when it holds none: an absent fact is
    not "different" from anything. *)
Theorem igual_y_diferente E m p v var peso expl b :
  MemoriaTrabajo_ok m →
  (∀ h0, hecho_de m p h0 →
     ∃ r b1 b2,
       _evaluar_condicion E m (CondicionRegla.mk p IGUAL v var peso expl) b
         = Devuelve (r, b1) ∧
       _evaluar_condicion E m (CondicionRegla.mk p DIFERENTE v var peso expl) b
         = Devuelve (negb r, b2)) ∧
  ((∀ h, ¬ hecho_de m p h) →
     _evaluar_condicion E m (CondicionRegla.mk p IGUAL v var peso expl) b
       = Devuelve (false, b) ∧
     _evaluar_condicion E m (CondicionRegla.mk p DIFERENTE v var peso expl) b
       = Devuelve (false, b)).
Proof.
  intros Hok. pose proof (obtener_hecho_spec E m p Hok) as Hspec.
  unfold _evaluar_condicion. simpl.
  destruct (obtener_hecho E m p) as [[h|]| |]; try done; simpl.
  - split.
    + intros _ _. exists (py_eq (Hecho.valor h) v).
      destruct (py_eq (Hecho.valor h) v), (variable_dada var); simpl; eauto.
    + intros Hno. destruct (Hno h). apply Hspec.
  - split; [|done]. intros h0 Hh0. by destruct (Hspec h0).
Qed.

Lemma igual_y_diferente_witness :
  (∀ h0, hecho_de memoria_ejemplo "edad" h0 →
     ∃ r b1 b2,
       _evaluar_condicion entorno_simple memoria_ejemplo
         (condicion_ejemplo IGUAL (PyInt 10)) ∅ = Devuelve (r, b1) ∧
       _evaluar_condicion entorno_simple memoria_ejemplo
         (condicion_ejemplo DIFERENTE (PyInt 10)) ∅ = Devuelve (negb r, b2)) ∧
  ((∀ h, ¬ hecho_de memoria_ejemplo "edad" h) →
     _evaluar_condicion entorno_simple memoria_ejemplo
       (condicion_ejemplo IGUAL (PyInt 10)) ∅ = Devuelve (false, ∅) ∧
     _evaluar_condicion entorno_simple memoria_ejemplo
       (condicion_ejemplo DIFERENTE (PyInt 10)) ∅ = Devuelve (false, ∅)).
Proof.
  exact (igual_y_diferente entorno_simple memoria_ejemplo "edad" (PyInt 10)
           (Some "x") 1%Q EmptyString ∅ memoria_ejemplo_ok).
Defined.

(** ** Matching a rule *)

Lemma _evaluar_condicion_cumple E m c b :
  MemoriaTrabajo_ok m →
  ∃ b', _evaluar_condicion E m c b = Devuelve (condicion_cumple E m c, b').
Proof.
  intros Hok.
  destruct (obtener_hecho_devuelve E m (CondicionRegla.predicado c) Hok) as [oh Hoh].
  unfold condicion_cumple, _evaluar_condicion. rewrite Hoh. simpl.
  destruct (CondicionRegla.operador c), oh as [h|]; simpl; eauto;
    repeat match goal with
    | |- context [match ?x with _ => _ end] => destruct x eqn:?; simpl; eauto
    end.
Qed.

Lemma evaluar_condiciones_cumplen E m cs : ∀ b,
  MemoriaTrabajo_ok m →
  if forallb (condicion_cumple E m) cs
  then ∃ b', evaluar_condiciones E m cs b = Devuelve (Some b')
  else evaluar_condiciones E m cs b = Devuelve None.
Proof.
  induction cs as [|c cs IH]; intros b Hok; simpl; [eauto|].
  destruct (_evaluar_condicion_cumple E m c b Hok) as [b' ->]. simpl.
  destruct (condicion_cumple E m c); simpl; [by apply IH|done].
Qed.

Lemma evaluar_regla_forallb E m regla :
  MemoriaTrabajo_ok m →
  (evaluar_regla E m regla = Devuelve None ↔
   forallb (condicion_cumple E m) (ReglaProduccionAcademica.condiciones regla)
     = false).
Proof.
  intros Hok.
  pose proof (evaluar_condiciones_cumplen E m
                (ReglaProduccionAcademica.condiciones regla) ∅ Hok) as H.
  unfold evaluar_regla.
  destruct (forallb _ _); [|done].
  destruct H as [b ->]. done.
Qed.

(** X12: on a store that satisfies its invariant a rule matches exactly when
    each of its conditions, taken by itself, holds on the store, and fails to
    match exactly when one of them does not; so the order in which the
    conditions are written has no bearing on whether the rule matches. *)
Theorem evaluar_regla_sii_todas E m regla :
  MemoriaTrabajo_ok m →
  ((∃ b, evaluar_regla E m regla = Devuelve (Some b)) ↔
     ∀ c, c ∈ ReglaProduccionAcademica.condiciones regla →
          condicion_cumple E m c = true) ∧
  (evaluar_regla E m regla = Devuelve None ↔
     ∃ c, c ∈ ReglaProduccionAcademica.condiciones regla ∧
          condicion_cumple E m c = false) ∧
  ∀ regla',
    ReglaProduccionAcademica.condiciones regla'
      ≡ₚ ReglaProduccionAcademica.condiciones regla →
    (evaluar_regla E m regla' = Devuelve None ↔
     evaluar_regla E m regla = Devuelve None).
Proof.
  intros Hok.
  assert (Htodas : ∀ cs : list CondicionRegla.t,
    forallb (condicion_cumple E m) cs = true ↔
    ∀ c, c ∈ cs → condicion_cumple E m c = true).
  { intros cs. rewrite forallb_forall. split; intros H c Hc; apply H;
      by apply list_elem_of_In. }
  assert (Halguna : ∀ cs : list CondicionRegla.t,
    forallb (condicion_cumple E m) cs = false ↔
    ∃ c, c ∈ cs ∧ condicion_cumple E m c = false).
  { intros cs. induction cs as [|c cs IH]; simpl.
    - split; [done|]. intros (c & Hc & _). by apply elem_of_nil in Hc.
    - rewrite andb_false_iff, IH. split.
      + intros [Hc|(c' & Hc' & Hf)]; [exists c; split; [left|done]|].
        exists c'. split; [by right|done].
      + intros (c' & Hc' & Hf). apply elem_of_cons in Hc' as [->|Hc']; eauto. }
  split; [|split].
  - rewrite <- Htodas.
    pose proof (evaluar_condiciones_cumplen E m
                  (ReglaProduccionAcademica.condiciones regla) ∅ Hok) as H.
    unfold evaluar_regla. destruct (forallb _ _).
    + done.
    + rewrite H. split; [|done]. by intros [b Hb].
  - by rewrite evaluar_regla_forallb, Halguna.
  - intros regla' Hperm. rewrite !evaluar_regla_forallb, !Halguna by done.
    split; intros (c & Hc & Hf); exists c; split; try done.
    + by rewrite <- Hperm.
    + by rewrite Hperm.
Qed.

Lemma evaluar_regla_sii_todas_witness :
  ((∃ b, evaluar_regla entorno_simple memoria_ejemplo R001 = Devuelve (Some b)) ↔
     ∀ c, c ∈ ReglaProduccionAcademica.condiciones R001 →
          condicion_cumple entorno_simple memoria_ejemplo c = true) ∧
  (evaluar_regla entorno_simple memoria_ejemplo R001 = Devuelve None ↔
     ∃ c, c ∈ ReglaProduccionAcademica.condiciones R001 ∧
          condicion_cumple entorno_simple memoria_ejemplo c = false) ∧
  ∀ regla',
    ReglaProduccionAcademica.condiciones regla'
      ≡ₚ ReglaProduccionAcademica.condiciones R001 →
    (evaluar_regla entorno_simple memoria_ejemplo regla' = Devuelve None ↔
     evaluar_regla entorno_simple memoria_ejemplo R001 = Devuelve None).
Proof.
  exact (evaluar_regla_sii_todas entorno_simple memoria_ejemplo R001
           memoria_ejemplo_ok).
Defined.

Lemma _evaluar_condicion_liga E m c b0 b1 :
  _evaluar_condicion E m c b0 = Devuelve (true, b1) →
  match variable_ligada c with
  | Some x =>
      x ≠ EmptyString ∧
      ∃ h, obtener_hecho E m (CondicionRegla.predicado c) = Devuelve (Some h) ∧
           b1 = <[x := Hecho.valor h]> b0
  | None => b1 = b0
  end.
Proof.
  unfold _evaluar_condicion, variable_ligada.
  destruct (obtener_hecho E m (CondicionRegla.predicado c)) as [oh| |];
    [|done|done]. simpl.
  assert (Hvar : ∀ x, variable_dada (CondicionRegla.variable c) = Some x →
                      x ≠ EmptyString).
  { intros x. destruct (CondicionRegla.variable c) as [[|]|]; simpl; congruence. }
  destruct (CondicionRegla.operador c), oh as [h|]; simpl; try congruence;
    repeat match goal with
    | |- context [match ?x with _ => _ end] => destruct x eqn:?; simpl
    end; intros [= ?]; subst; try done; try (split; [by apply Hvar|eauto]).
Qed.

Lemma evaluar_condiciones_liga E m cs : ∀ b0 b,
  evaluar_condiciones E m cs b0 = Devuelve (Some b) →
  ∀ x,
    (is_Some (b !! x) ↔
       is_Some (b0 !! x) ∨ ∃ c, c ∈ cs ∧ variable_ligada c = Some x) ∧
    ∀ v, b !! x = Some v →
      b0 !! x = Some v ∨
      ∃ c h, c ∈ cs ∧ variable_ligada c = Some x ∧
             obtener_hecho E m (CondicionRegla.predicado c) = Devuelve (Some h) ∧
             Hecho.valor h = v.
Proof.
  induction cs as [|c cs IH]; intros b0 b Heq x.
  - injection Heq as <-. split; [|by left]. split; [by left|].
    intros [H|(c & Hc & _)]; [done|]. by apply elem_of_nil in Hc.
  - simpl in Heq.
    destruct (_evaluar_condicion E m c b0) as [[r b1]| |] eqn:Hc;
      [|done|done]. simpl in Heq.
    destruct r; [|done].
    apply _evaluar_condicion_liga in Hc.
    destruct (IH b1 b Heq x) as [Hdom Hval]. split.
    + rewrite Hdom. destruct (variable_ligada c) as [y|] eqn:Hy.
      * destruct Hc as (_ & h & _ & ->). rewrite lookup_insert_is_Some. split.
        -- intros [[<-|[_ H]]|(c' & Hc' & Hx)].
           ++ right. exists c. split; [left|done].
           ++ by left.
           ++ right. exists c'. split; [by right|done].
        -- intros [H|(c' & Hc' & Hx)].
           ++ left. destruct (decide (y = x)); [by left|by right].
           ++ apply elem_of_cons in Hc' as [->|Hc'].
              ** left. left. congruence.
              ** right. eauto.
      * subst b1. split.
        -- intros [H|(c' & Hc' & Hx)]; [by left|].
           right. exists c'. split; [by right|done].
        -- intros [H|(c' & Hc' & Hx)]; [by left|].
           apply elem_of_cons in Hc' as [->|Hc']; [congruence|]. right. eauto.
    + intros v Hv. destruct (Hval v Hv) as [H1|(c' & h & Hc' & Hx & Hh & Hvh)].
      * destruct (variable_ligada c) as [y|] eqn:Hy.
        -- destruct Hc as (_ & h & Hh & ->).
           rewrite lookup_insert in H1. case_decide as Hd.
           ++ subst y. injection H1 as <-. right. exists c, h.
              split; [left|done].
           ++ by left.
        -- subst b1. by left.
      * right. exists c', h. split; [by right|done].
Qed.

(** X13: when a rule matches, the names bound in the result are exactly the
    variables of its conditions that compare a value (IGUAL, DIFERENTE, EN,
    NO_EN) and name a non-empty variable; a condition EXISTE or NO_EXISTE
    binds nothing even when it names a variable.  Each name is bound to the
    value of the latest fact of the predicate of such a condition. *)
Theorem evaluar_regla_bindings E m regla b :
  evaluar_regla E m regla = Devuelve (Some b) →
  ∀ x,
    (is_Some (b !! x) ↔
       ∃ c, c ∈ ReglaProduccionAcademica.condiciones regla ∧
            variable_ligada c = Some x) ∧
    ∀ v, b !! x = Some v →
      x ≠ EmptyString ∧
      ∃ c h, c ∈ ReglaProduccionAcademica.condiciones regla ∧
             variable_ligada c = Some x ∧
             obtener_hecho E m (CondicionRegla.predicado c) = Devuelve (Some h) ∧
             Hecho.valor h = v.
Proof.
  intros Heq x.
  destruct (evaluar_condiciones_liga E m _ _ _ Heq x) as [Hdom Hval]. split.
  - rewrite Hdom. split; [|by right].
    intros [H|H]; [|done]. rewrite lookup_empty in H. by destruct H.
  - intros v Hv. destruct (Hval v Hv) as [H|(c & h & Hc & Hx & Hh & Hvh)].
    + by rewrite lookup_empty in H.
    + split; [|by exists c, h].
      unfold variable_ligada in Hx.
      assert (variable_dada (CondicionRegla.variable c) = Some x) as Hd.
      { by destruct (CondicionRegla.operador c). }
      destruct (CondicionRegla.variable c) as [[|]|]; simpl in Hd; congruence.
Qed.

Lemma evaluar_regla_bindings_witness :
  (is_Some (bindings_ejemplo !! "x") ↔
     ∃ c, c ∈ ReglaProduccionAcademica.condiciones
                (regla_de_condiciones [condicion_ejemplo EXISTE PyNone;
                                       condicion_ejemplo IGUAL (PyInt 10)]) ∧
          variable_ligada c = Some "x") ∧
  ∀ v, bindings_ejemplo !! "x" = Some v →
    "x" ≠ EmptyString ∧
    ∃ c h, c ∈ ReglaProduccionAcademica.condiciones
                 (regla_de_condiciones [condicion_ejemplo EXISTE PyNone;
                                        condicion_ejemplo IGUAL (PyInt 10)]) ∧
           variable_ligada c = Some "x" ∧
           obtener_hecho entorno_simple memoria_ejemplo
             (CondicionRegla.predicado c) = Devuelve (Some h) ∧
           Hecho.valor h = v.
Proof.
  apply (evaluar_regla_bindings entorno_simple memoria_ejemplo
           (regla_de_condiciones [condicion_ejemplo EXISTE PyNone;
                                  condicion_ejemplo IGUAL (PyInt 10)])
           bindings_ejemplo).
  vm_compute. reflexivity.
Defined.
(** ** Executing actions: identifiers and clock *)

Lemma assert_hecho_M_forma E p v ty o j c s :
  MemoriaTrabajo_ok (memoria s) →
  let hid := id_de_numero (_contador_hechos (memoria s) + 1) in
  ∃ s', assert_hecho_M E p v ty o j c s = Devuelve (hid, s') ∧
        agenda s' = agenda s ∧ mismo_motor s s' ∧
        lecturas s' = S (lecturas s) ∧
        MemoriaTrabajo_ok (memoria s') ∧
        _contador_hechos (memoria s') = (_contador_hechos (memoria s) + 1)%N ∧
        _hechos (memoria s') =
          <[hid := Hecho.mk hid p v ty o (reloj E (lecturas s)) j c]>
            (_hechos (memoria s)) ∧
        _hechos (memoria s) !! hid = None.
Proof.
  intros Hok hid.
  destruct (assert_hecho_spec (reloj E (lecturas s)) (memoria s) p v ty o j c Hok)
    as (m' & Heq & Hhechos & Hlibre & Hcont & Hok').
  unfold assert_hecho_M. desplegar_M. rewrite Heq. simpl.
  eexists. split; [reflexivity|]. simpl.
  split; [done|]. split; [by repeat split|]. done.
Qed.





(** ** Guards *)

Lemma no_existe_con_hecho E m regla c h :
  MemoriaTrabajo_ok m →
  c ∈ ReglaProduccionAcademica.condiciones regla →
  CondicionRegla.operador c = NO_EXISTE →
  hecho_de m (CondicionRegla.predicado c) h →
  evaluar_regla E m regla = Devuelve None.
Proof.
  intros Hok Hc Hop Hh.
  apply evaluar_regla_forallb; [done|].
  apply not_true_is_false. intros Htodas.
  rewrite forallb_forall in Htodas.
  apply list_elem_of_In, Htodas in Hc.
  destruct (obtener_hecho_existe E m _ h Hok Hh) as [h' Hh'].
  unfold condicion_cumple, _evaluar_condicion in Hc.
  rewrite Hh', Hop in Hc. simpl in Hc. done.
Qed.

(** X15: on a store that satisfies its invariant, once the actions of a rule
    have run, no rule that carries a NO_EXISTE condition on the predicate of
    one of its ASSERT, CONCLUDE or RECOMMEND actions matches the store any
    more: firing the rule closes every such guard, its own included. *)
Theorem guarda_no_existe_cierra E regla bindings s ids s' a regla' c :
  MemoriaTrabajo_ok (memoria s) →
  ejecutar_acciones E regla bindings s = Devuelve (ids, s') →
  a ∈ ReglaProduccionAcademica.acciones regla →
  crea_hecho (AccionRegla.tipo a) = true →
  c ∈ ReglaProduccionAcademica.condiciones regla' →
  CondicionRegla.operador c = NO_EXISTE →
  CondicionRegla.predicado c = AccionRegla.predicado a →
  evaluar_regla E (memoria s') regla' = Devuelve None.
Proof.
  intros Hok Heq Ha Hcrea Hc Hop Hp.
  destruct (ejecutar_resto_spec E regla bindings
              (ReglaProduccionAcademica.acciones regla) [] s Hok)
    as (ids' & s'' & Heq' & _ & _ & Hok' & _ & _ & _ & HF).
  unfold ejecutar_acciones in Heq. rewrite Heq' in Heq.
  injection Heq as <- <-.
  assert (Hin : a ∈ List.filter (λ a, crea_hecho (AccionRegla.tipo a))
                      (ReglaProduccionAcademica.acciones regla)).
  { apply list_elem_of_In, filter_In. split; [by apply list_elem_of_In|done]. }
  apply list_elem_of_lookup in Hin as [i Hi].
  destruct (Forall2_lookup_l _ _ _ _ _ HF Hi)
    as (hid & _ & h & Hh & _ & Hid & Hpred & _).
  apply (no_existe_con_hecho E (memoria s'') regla' c h Hok' Hc Hop).
  split; [by rewrite Hid|congruence].
Qed.

Lemma guarda_no_existe_cierra_witness :
  ∃ ids s',
    ejecutar_acciones entorno_simple R001 ∅ sesion_ejemplo = Devuelve (ids, s') ∧
    evaluar_regla entorno_simple (memoria s') R001 = Devuelve None.
Proof.
  destruct (ejecutar_acciones entorno_simple R001 ∅ sesion_ejemplo)
    as [[ids s']| |] eqn:Heq; [|exfalso; vm_compute in Heq; discriminate Heq..].
  exists ids, s'. split; [done|].
  apply (guarda_no_existe_cierra entorno_simple R001 ∅ sesion_ejemplo ids s'
           (AccionRegla.mk ASSERT "ambiente_seco_extremo" (PyBool true) ∅ (9 # 10)%Q
              "Calefaccion TDF genera sequedad extrema")
           R001 (condicion "ambiente_seco_extremo" NO_EXISTE PyNone)
           memoria_ejemplo_ok Heq).
  - left.
  - reflexivity.
  - right. right. left.
  - reflexivity.
  - reflexivity.
Defined.
(** ** The MATCH phase, exactly *)

Lemma regla_cumple_evaluar E m regla :
  MemoriaTrabajo_ok m →
  if regla_cumple E m regla
  then ∃ b, evaluar_regla E m regla = Devuelve (Some b)
  else evaluar_regla E m regla = Devuelve None.
Proof. intros Hok. by apply evaluar_condiciones_cumplen. Qed.

Lemma fase_match_forma E reglas : ∀ s,
  MemoriaTrabajo_ok (memoria s) →
  ∃ s' nuevas,
    fase_match E reglas s = Devuelve (tt, s') ∧
    memoria s' = memoria s ∧ mismo_motor s s' ∧
    _reglas_instanciadas (agenda s') = _reglas_instanciadas (agenda s) ++ nuevas ∧
    _estrategia (agenda s') = _estrategia (agenda s) ∧
    _historial_ejecucion (agenda s') = _historial_ejecucion (agenda s) ∧
    Forall2 (activacion_de E (memoria s))
            (List.filter (regla_cumple E (memoria s)) reglas) nuevas ∧
    lecturas s' = (lecturas s + length nuevas)%nat ∧
    ∀ i a, nuevas !! i = Some a →
           ReglaInstanciada.timestamp_activacion a = reloj E (lecturas s + i).
Proof.
  induction reglas as [|regla reglas IH]; intros s Hok.
  - exists s, []. simpl. rewrite app_nil_r, Nat.add_0_r.
    split; [done|]. split; [done|]. split; [apply mismo_motor_refl|].
    split; [done|]. split; [done|]. split; [done|]. split; [constructor|].
    split; [done|]. intros i a Hi. by rewrite lookup_nil in Hi.
  - pose proof (regla_cumple_evaluar E (memoria s) regla Hok) as Hcumple.
    simpl. desplegar_M.
    destruct (regla_cumple E (memoria s) regla).
    + destruct Hcumple as [b0 Hb0]. rewrite Hb0. simpl.
      unfold activar_regla_M. desplegar_M.
      match goal with
      | |- context [fase_match E reglas ?s1] =>
          destruct (IH s1 Hok)
            as (s' & nuevas & Heq & Hmem & Hmot & Hl & He & Hh & HF & Hlec & Ht)
      end.
      simpl in *. rewrite Heq.
      eexists s', (_ :: nuevas). split; [done|]. split; [done|].
      split; [done|]. split; [by rewrite Hl, <- app_assoc|].
      split; [done|]. split; [done|]. split.
      { constructor; [|done]. by repeat split. }
      split; [simpl; lia|].
      intros [|i] a Hi; simpl in Hi.
      * injection Hi as <-. simpl. by rewrite Nat.add_0_r.
      * rewrite (Ht i a Hi). f_equal. lia.
    + rewrite Hcumple. simpl.
      destruct (IH s Hok)
        as (s' & nuevas & Heq & Hmem & Hmot & Hl & He & Hh & HF & Hlec & Ht).
      match goal with
      | |- context [fase_match E reglas ?s1] =>
          replace s1 with s by (by destruct s)
      end.
      rewrite Heq. by exists s', nuevas.
Qed.

(** X16: on a store that satisfies its invariant the MATCH phase appends to
    the agenda one activation for each rule of the list that matches the
    store, in the order of the list and with consecutive clock readings, and
    changes nothing else: the ids of the new activations are the ids of the
    rules that match.  What the agenda already holds plays no part: a
    rule that matches is activated again even while an earlier activation of
    it is pending or has run. *)
Theorem fase_match_exacta E reglas s :
  MemoriaTrabajo_ok (memoria s) →
  ∃ s' nuevas,
    fase_match E reglas s = Devuelve (tt, s') ∧
    memoria s' = memoria s ∧ mismo_motor s s' ∧
    _reglas_instanciadas (agenda s') = _reglas_instanciadas (agenda s) ++ nuevas ∧
    _estrategia (agenda s') = _estrategia (agenda s) ∧
    _historial_ejecucion (agenda s') = _historial_ejecucion (agenda s) ∧
    Forall2 (activacion_de E (memoria s))
            (List.filter (regla_cumple E (memoria s)) reglas) nuevas ∧
    ReglaInstanciada.regla_id <$> nuevas
      = ReglaProduccionAcademica.id
          <$> List.filter (regla_cumple E (memoria s)) reglas ∧
    lecturas s' = (lecturas s + length nuevas)%nat ∧
    ∀ i a, nuevas !! i = Some a →
           ReglaInstanciada.timestamp_activacion a = reloj E (lecturas s + i).
Proof.
  intros Hok.
  destruct (fase_match_forma E reglas s Hok)
    as (s' & nuevas & Heq & Hmem & Hmot & Hl & He & Hh & HF & Hlec & Ht).
  exists s', nuevas. split; [done|]. split; [done|]. split; [done|].
  split; [done|]. split; [done|]. split; [done|]. split; [done|].
  split; [|done].
  clear Hl Hlec Ht. induction HF as [|r a rs nuevas Ha _ IH]; [done|].
  rewrite !fmap_cons. f_equal; [|exact IH]. by destruct Ha.
Qed.

Lemma fase_match_exacta_witness :
  ∃ s' nuevas,
    fase_match entorno_simple (obtener_reglas kb_ejemplo) sesion_ejemplo
      = Devuelve (tt, s') ∧
    memoria s' = memoria sesion_ejemplo ∧ mismo_motor sesion_ejemplo s' ∧
    _reglas_instanciadas (agenda s')
      = _reglas_instanciadas (agenda sesion_ejemplo) ++ nuevas ∧
    _estrategia (agenda s') = _estrategia (agenda sesion_ejemplo) ∧
    _historial_ejecucion (agenda s') = _historial_ejecucion (agenda sesion_ejemplo) ∧
    Forall2 (activacion_de entorno_simple (memoria sesion_ejemplo))
            (List.filter (regla_cumple entorno_simple (memoria sesion_ejemplo))
                         (obtener_reglas kb_ejemplo)) nuevas ∧
    ReglaInstanciada.regla_id <$> nuevas
      = ReglaProduccionAcademica.id
          <$> List.filter (regla_cumple entorno_simple (memoria sesion_ejemplo))
                          (obtener_reglas kb_ejemplo) ∧
    lecturas s' = (lecturas sesion_ejemplo + length nuevas)%nat ∧
    ∀ i a, nuevas !! i = Some a →
           ReglaInstanciada.timestamp_activacion a
           = reloj entorno_simple (lecturas sesion_ejemplo + i).
Proof.
  exact (fase_match_exacta entorno_simple (obtener_reglas kb_ejemplo)
           sesion_ejemplo memoria_ejemplo_ok).
Defined.

(** ** The cases of a cycle *)

Lemma ciclo_casos E kb s :
  MemoriaTrabajo_ok (memoria s) →
  ∃ s1,
    fase_match E (obtener_reglas kb) (con_ciclos (ciclos_ejecutados s + 1) s)
      = Devuelve (tt, s1) ∧
    ((seleccionar_proxima_regla (agenda s1) = Devuelve None ∧
      ciclo E kb s = Devuelve (false, con_razon AgendaVacia s1)) ∨
     ∃ ref inst,
       seleccionar_proxima_regla (agenda s1) = Devuelve (Some (ref, inst)) ∧
       ((obtener_regla_por_id kb (ReglaInstanciada.regla_id inst) = None ∧
         ciclo E kb s = Devuelve (true, s1)) ∨
        ∃ regla ids s2,
          obtener_regla_por_id kb (ReglaInstanciada.regla_id inst) = Some regla ∧
          ejecutar_acciones E regla (ReglaInstanciada.bindings inst) s1
            = Devuelve (ids, s2) ∧
          ciclo E kb s
            = Devuelve (true, con_agenda (marcar_como_ejecutada (agenda s2) ref) s2))).
Proof.
  intros Hok. unfold ciclo.
  rewrite (M_ligar_devuelve
             (modificar (λ s, con_ciclos (ciclos_ejecutados s + 1) s)) _ s tt
             (con_ciclos (ciclos_ejecutados s + 1) s) eq_refl).
  destruct (fase_match_forma E (obtener_reglas kb)
              (con_ciclos (ciclos_ejecutados s + 1) s) Hok)
    as (s1 & nuevas & Hmatch & Hmem & _).
  exists s1. split; [done|].
  rewrite (M_ligar_devuelve _ _ _ _ _ Hmatch).
  rewrite (M_ligar_devuelve leer _ s1 s1 s1 eq_refl).
  pose proof (seleccionar_proxima_regla_spec (agenda s1)) as Hspec.
  destruct (seleccionar_proxima_regla (agenda s1)) as [[[ref inst]|]| |] eqn:Hsel;
    try done;
    rewrite (M_ligar_devuelve _ _ _ _ _ (elevar_devuelve _ _ s1 eq_refl)).
  - right. exists ref, inst. split; [done|]. unfold fase_act.
    destruct (obtener_regla_por_id kb (ReglaInstanciada.regla_id inst)) as [regla|].
    + right.
      assert (Hok1 : MemoriaTrabajo_ok (memoria s1)) by (by rewrite Hmem).
      destruct (ejecutar_resto_spec E regla (ReglaInstanciada.bindings inst)
                  (ReglaProduccionAcademica.acciones regla) [] s1 Hok1)
        as (ids & s2 & Heq & _).
      exists regla, ids, s2. split; [done|]. split; [exact Heq|].
      unfold ejecutar_acciones.
      by rewrite (M_ligar_devuelve _ _ _ _ _ (M_ligar_devuelve _ _ _ _ _ Heq)).
    + by left.
  - by left.
Qed.
(** ** Invariants of the loop *)

Section bucle_invariante.
Variables (E : Entorno) (kb : BaseConocimiento) (Inv Sale : Sesion → Prop).
Hypothesis Inv_ok : ∀ s, Inv s → MemoriaTrabajo_ok (memoria s).
Hypothesis Inv_ciclo : ∀ s sigue s',
  Inv s → ciclo E kb s = Devuelve (sigue, s') → Inv s' ∧ (sigue = false → Sale s').

Lemma bucle_invariante : ∀ combustible s,
  Inv s →
  max_ciclos s - ciclos_ejecutados s ≤ Z.of_nat combustible →
  ∃ s',
    bucle E kb combustible s = Devuelve (tt, s') ∧
    Inv s' ∧
    max_ciclos s' = max_ciclos s ∧
    ciclos_ejecutados s ≤ ciclos_ejecutados s' ∧
    (ciclos_ejecutados s ≤ max_ciclos s → ciclos_ejecutados s' ≤ max_ciclos s) ∧
    (ciclos_ejecutados s' < max_ciclos s →
       Sale s' ∧ razon_terminacion s' = AgendaVacia).
Proof.
  induction combustible as [|f IH]; intros s HInv Hf; rewrite bucle_eq;
    rewrite (M_ligar_devuelve leer _ s s s eq_refl);
    destruct (ciclos_ejecutados s <? max_ciclos s) eqn:Hcond.
  - lia.
  - exists s. split; [done|]. split; [done|]. split; [done|].
    split; [lia|]. split; [done|]. lia.
  - destruct (ciclo_spec E kb s (Inv_ok s HInv))
      as (sigue & s1 & Hciclo & _ & Hmax1 & Hcic1 & Hfin & _).
    destruct (Inv_ciclo s sigue s1 HInv Hciclo) as [HInv1 HSale].
    rewrite (M_ligar_devuelve _ _ _ _ _ Hciclo).
    destruct sigue.
    + destruct (IH s1 HInv1) as (s' & Heq & HInv' & Hmax' & Hle & Hcota & Hraz);
        [lia|].
      rewrite Hmax1 in Hmax', Hcota, Hraz.
      exists s'. split; [done|]. split; [done|]. split; [done|].
      split; [lia|]. split; [intros _; apply Hcota; lia|]. done.
    + exists s1. split; [done|]. split; [done|]. split; [done|].
      split; [lia|]. split; [lia|]. intros _. split; [by apply HSale|by apply Hfin].
  - exists s. split; [done|]. split; [done|]. split; [done|].
    split; [lia|]. split; [done|]. lia.
Qed.

Hypothesis Inv_razon : ∀ r s, Inv s → Inv (con_razon r s).

Lemma inferir_invariante s :
  Inv (con_ciclos 0 s) →
  ∃ s',
    inferir E kb s = Devuelve (tt, s') ∧
    Inv s' ∧
    max_ciclos s' = max_ciclos s ∧
    0 ≤ ciclos_ejecutados s' ∧
    (0 ≤ max_ciclos s → ciclos_ejecutados s' ≤ max_ciclos s) ∧
    razon_terminacion s' =
      (if max_ciclos s <=? ciclos_ejecutados s'
       then LimiteCiclos (max_ciclos s) else AgendaVacia) ∧
    (ciclos_ejecutados s' < max_ciclos s → Sale s').
Proof.
  intros HInv. unfold inferir.
  rewrite (M_ligar_devuelve (modificar (con_ciclos 0)) _ s tt
             (con_ciclos 0 s) eq_refl).
  rewrite (M_ligar_devuelve leer _ _ _ _ eq_refl).
  destruct (bucle_invariante (Z.to_nat (max_ciclos (con_ciclos 0 s)))
              (con_ciclos 0 s) HInv)
    as (s1 & Heq & HInv1 & Hmax1 & Hle & Hcota & Hraz); [simpl; lia|].
  simpl in Hmax1, Hle, Hcota, Hraz.
  rewrite (M_ligar_devuelve _ _ _ _ _ Heq).
  rewrite (M_ligar_devuelve leer _ _ _ _ eq_refl).
  rewrite Hmax1.
  destruct (max_ciclos s <=? ciclos_ejecutados s1) eqn:Hlim.
  - eexists. split; [reflexivity|]. simpl. rewrite Hlim.
    split; [by apply Inv_razon|]. split; [done|]. split; [done|].
    split; [done|]. split; [done|]. lia.
  - exists s1. split; [reflexivity|]. rewrite Hlim.
    split; [done|]. split; [done|]. split; [done|]. split; [done|].
    split; [apply Hraz; lia|]. intros H. by apply Hraz.
Qed.
End bucle_invariante.

(** ** Without cycles *)

(** X17: when [max_ciclos] is zero or negative [inferir] runs no cycle: it
    touches neither the store nor the agenda, sets the count of cycles to
    zero and reports the cycle limit as the reason. *)
Theorem inferir_sin_ciclos E kb s :
  max_ciclos s ≤ 0 →
  inferir E kb s
    = Devuelve (tt, con_razon (LimiteCiclos (max_ciclos s)) (con_ciclos 0 s)).
Proof.
  intros Hmax. unfold inferir.
  rewrite (M_ligar_devuelve (modificar (con_ciclos 0)) _ s tt
             (con_ciclos 0 s) eq_refl).
  rewrite (M_ligar_devuelve leer _ _ _ _ eq_refl).
  assert (Hbucle : ∀ f, bucle E kb f (con_ciclos 0 s) = Devuelve (tt, con_ciclos 0 s)).
  { intros f. rewrite bucle_eq.
    rewrite (M_ligar_devuelve leer _ _ _ _ eq_refl). simpl.
    destruct (0 <? max_ciclos s) eqn:Hcond; [lia|done]. }
  rewrite (M_ligar_devuelve _ _ _ _ _ (Hbucle _)).
  rewrite (M_ligar_devuelve leer _ _ _ _ eq_refl). simpl.
  destruct (max_ciclos s <=? 0) eqn:Hlim; [done|lia].
Qed.

Lemma inferir_sin_ciclos_witness :
  inferir entorno_simple kb_ejemplo (Sesion_init ESPECIFICIDAD 0)
    = Devuelve (tt, con_razon (LimiteCiclos 0)
                      (con_ciclos 0 (Sesion_init ESPECIFICIDAD 0))).
Proof.
  apply (inferir_sin_ciclos entorno_simple kb_ejemplo (Sesion_init ESPECIFICIDAD 0)).
  simpl. lia.
Defined.

(** ** What the engine does to the store *)

Lemma extiende_refl kb m : extiende kb m m.
Proof. split; [done|]. intros hid h Hh Hn. congruence. Qed.

Lemma extiende_trans kb m1 m2 m3 :
  extiende kb m1 m2 → extiende kb m2 m3 → extiende kb m1 m3.
Proof.
  intros [Hp1 Hn1] [Hp2 Hn2]. split; [auto|].
  intros hid h Hh Hn. destruct (_hechos m2 !! hid) as [h'|] eqn:Hh'.
  - assert (h' = h) as -> by (apply Hp2 in Hh'; congruence). eauto.
  - eauto.
Qed.

Lemma ejecutar_acciones_extiende E kb regla_id regla bindings s ids s' :
  MemoriaTrabajo_ok (memoria s) →
  obtener_regla_por_id kb regla_id = Some regla →
  ejecutar_acciones E regla bindings s = Devuelve (ids, s') →
  MemoriaTrabajo_ok (memoria s') ∧ agenda s' = agenda s ∧
  extiende kb (memoria s) (memoria s').
Proof.
  intros Hok Hkb Heq.
  destruct (ejecutar_resto_spec E regla bindings
              (ReglaProduccionAcademica.acciones regla) [] s Hok)
    as (ids' & s'' & Heq' & Hag & _ & Hok' & Hpres & Hdom & _ & HF).
  unfold ejecutar_acciones in Heq. rewrite Heq' in Heq.
  injection Heq as <- <-.
  split; [done|]. split; [done|]. split; [done|].
  intros hid h Hh Hn.
  assert (Hin : hid ∈ (list_to_set ids' : gset string)).
  { assert (Hd : hid ∈ dom (_hechos (memoria s''))) by (apply elem_of_dom; eauto).
    rewrite Hdom in Hd. apply elem_of_union in Hd as [Hd|Hd]; [|done].
    apply elem_of_dom in Hd as [h' Hh']. congruence. }
  apply elem_of_list_to_set, list_elem_of_lookup in Hin as [i Hi].
  destruct (Forall2_lookup_r _ _ _ _ _ HF Hi)
    as (a & Ha & h' & Hh' & _ & _ & Hp & Hv & Ht & Ho & Hc & Hj).
  assert (h' = h) as -> by congruence.
  apply list_elem_of_lookup_2, list_elem_of_In, filter_In in Ha as [Ha Hcrea].
  exists regla_id, regla, a. split; [done|].
  split; [by apply list_elem_of_In|]. split; [done|]. split; [done|].
  split; [done|]. split; [done|]. split; [done|]. split; [done|].
  by exists bindings.
Qed.

Lemma ciclo_extiende E kb s sigue s' :
  MemoriaTrabajo_ok (memoria s) →
  ciclo E kb s = Devuelve (sigue, s') →
  MemoriaTrabajo_ok (memoria s') ∧ extiende kb (memoria s) (memoria s').
Proof.
  intros Hok Hciclo.
  destruct (ciclo_casos E kb s Hok) as (s1 & Hmatch & Hcasos).
  apply fase_match_marco in Hmatch as [Hmem _]. simpl in Hmem.
  destruct Hcasos as [[_ Heq]|(ref & inst & _ & [[_ Heq]|Hact])].
  - rewrite Heq in Hciclo. injection Hciclo as _ <-. simpl. rewrite Hmem.
    split; [done|apply extiende_refl].
  - rewrite Heq in Hciclo. injection Hciclo as _ <-. rewrite Hmem.
    split; [done|apply extiende_refl].
  - destruct Hact as (regla & ids & s2 & Hkb & Hej & Heq).
    rewrite Heq in Hciclo. injection Hciclo as _ <-. simpl.
    rewrite <- Hmem in Hok |- *.
    destruct (ejecutar_acciones_extiende E kb _ regla _ s1 ids s2 Hok Hkb Hej)
      as (Hok2 & _ & Hext).
    done.
Qed.

Lemma inferir_extiende E kb s :
  MemoriaTrabajo_ok (memoria s) →
  ∃ s',
    inferir E kb s = Devuelve (tt, s') ∧
    MemoriaTrabajo_ok (memoria s') ∧
    extiende kb (memoria s) (memoria s').
Proof.
  intros Hok.
  destruct (inferir_invariante E kb
              (λ s', MemoriaTrabajo_ok (memoria s') ∧
                     extiende kb (memoria s) (memoria s'))
              (λ _, True)) with (s := s)
    as (s' & Heq & [Hok' Hext] & _).
  - by intros s1 [H _].
  - intros s1 sigue s2 [Hok1 Hext1] Hciclo.
    destruct (ciclo_extiende E kb s1 sigue s2 Hok1 Hciclo) as [Hok2 Hext2].
    split; [|done]. split; [done|]. by eapply extiende_trans.
  - done.
  - split; [done|apply extiende_refl].
  - by exists s'.
Qed.



(** ** Leaving the loop on an empty agenda *)

Lemma ciclo_rompe E kb s s' :
  MemoriaTrabajo_ok (memoria s) →
  ciclo E kb s = Devuelve (false, s') →
  memoria s' = memoria s ∧
  esta_vacia (agenda s') = true ∧
  ∀ regla, regla ∈ obtener_reglas kb → regla_cumple E (memoria s) regla = false.
Proof.
  intros Hok Hciclo.
  destruct (ciclo_casos E kb s Hok) as (s1 & Hmatch & Hcasos).
  destruct (fase_match_forma E (obtener_reglas kb)
              (con_ciclos (ciclos_ejecutados s + 1) s) Hok)
    as (s1' & nuevas & Hmatch' & Hmem & _ & Hl & _ & _ & HF & _).
  assert (s1' = s1) as -> by congruence. simpl in Hmem, Hl, HF.
  destruct Hcasos as [[Hsel Heq]|(ref & inst & _ & [[_ Heq]|Hact])].
  - rewrite Heq in Hciclo. injection Hciclo as <-. simpl.
    pose proof (seleccionar_proxima_regla_spec (agenda s1)) as Hspec.
    rewrite Hsel in Hspec.
    split; [done|]. split.
    + unfold esta_vacia. apply forallb_forall. intros r Hin.
      apply Hspec. by apply list_elem_of_In.
    + intros regla Hin. apply not_true_is_false. intros Hcumple.
      assert (Hf : regla ∈ List.filter (regla_cumple E (memoria s))
                                       (obtener_reglas kb)).
      { apply list_elem_of_In, filter_In. split; [by apply list_elem_of_In|done]. }
      apply list_elem_of_lookup in Hf as [i Hi].
      destruct (Forall2_lookup_l _ _ _ _ _ HF Hi) as (a & Ha & _ & _ & _ & _ & _ & Hno).
      assert (Hen : a ∈ _reglas_instanciadas (agenda s1)).
      { rewrite Hl. apply elem_of_app. right. by eapply list_elem_of_lookup_2. }
      apply Hspec in Hen. congruence.
  - rewrite Heq in Hciclo. discriminate Hciclo.
  - destruct Hact as (regla & ids & s2 & _ & _ & Heq).
    rewrite Heq in Hciclo. discriminate Hciclo.
Qed.

(** X19: on a store that satisfies its invariant, when [inferir] ends with
    the reason "agenda empty" the run is complete: every activation of the
    agenda has been executed and no rule of the knowledge base matches the
    final store. *)
Theorem inferir_agenda_vacia_saturada E kb s :
  MemoriaTrabajo_ok (memoria s) →
  ∃ s',
    inferir E kb s = Devuelve (tt, s') ∧
    (razon_terminacion s' = AgendaVacia →
       ciclos_ejecutados s' < max_ciclos s ∧
       esta_vacia (agenda s') = true ∧
       ∀ regla, regla ∈ obtener_reglas kb →
                evaluar_regla E (memoria s') regla = Devuelve None).
Proof.
  intros Hok.
  destruct (inferir_invariante E kb
              (λ s', MemoriaTrabajo_ok (memoria s'))
              (λ s', esta_vacia (agenda s') = true ∧
                     ∀ regla, regla ∈ obtener_reglas kb →
                              regla_cumple E (memoria s') regla = false))
    with (s := s)
    as (s' & Heq & Hok' & _ & _ & _ & Hraz & HQ).
  - done.
  - intros s1 sigue s2 Hok1 Hciclo.
    split; [by destruct (ciclo_extiende E kb s1 sigue s2 Hok1 Hciclo)|].
    intros ->. destruct (ciclo_rompe E kb s1 s2 Hok1 Hciclo) as (Hmem & Hv & Hno).
    rewrite Hmem. done.
  - done.
  - done.
  - exists s'. split; [done|]. intros Hr. rewrite Hr in Hraz.
    destruct (max_ciclos s <=? ciclos_ejecutados s') eqn:Hlim; [done|].
    assert (Hlt : ciclos_ejecutados s' < max_ciclos s) by lia.
    destruct (HQ Hlt) as [Hv Hno]. split; [done|]. split; [done|].
    intros regla Hin. specialize (Hno regla Hin).
    pose proof (regla_cumple_evaluar E (memoria s') regla Hok') as H.
    by rewrite Hno in H.
Qed.

Lemma inferir_agenda_vacia_saturada_witness :
  ∃ s',
    inferir entorno_simple kb_sansevieria sesion_ejemplo = Devuelve (tt, s') ∧
    (razon_terminacion s' = AgendaVacia →
       ciclos_ejecutados s' < max_ciclos sesion_ejemplo ∧
       esta_vacia (agenda s') = true ∧
       ∀ regla, regla ∈ obtener_reglas kb_sansevieria →
                evaluar_regla entorno_simple (memoria s') regla = Devuelve None).
Proof.
  exact (inferir_agenda_vacia_saturada entorno_simple kb_sansevieria
           sesion_ejemplo memoria_ejemplo_ok).
Defined.

(** ** A rule that always matches *)



(** ** What the engine does to the agenda *)

Lemma Agenda_init_ok e : Agenda_ok (Agenda_init e).
Proof.
  split; [constructor|]. intros i. simpl. split.
  - intros H. by apply elem_of_nil in H.
  - intros (r & Hr & _). by rewrite lookup_nil in Hr.
Qed.

Lemma Agenda_ok_app ag ag' nuevas :
  Agenda_ok ag →
  _reglas_instanciadas ag' = _reglas_instanciadas ag ++ nuevas →
  _historial_ejecucion ag' = _historial_ejecucion ag →
  Forall (λ a, ReglaInstanciada.ya_ejecutada a = false) nuevas →
  Agenda_ok ag'.
Proof.
  intros [Hnd Hiff] Hl Hh Hno. split; [by rewrite Hh|].
  intros i. rewrite Hh, Hl, Hiff. split.
  - intros (r & Hr & He). exists r. split; [|done].
    by apply lookup_app_l_Some.
  - intros (r & Hr & He). apply lookup_app_Some in Hr as [Hr|[_ Hr]]; [eauto|].
    apply list_elem_of_lookup_2 in Hr.
    rewrite Forall_forall in Hno. apply Hno in Hr. congruence.
Qed.

Lemma Agenda_ok_marcar ag i r :
  Agenda_ok ag →
  _reglas_instanciadas ag !! i = Some r →
  ReglaInstanciada.ya_ejecutada r = false →
  Agenda_ok (marcar_como_ejecutada ag i).
Proof.
  intros [Hnd Hiff] Hi Hr. split; simpl.
  - apply NoDup_app. split; [done|]. split; [|apply NoDup_singleton].
    intros j Hj Hji. apply list_elem_of_singleton in Hji as ->.
    apply Hiff in Hj as (r' & Hr' & He). congruence.
  - intros j. rewrite elem_of_app, list_elem_of_singleton.
    destruct (decide (j = i)) as [->|Hne].
    + rewrite list_lookup_alter_eq, Hi. simpl. split; [eauto|by right].
    + rewrite list_lookup_alter_ne by done. rewrite Hiff. split.
      * by intros [H|H].
      * by left.
Qed.

Lemma agenda_continua_refl ag : agenda_continua ag ag.
Proof.
  split; [done|]. split; [exists []; by rewrite app_nil_r|]. eauto.
Qed.

Lemma agenda_continua_trans ag1 ag2 ag3 :
  agenda_continua ag1 ag2 → agenda_continua ag2 ag3 → agenda_continua ag1 ag3.
Proof.
  intros (He1 & [n1 Hh1] & Hl1) (He2 & [n2 Hh2] & Hl2).
  split; [congruence|]. split.
  - exists (n1 ++ n2). by rewrite Hh2, Hh1, app_assoc.
  - intros i a Ha. destruct (Hl1 i a Ha) as (a' & Ha' & Heq' & Hej').
    destruct (Hl2 i a' Ha') as (a'' & Ha'' & Heq'' & Hej'').
    exists a''. split; [done|]. split; [congruence|auto].
Qed.

Lemma ciclo_agenda E kb s sigue s' :
  MemoriaTrabajo_ok (memoria s) →
  Agenda_ok (agenda s) →
  ciclo E kb s = Devuelve (sigue, s') →
  Agenda_ok (agenda s') ∧
  agenda_continua (agenda s) (agenda s') ∧
  (length (_historial_ejecucion (agenda s'))
   ≤ S (length (_historial_ejecucion (agenda s))))%nat.
Proof.
  intros Hok Hag Hciclo.
  destruct (ciclo_casos E kb s Hok) as (s1 & Hmatch & Hcasos).
  destruct (fase_match_forma E (obtener_reglas kb)
              (con_ciclos (ciclos_ejecutados s + 1) s) Hok)
    as (s1' & nuevas & Hmatch' & Hmem & _ & Hl & He & Hh & HF & _).
  assert (s1' = s1) as -> by congruence. simpl in Hmem, Hl, He, Hh, HF.
  assert (Hag1 : Agenda_ok (agenda s1)).
  { apply (Agenda_ok_app (agenda s) _ nuevas Hag Hl Hh).
    apply Forall_forall. intros a Ha.
    apply list_elem_of_lookup in Ha as [i Hi].
    by destruct (Forall2_lookup_r _ _ _ _ _ HF Hi) as (r & _ & _ & _ & _ & _ & _ & ?). }
  assert (Hcont1 : agenda_continua (agenda s) (agenda s1)).
  { split; [done|]. split; [exists []; by rewrite app_nil_r|].
    intros i a Ha. exists a. split; [|done].
    rewrite Hl. by apply lookup_app_l_Some. }
  destruct Hcasos as [[_ Heq]|(ref & inst & Hsel & [[_ Heq]|Hact])].
  - rewrite Heq in Hciclo. injection Hciclo as _ <-. simpl.
    split; [done|]. split; [done|]. rewrite Hh. lia.
  - rewrite Heq in Hciclo. injection Hciclo as _ <-.
    split; [done|]. split; [done|]. rewrite Hh. lia.
  - destruct Hact as (regla & ids & s2 & Hkb & Hej & Heq).
    rewrite Heq in Hciclo. injection Hciclo as _ <-. simpl.
    assert (Hok1 : MemoriaTrabajo_ok (memoria s1)) by (by rewrite Hmem).
    destruct (ejecutar_acciones_extiende E kb _ regla _ s1 ids s2 Hok1 Hkb Hej)
      as (_ & Hag2 & _).
    rewrite Hag2.
    pose proof (seleccionar_proxima_regla_spec (agenda s1)) as Hspec.
    rewrite Hsel in Hspec. destruct Hspec as (Hi & Hr & _).
    split; [by eapply Agenda_ok_marcar|]. split.
    + apply (agenda_continua_trans _ (agenda s1)); [done|].
      split; [done|]. split; [by exists [ref]|].
      intros i a Ha. simpl. destruct (decide (i = ref)) as [->|Hne].
      * rewrite list_lookup_alter_eq, Ha. simpl. eexists. split; [done|].
        split; [by destruct a|done].
      * rewrite list_lookup_alter_ne by done. eauto.
    + simpl. rewrite length_app, Hh. simpl. lia.
Qed.

(** X21: on a store and an agenda that satisfy their invariants, [inferir]
    executes no activation twice and at most one in each cycle: at the end
    the history still lists exactly the executed activations, each once, it
    extends the earlier history by no more entries than cycles were run, and
    every activation the agenda held is still in its place, changed at most
    in that it has been executed. *)
Theorem inferir_historial_sin_repeticion E kb s :
  MemoriaTrabajo_ok (memoria s) →
  Agenda_ok (agenda s) →
  ∃ s',
    inferir E kb s = Devuelve (tt, s') ∧
    Agenda_ok (agenda s') ∧
    agenda_continua (agenda s) (agenda s') ∧
    Z.of_nat (length (_historial_ejecucion (agenda s')))
      ≤ Z.of_nat (length (_historial_ejecucion (agenda s))) + ciclos_ejecutados s'.
Proof.
  intros Hok Hag.
  destruct (inferir_invariante E kb
              (λ s', MemoriaTrabajo_ok (memoria s') ∧
                     Agenda_ok (agenda s') ∧
                     agenda_continua (agenda s) (agenda s') ∧
                     Z.of_nat (length (_historial_ejecucion (agenda s')))
                       ≤ Z.of_nat (length (_historial_ejecucion (agenda s)))
                         + ciclos_ejecutados s')
              (λ _, True))
    with (s := s)
    as (s' & Heq & (_ & Hag' & Hcont & Hlen) & _).
  - by intros s1 [H _].
  - intros s1 sigue s2 (Hok1 & Hag1 & Hcont1 & Hlen1) Hciclo.
    destruct (ciclo_extiende E kb s1 sigue s2 Hok1 Hciclo) as [Hok2 _].
    destruct (ciclo_agenda E kb s1 sigue s2 Hok1 Hag1 Hciclo)
      as (Hag2 & Hcont2 & Hlen2).
    destruct (ciclo_spec E kb s1 Hok1)
      as (sigue' & s2' & Hciclo' & _ & _ & Hcic & _).
    assert (s2' = s2) as -> by congruence.
    split; [|done]. split; [done|]. split; [done|].
    split; [by eapply agenda_continua_trans|]. lia.
  - done.
  - simpl. split; [done|]. split; [done|].
    split; [apply agenda_continua_refl|]. lia.
  - by exists s'.
Qed.

Lemma inferir_historial_sin_repeticion_witness :
  ∃ s',
    inferir entorno_simple kb_ejemplo sesion_ejemplo = Devuelve (tt, s') ∧
    Agenda_ok (agenda s') ∧
    agenda_continua (agenda sesion_ejemplo) (agenda s') ∧
    Z.of_nat (length (_historial_ejecucion (agenda s')))
      ≤ Z.of_nat (length (_historial_ejecucion (agenda sesion_ejemplo)))
        + ciclos_ejecutados s'.
Proof.
  exact (inferir_historial_sin_repeticion entorno_simple kb_ejemplo
           sesion_ejemplo memoria_ejemplo_ok (Agenda_init_ok ESPECIFICIDAD)).
Defined.
(** ** base_conocimiento.py: the index of the rules *)

Lemma foldl_indice_reglas (reglas : list ReglaProduccionAcademica.t) :
  ∀ (d : gmap string ReglaProduccionAcademica.t) regla_id,
  foldl (λ d r, <[ReglaProduccionAcademica.id r := r]> d) d reglas !! regla_id
  = match last (List.filter
                  (λ r, String.eqb (ReglaProduccionAcademica.id r) regla_id)
                  reglas) with
    | Some r => Some r
    | None => d !! regla_id
    end.
Proof.
  induction reglas as [|r reglas IH]; intros d regla_id; [done|].
  simpl. rewrite IH.
  destruct (String.eqb (ReglaProduccionAcademica.id r) regla_id) eqn:Hid.
  - apply String.eqb_eq in Hid. rewrite last_cons.
    destruct (last _); [done|]. by rewrite <- Hid, lookup_insert_eq.
  - apply String.eqb_neq in Hid.
    destruct (last _); [done|]. by rewrite lookup_insert_ne.
Qed.

(** X22: [obtener_regla_por_id] returns the last rule of the list that has
    the id asked for, and nothing when no rule has it; a rule it returns is
    listed and has that id.  When the ids of the list are pairwise distinct
    it finds every rule of the list under the rule's own id; in general
    the rule found under the id of a listed rule stands at that rule's place
    or later in the list, so that the activations of a rule whose id a later
    rule repeats run the actions of the later rule. *)
Theorem base_de_reglas_busqueda reglas :
  (∀ regla_id,
     obtener_regla_por_id (base_de_reglas reglas) regla_id
     = last (List.filter
               (λ r, String.eqb (ReglaProduccionAcademica.id r) regla_id)
               reglas)) ∧
  (∀ regla_id regla,
     obtener_regla_por_id (base_de_reglas reglas) regla_id = Some regla →
     regla ∈ reglas ∧ ReglaProduccionAcademica.id regla = regla_id) ∧
  (NoDup (ReglaProduccionAcademica.id <$> reglas) →
   ∀ regla, regla ∈ reglas →
     obtener_regla_por_id (base_de_reglas reglas)
       (ReglaProduccionAcademica.id regla) = Some regla) ∧
  (∀ j r2, reglas !! j = Some r2 →
     ∃ k r, (j ≤ k)%nat ∧ reglas !! k = Some r ∧
            obtener_regla_por_id (base_de_reglas reglas)
              (ReglaProduccionAcademica.id r2) = Some r).
Proof.
  assert (Hlast : ∀ regla_id,
    obtener_regla_por_id (base_de_reglas reglas) regla_id
    = last (List.filter
              (λ r, String.eqb (ReglaProduccionAcademica.id r) regla_id)
              reglas)).
  { intros regla_id. simpl. rewrite foldl_indice_reglas.
    by destruct (last _). }
  assert (Hen : ∀ regla_id regla,
    obtener_regla_por_id (base_de_reglas reglas) regla_id = Some regla →
    regla ∈ reglas ∧ ReglaProduccionAcademica.id regla = regla_id).
  { intros regla_id regla. rewrite Hlast. intros Hl.
    apply last_Some_elem_of, list_elem_of_In, filter_In in Hl as [Hin Hid].
    split; [by apply list_elem_of_In|by apply String.eqb_eq]. }
  split; [done|]. split; [done|]. split.
  - intros Hnd regla Hin.
    destruct (base_de_reglas_encuentra reglas regla Hin) as [r' Hr'].
    rewrite Hr'. f_equal.
    destruct (Hen _ _ Hr') as [Hin' Hid'].
    apply list_elem_of_lookup in Hin as [i Hi].
    apply list_elem_of_lookup in Hin' as [j Hj].
    assert (i = j) as ->; [|congruence].
    apply (NoDup_lookup _ i j (ReglaProduccionAcademica.id regla) Hnd).
    + by rewrite list_lookup_fmap, Hi.
    + by rewrite list_lookup_fmap, Hj, <- Hid'.
  - intros j r2 Hj. rewrite Hlast.
    set (f := λ r, String.eqb (ReglaProduccionAcademica.id r)
                              (ReglaProduccionAcademica.id r2)).
    assert (Hparte : last (List.filter f reglas)
      = match last (List.filter f (drop (S j) reglas)) with
        | Some r => Some r
        | None => Some r2
        end).
    { rewrite <- (take_drop j reglas) at 1.
      rewrite List.filter_app, last_app, (drop_S _ _ _ Hj). simpl.
      assert (f r2 = true) as -> by apply String.eqb_refl.
      rewrite last_cons. by destruct (last _). }
    rewrite Hparte.
    destruct (last (List.filter f (drop (S j) reglas))) as [r|] eqn:Hl.
    + apply last_Some_elem_of, list_elem_of_In, filter_In in Hl as [Hin _].
      apply list_elem_of_In, list_elem_of_lookup in Hin as [k Hk].
      rewrite lookup_drop in Hk. exists (S j + k)%nat, r. split; [lia|done].
    + exists j, r2. split; [lia|done].
Qed.
(** ** A consultation *)

Lemma sembrar_forma E hechos_iniciales : ∀ s,
  MemoriaTrabajo_ok (memoria s) →
  ∃ s',
    sembrar E hechos_iniciales s = Devuelve (tt, s') ∧
    MemoriaTrabajo_ok (memoria s') ∧
    agenda s' = agenda s ∧ mismo_motor s s' ∧
    lecturas s' = (lecturas s + length hechos_iniciales)%nat ∧
    _contador_hechos (memoria s')
      = (_contador_hechos (memoria s) + N.of_nat (length hechos_iniciales))%N ∧
    (∀ hid h, _hechos (memoria s) !! hid = Some h →
              _hechos (memoria s') !! hid = Some h) ∧
    (∀ i p v, hechos_iniciales !! i = Some (p, v) →
       _hechos (memoria s')
         !! id_de_numero (_contador_hechos (memoria s) + N.of_nat (S i))
       = Some (Hecho.mk
                 (id_de_numero (_contador_hechos (memoria s) + N.of_nat (S i)))
                 p v INICIAL None (reloj E (lecturas s + i))
                 "Dato de entrada del usuario" 1%Q)) ∧
    (∀ hid h, _hechos (memoria s') !! hid = Some h →
              _hechos (memoria s) !! hid = None →
              ∃ i, (i < length hechos_iniciales)%nat ∧
                   hid = id_de_numero (_contador_hechos (memoria s)
                                       + N.of_nat (S i))).
Proof.
  induction hechos_iniciales as [|[p v] resto IH]; intros s Hok.
  - exists s. simpl. rewrite Nat.add_0_r, N.add_0_r.
    split; [done|]. split; [done|]. split; [done|].
    split; [apply mismo_motor_refl|]. split; [done|]. split; [done|].
    split; [done|]. split.
    + intros i p v Hi. by rewrite lookup_nil in Hi.
    + intros hid h Hh Hn. congruence.
  - destruct (assert_hecho_M_forma E p v INICIAL None
                "Dato de entrada del usuario" 1%Q s Hok)
      as (s1 & Heq & Hag1 & Hmot1 & Hlec1 & Hok1 & Hcont1 & Hhechos1 & Hlibre1).
    destruct (IH s1 Hok1)
      as (s' & Hresto & Hok' & Hag & Hmot & Hlec & Hcont & Hpres & Hnuevos & Hdom).
    exists s'. split.
    { change (sembrar E ((p, v) :: resto) s)
        with (M_ligar (assert_hecho_M E p v INICIAL None
                         "Dato de entrada del usuario" 1%Q)
                (λ _, sembrar E resto) s).
      by rewrite (M_ligar_devuelve _ _ _ _ _ Heq). }
    split; [done|]. split; [congruence|]. split; [by eapply mismo_motor_trans|].
    split; [simpl; lia|]. split; [simpl length; lia|]. split.
    { intros hid h Hh. apply Hpres. rewrite Hhechos1, lookup_insert_ne; [done|].
      intros <-. congruence. }
    split.
    + intros [|i] p' v' Hi; simpl in Hi.
      * injection Hi as <- <-. apply Hpres. rewrite Hhechos1.
        rewrite Nat.add_0_r.
        replace (_contador_hechos (memoria s) + N.of_nat 1)%N
          with (_contador_hechos (memoria s) + 1)%N by lia.
        apply lookup_insert_eq.
      * specialize (Hnuevos i p' v' Hi). rewrite Hcont1, Hlec1 in Hnuevos.
        replace (_contador_hechos (memoria s) + N.of_nat (S (S i)))%N
          with (_contador_hechos (memoria s) + 1 + N.of_nat (S i))%N by lia.
        replace (lecturas s + S i)%nat with (S (lecturas s) + i)%nat by lia.
        done.
    + intros hid h Hh Hn.
      destruct (_hechos (memoria s1) !! hid) as [h1|] eqn:Hh1.
      * exists 0%nat. split; [simpl; lia|].
        rewrite Hhechos1, lookup_insert in Hh1. case_decide as Hd; [|congruence].
        rewrite <- Hd. f_equal; lia.
      * destruct (Hdom hid h Hh Hh1) as (i & Hi & ->).
        exists (S i). split; [simpl; lia|]. f_equal. rewrite Hcont1. lia.
Qed.

(** ** What a consultation does not depend on *)

Lemma ajeno_devolver {A : Type} (a : A) : ajeno_al_motor (devolver a).
Proof. by intros r f s. Qed.

Lemma ajeno_ligar {A B : Type} (c : M A) (k : A → M B) :
  ajeno_al_motor c → (∀ a, ajeno_al_motor (k a)) → ajeno_al_motor (M_ligar c k).
Proof.
  intros Hc Hk r f s. unfold M_ligar. rewrite Hc.
  destruct (c s) as [[a s']| |]; simpl; [apply Hk|done|done].
Qed.

Lemma ajeno_assert_hecho_M E p v ty o j c :
  ajeno_al_motor (assert_hecho_M E p v ty o j c).
Proof.
  intros r f s. unfold assert_hecho_M. desplegar_M.
  by destruct (assert_hecho _ _ _ _ _ _ _ _) as [[hid m']| |].
Qed.

Lemma ajeno_ejecutar_accion E regla bindings a creados :
  ajeno_al_motor (ejecutar_accion E regla bindings a creados).
Proof.
  unfold ejecutar_accion.
  destruct (AccionRegla.tipo a);
    first [ apply ajeno_devolver
          | apply ajeno_ligar;
            [apply ajeno_assert_hecho_M|intros ?; apply ajeno_devolver] ].
Qed.

Lemma ajeno_ejecutar_resto E regla bindings acciones : ∀ creados,
  ajeno_al_motor (ejecutar_resto E regla bindings acciones creados).
Proof.
  induction acciones as [|a acciones IH]; intros creados; simpl.
  - apply ajeno_devolver.
  - apply ajeno_ligar; [apply ajeno_ejecutar_accion|done].
Qed.

Lemma ajeno_activar_regla_M E regla_id bindings activadores esp prio :
  ajeno_al_motor (activar_regla_M E regla_id bindings activadores esp prio).
Proof. by intros r f s. Qed.

Lemma ajeno_fase_match E reglas : ajeno_al_motor (fase_match E reglas).
Proof.
  induction reglas as [|regla reglas IH].
  - apply ajeno_devolver.
  - intros r f s.
    assert (Hforma : ∀ s, fase_match E (regla :: reglas) s
      = M_ligar (elevar (evaluar_regla E (memoria s) regla))
          (λ resultado_eval,
             M_ligar
               match resultado_eval with
               | Some bindings =>
                   activar_regla_M E (ReglaProduccionAcademica.id regla) bindings []
                     (ReglaProduccionAcademica.especificidad regla)
                     (ReglaProduccionAcademica.prioridad regla)
               | None => devolver tt
               end
               (λ _, fase_match E reglas)) s) by done.
    rewrite !Hforma.
    change (memoria (con_motor r f s)) with (memoria s).
    unfold M_ligar at 1 3, elevar, res_map, res_ligar.
    destruct (evaluar_regla E (memoria s) regla) as [[b|]| |]; [| |done|done].
    + apply ajeno_ligar; [apply ajeno_activar_regla_M|done].
    + apply ajeno_ligar; [apply ajeno_devolver|done].
Qed.

Lemma ajeno_fase_act E kb ref inst : ajeno_al_motor (fase_act E kb ref inst).
Proof.
  unfold fase_act.
  destruct (obtener_regla_por_id kb _) as [regla|]; [|apply ajeno_devolver].
  apply ajeno_ligar; [apply ajeno_ejecutar_resto|]. by intros _ r f s.
Qed.

Lemma ajeno_sembrar E hechos_iniciales : ajeno_al_motor (sembrar E hechos_iniciales).
Proof.
  induction hechos_iniciales as [|[p v] resto IH]; simpl.
  - apply ajeno_devolver.
  - apply ajeno_ligar; [apply ajeno_assert_hecho_M|done].
Qed.

Lemma ciclo_eq E kb s :
  ciclo E kb s
  = match fase_match E (obtener_reglas kb)
            (con_ciclos (ciclos_ejecutados s + 1) s) with
    | Devuelve (_, s1) =>
        match seleccionar_proxima_regla (agenda s1) with
        | Devuelve (Some (ref, inst)) =>
            match fase_act E kb ref inst s1 with
            | Devuelve (_, s2) => Devuelve (true, s2)
            | Lanza e => Lanza e
            | SinCombustible => SinCombustible
            end
        | Devuelve None => Devuelve (false, con_razon AgendaVacia s1)
        | Lanza e => Lanza e
        | SinCombustible => SinCombustible
        end
    | Lanza e => Lanza e
    | SinCombustible => SinCombustible
    end.
Proof.
  unfold ciclo.
  rewrite (M_ligar_devuelve
             (modificar (λ s, con_ciclos (ciclos_ejecutados s + 1) s)) _ s tt
             _ eq_refl).
  unfold M_ligar at 1.
  destruct (fase_match E (obtener_reglas kb) _) as [[u s1]| |]; [|done|done].
  rewrite (M_ligar_devuelve leer _ s1 _ _ eq_refl).
  unfold M_ligar at 1, elevar, res_map, res_ligar.
  destruct (seleccionar_proxima_regla (agenda s1)) as [[[ref inst]|]| |];
    [| |done|done].
  - unfold M_ligar.
    by destruct (fase_act E kb ref inst s1) as [[u' s2]| |].
  - reflexivity.
Qed.

Lemma ciclo_con_razon E kb r s :
  ciclo E kb (con_razon r s)
  = match ciclo E kb s with
    | Devuelve (true, s') => Devuelve (true, con_razon r s')
    | otro => otro
    end.
Proof.
  rewrite !ciclo_eq.
  change (con_ciclos (ciclos_ejecutados (con_razon r s) + 1) (con_razon r s))
    with (con_motor r id (con_ciclos (ciclos_ejecutados s + 1) s)).
  rewrite ajeno_fase_match.
  destruct (fase_match E (obtener_reglas kb) _) as [[u s1]| |]; [|done|done].
  simpl.
  destruct (seleccionar_proxima_regla (agenda s1)) as [[[ref inst]|]| |];
    [| |done|done].
  - rewrite ajeno_fase_act.
    by destruct (fase_act E kb ref inst s1) as [[u' s2]| |].
  - reflexivity.
Qed.

Lemma M_ligar_eq {A B : Type} (c : M A) (k : A → M B) s :
  M_ligar c k s
  = match c s with
    | Devuelve (a, s') => k a s'
    | Lanza e => Lanza e
    | SinCombustible => SinCombustible
    end.
Proof. done. Qed.

Lemma bucle_con_razon E kb r : ∀ combustible s,
  match bucle E kb combustible s with
  | Devuelve (u, s') =>
      bucle E kb combustible (con_razon r s) = Devuelve (u, s') ∨
      (bucle E kb combustible (con_razon r s) = Devuelve (u, con_razon r s') ∧
       (ciclos_ejecutados s' <? max_ciclos s') = false)
  | Lanza e => bucle E kb combustible (con_razon r s) = Lanza e
  | SinCombustible => bucle E kb combustible (con_razon r s) = SinCombustible
  end.
Proof.
  induction combustible as [|f IH]; intros s;
    match goal with
    | |- context [bucle E kb ?c s] => rewrite (bucle_eq E kb c)
    end;
    rewrite (M_ligar_devuelve leer _ s s s eq_refl);
    rewrite (M_ligar_devuelve leer _ (con_razon r s) _ _ eq_refl);
    change (ciclos_ejecutados (con_razon r s)) with (ciclos_ejecutados s);
    change (max_ciclos (con_razon r s)) with (max_ciclos s);
    destruct (ciclos_ejecutados s <? max_ciclos s) eqn:Hcond.
  - done.
  - right. done.
  - rewrite !(M_ligar_eq (ciclo E kb)), ciclo_con_razon.
    destruct (ciclo E kb s) as [[[|] s1]| |]; [|by left|done|done].
    apply IH.
  - right. done.
Qed.

Lemma inferir_con_motor E kb r f s :
  inferir E kb (con_motor r f s) = inferir E kb s.
Proof.
  unfold inferir.
  rewrite (M_ligar_devuelve (modificar (con_ciclos 0)) _ _ tt _ eq_refl).
  rewrite (M_ligar_devuelve (modificar (con_ciclos 0)) _ s tt _ eq_refl).
  change (con_ciclos 0 (con_motor r f s)) with (con_razon r (con_ciclos 0 s)).
  rewrite (M_ligar_devuelve leer _ _ _ _ eq_refl).
  rewrite (M_ligar_devuelve leer _ (con_ciclos 0 s) _ _ eq_refl).
  change (max_ciclos (con_razon r (con_ciclos 0 s))) with (max_ciclos s).
  change (max_ciclos (con_ciclos 0 s)) with (max_ciclos s).
  pose proof (bucle_con_razon E kb r (Z.to_nat (max_ciclos s)) (con_ciclos 0 s))
    as Hb.
  unfold M_ligar at 1 3.
  destruct (bucle E kb (Z.to_nat (max_ciclos s)) (con_ciclos 0 s))
    as [[[] s']| |]; [|by rewrite Hb|by rewrite Hb].
  destruct Hb as [->|[-> Hcond]]; [done|].
  rewrite (M_ligar_devuelve leer _ _ _ _ eq_refl).
  rewrite (M_ligar_devuelve leer _ s' _ _ eq_refl).
  change (max_ciclos (con_razon r s')) with (max_ciclos s').
  change (ciclos_ejecutados (con_razon r s')) with (ciclos_ejecutados s').
  destruct (max_ciclos s' <=? ciclos_ejecutados s') eqn:Hlim; [done|lia].
Qed.

(** X24: a consultation does not depend on what earlier consultations left
    in the session: from two sessions that agree on the strategy of the
    agenda, on [max_ciclos] and on the clock, whatever their stores, agendas,
    reasons and counts of cycles, [consultar] gives the same outcome and
    leaves the same session. *)
Theorem consultar_olvida E kb hechos_iniciales s1 s2 :
  _estrategia (agenda s1) = _estrategia (agenda s2) →
  max_ciclos s1 = max_ciclos s2 →
  lecturas s1 = lecturas s2 →
  consultar E kb hechos_iniciales s1 = consultar E kb hechos_iniciales s2.
Proof.
  intros He Hmax Hlec.
  set (base := λ s : Sesion,
    {| memoria := MemoriaTrabajo_init;
       agenda := Agenda_init (_estrategia (agenda s));
       max_ciclos := max_ciclos s;
       razon_terminacion := SinRazon;
       ciclos_ejecutados := 0;
       lecturas := lecturas s |}).
  assert (Hbase : ∀ s,
    consultar E kb hechos_iniciales s
    = M_ligar (sembrar E hechos_iniciales) (λ _, inferir E kb)
        (con_motor (razon_terminacion s) (λ _, ciclos_ejecutados s) (base s)))
    by done.
  rewrite !Hbase. unfold base. rewrite He, Hmax, Hlec.
  rewrite !M_ligar_eq, !ajeno_sembrar.
  destruct (sembrar E hechos_iniciales _) as [[u s']| |]; [|done|done].
  simpl. by rewrite !inferir_con_motor.
Qed.

Lemma consultar_olvida_witness :
  consultar entorno_simple kb_sansevieria hechos_interior sesion_usada
  = consultar entorno_simple kb_sansevieria hechos_interior
      (Sesion_init ESPECIFICIDAD 10).
Proof.
  apply (consultar_olvida entorno_simple kb_sansevieria hechos_interior
           sesion_usada (Sesion_init ESPECIFICIDAD 10)); reflexivity.
Defined.

(** ** Rules that match the initial store *)

Lemma ciclo_detalle E kb s sigue s' :
  MemoriaTrabajo_ok (memoria s) →
  ciclo E kb s = Devuelve (sigue, s') →
  ∃ nuevas,
    Forall2 (activacion_de E (memoria s))
            (List.filter (regla_cumple E (memoria s)) (obtener_reglas kb))
            nuevas ∧
    ciclos_ejecutados s' = ciclos_ejecutados s + 1 ∧
    ((memoria s' = memoria s ∧
      _reglas_instanciadas (agenda s') = _reglas_instanciadas (agenda s) ++ nuevas) ∨
     ∃ ref inst regla ids,
       (_reglas_instanciadas (agenda s) ++ nuevas) !! ref = Some inst ∧
       ReglaInstanciada.ya_ejecutada inst = false ∧
       obtener_regla_por_id kb (ReglaInstanciada.regla_id inst) = Some regla ∧
       _reglas_instanciadas (agenda s')
         = alter (ReglaInstanciada.con_ya_ejecutada true) ref
                 (_reglas_instanciadas (agenda s) ++ nuevas) ∧
       Forall2 (hecho_creado_por regla (ReglaInstanciada.bindings inst) s s')
               (List.filter (λ a, crea_hecho (AccionRegla.tipo a))
                            (ReglaProduccionAcademica.acciones regla)) ids).
Proof.
  intros Hok Hciclo.
  destruct (ciclo_casos E kb s Hok) as (s1 & Hmatch & Hcasos).
  destruct (fase_match_forma E (obtener_reglas kb)
              (con_ciclos (ciclos_ejecutados s + 1) s) Hok)
    as (s1' & nuevas & Hmatch' & Hmem & (_ & Hcic & _) & Hl & _ & _ & HF & _).
  assert (s1' = s1) as -> by congruence. simpl in Hmem, Hl, HF, Hcic.
  exists nuevas. split; [done|].
  destruct Hcasos as [[_ Heq]|(ref & inst & Hsel & [[_ Heq]|Hact])].
  - rewrite Heq in Hciclo. injection Hciclo as _ <-. simpl.
    split; [done|]. by left.
  - rewrite Heq in Hciclo. injection Hciclo as _ <-.
    split; [done|]. by left.
  - destruct Hact as (regla & ids & s2 & Hkb & Hej & Heq).
    rewrite Heq in Hciclo. injection Hciclo as _ <-. simpl.
    assert (Hok1 : MemoriaTrabajo_ok (memoria s1)) by (by rewrite Hmem).
    destruct (ejecutar_resto_spec E regla (ReglaInstanciada.bindings inst)
                (ReglaProduccionAcademica.acciones regla) [] s1 Hok1)
      as (ids' & s2' & Hej' & Hag2 & (_ & Hcic2 & _) & _ & _ & _ & _ & HFc).
    unfold ejecutar_acciones in Hej. rewrite Hej' in Hej.
    injection Hej as <- <-.
    split; [congruence|]. right.
    pose proof (seleccionar_proxima_regla_spec (agenda s1)) as Hspec.
    rewrite Hsel in Hspec. destruct Hspec as (Hi & Hr & _).
    exists ref, inst, regla, ids'. rewrite <- Hl.
    split; [done|]. split; [done|]. split; [done|]. split; [by rewrite Hag2|].
    eapply Forall2_impl; [exact HFc|]. simpl.
    intros a hid (h & Hh & Hn & Hrest). exists h. simpl.
    split; [done|]. split; [by rewrite <- Hmem|done].
Qed.

(** X25: on a store that satisfies its invariant and with at least one
    cycle allowed, when [inferir] leaves the agenda exhausted every rule of
    the knowledge base that matched the store as it was at the start, and
    that the knowledge base finds under its id, has fired: the final store
    holds, for each of its ASSERT, CONCLUDE or RECOMMEND actions, a fact of
    the action's predicate that is new and has the rule as origin.  A rule
    activated in the first cycle fires even when a rule fired before it has
    closed its guard, so that several rules guarded by the same NO_EXISTE
    condition each leave their conclusion. *)
Theorem inferir_dispara_las_que_cumplian E kb s :
  MemoriaTrabajo_ok (memoria s) →
  0 < max_ciclos s →
  ∃ s',
    inferir E kb s = Devuelve (tt, s') ∧
    (esta_vacia (agenda s') = true →
     ∀ regla a,
       regla ∈ obtener_reglas kb →
       regla_cumple E (memoria s) regla = true →
       obtener_regla_por_id kb (ReglaProduccionAcademica.id regla) = Some regla →
       a ∈ ReglaProduccionAcademica.acciones regla →
       crea_hecho (AccionRegla.tipo a) = true →
       ∃ h, hecho_de (memoria s') (AccionRegla.predicado a) h ∧
            Hecho.origen h = Some (ReglaProduccionAcademica.id regla) ∧
            _hechos (memoria s) !! Hecho.id h = None).
Proof.
  intros Hok Hmax.
  set (n0 := length (_reglas_instanciadas (agenda s))).
  set (disparadas := λ s1 : Sesion, ∀ i a regla act,
    (n0 ≤ i)%nat →
    _reglas_instanciadas (agenda s1) !! i = Some a →
    ReglaInstanciada.ya_ejecutada a = true →
    obtener_regla_por_id kb (ReglaInstanciada.regla_id a) = Some regla →
    act ∈ ReglaProduccionAcademica.acciones regla →
    crea_hecho (AccionRegla.tipo act) = true →
    ∃ h, hecho_de (memoria s1) (AccionRegla.predicado act) h ∧
         Hecho.origen h = Some (ReglaProduccionAcademica.id regla) ∧
         _hechos (memoria s) !! Hecho.id h = None).
  set (activadas := λ s1 : Sesion, ∀ regla,
    regla ∈ obtener_reglas kb →
    regla_cumple E (memoria s) regla = true →
    ∃ i a, (n0 ≤ i)%nat ∧
           _reglas_instanciadas (agenda s1) !! i = Some a ∧
           ReglaInstanciada.regla_id a = ReglaProduccionAcademica.id regla).
  destruct (inferir_invariante E kb
              (λ s1, MemoriaTrabajo_ok (memoria s1) ∧
                     extiende kb (memoria s) (memoria s1) ∧
                     0 ≤ ciclos_ejecutados s1 ∧
                     (n0 ≤ length (_reglas_instanciadas (agenda s1)))%nat ∧
                     (ciclos_ejecutados s1 = 0 →
                        memoria s1 = memoria s ∧
                        _reglas_instanciadas (agenda s1)
                          = _reglas_instanciadas (agenda s)) ∧
                     (0 < ciclos_ejecutados s1 → activadas s1) ∧
                     disparadas s1)
              (λ s1, 0 < ciclos_ejecutados s1))
    with (s := s)
    as (s' & Heq & (Hok' & _ & _ & _ & _ & Hact & Hdis) & _ & _ & _ & _ & HQ).
  - by intros s1 [H _].
  - intros s1 sigue s2 (Hok1 & Hext1 & Hcic1 & Hlen1 & Hcero & Hact1 & Hdis1) Hciclo.
    destruct (ciclo_extiende E kb s1 sigue s2 Hok1 Hciclo) as [Hok2 Hext2].
    destruct (ciclo_detalle E kb s1 sigue s2 Hok1 Hciclo)
      as (nuevas & HF & Hcic2 & Hcasos).
    assert (Hquedan : ∀ i a,
      (_reglas_instanciadas (agenda s1) ++ nuevas) !! i = Some a →
      ∃ a', _reglas_instanciadas (agenda s2) !! i = Some a' ∧
            ReglaInstanciada.regla_id a' = ReglaInstanciada.regla_id a).
    { intros i a Ha.
      destruct Hcasos as [[_ ->]|(ref & inst & regla & ids & _ & _ & _ & -> & _)];
        [eauto|].
      destruct (decide (i = ref)) as [->|Hne].
      - rewrite list_lookup_alter_eq, Ha. simpl. eauto.
      - rewrite list_lookup_alter_ne by done. eauto. }
    assert (Hviejas : ∀ i a regla act,
      (n0 ≤ i)%nat →
      (_reglas_instanciadas (agenda s1) ++ nuevas) !! i = Some a →
      ReglaInstanciada.ya_ejecutada a = true →
      obtener_regla_por_id kb (ReglaInstanciada.regla_id a) = Some regla →
      act ∈ ReglaProduccionAcademica.acciones regla →
      crea_hecho (AccionRegla.tipo act) = true →
      ∃ h, hecho_de (memoria s2) (AccionRegla.predicado act) h ∧
           Hecho.origen h = Some (ReglaProduccionAcademica.id regla) ∧
           _hechos (memoria s) !! Hecho.id h = None).
    { intros i a regla act Hi Ha Hej Hkb Hen Hcrea.
      apply lookup_app_Some in Ha as [Ha|[_ Ha]].
      - destruct (Hdis1 i a regla act Hi Ha Hej Hkb Hen Hcrea)
          as (h & [Hh Hp] & Ho & Hn).
        exists h. split; [|done]. split; [|done]. by apply Hext2.
      - apply list_elem_of_lookup_2, list_elem_of_lookup in Ha as [k Hk].
        destruct (Forall2_lookup_r _ _ _ _ _ HF Hk)
          as (r & _ & _ & _ & _ & _ & _ & Hno).
        congruence. }
    split; [|intros _; lia].
    split; [done|]. split; [by eapply extiende_trans|]. split; [lia|].
    split.
    { destruct Hcasos as [[_ ->]|(ref & inst & regla & ids & _ & _ & _ & -> & _)].
      - rewrite length_app. lia.
      - rewrite length_alter, length_app. lia. }
    split; [intros H0; lia|]. split.
    + intros _ regla Hin Hcumple.
      destruct (decide (ciclos_ejecutados s1 = 0)) as [H0|Hpos].
      * destruct (Hcero H0) as [Hmem Hl].
        assert (Hf : regla ∈ List.filter (regla_cumple E (memoria s1))
                                         (obtener_reglas kb)).
        { apply list_elem_of_In, filter_In.
          split; [by apply list_elem_of_In|by rewrite Hmem]. }
        apply list_elem_of_lookup in Hf as [k Hk].
        destruct (Forall2_lookup_l _ _ _ _ _ HF Hk) as (a & Ha & Hid & _).
        destruct (Hquedan (length (_reglas_instanciadas (agenda s1)) + k)%nat a)
          as (a' & Ha' & Hid').
        { by rewrite lookup_app_r, Nat.add_comm, Nat.add_sub by lia. }
        exists (length (_reglas_instanciadas (agenda s1)) + k)%nat, a'.
        split; [lia|]. split; [done|congruence].
      * destruct (Hact1 ltac:(lia) regla Hin Hcumple) as (i & a & Hi & Ha & Hid).
        destruct (Hquedan i a) as (a' & Ha' & Hid').
        { by apply lookup_app_l_Some. }
        exists i, a'. split; [done|]. split; [done|congruence].
    + intros i a regla act Hi Ha Hej Hkb Hen Hcrea.
      destruct Hcasos
        as [[Hmem Hl]|(ref & inst & regla_f & ids & Href & Hno & Hkbf & Hl & HFc)].
      * rewrite Hl in Ha. by eapply Hviejas.
      * rewrite Hl in Ha. destruct (decide (i = ref)) as [->|Hne].
        -- rewrite list_lookup_alter_eq, Href in Ha. injection Ha as <-.
           simpl in Hkb. rewrite Hkbf in Hkb. injection Hkb as ->.
           assert (Hf : act ∈ List.filter (λ a, crea_hecho (AccionRegla.tipo a))
                                  (ReglaProduccionAcademica.acciones regla)).
           { apply list_elem_of_In, filter_In.
             split; [by apply list_elem_of_In|done]. }
           apply list_elem_of_lookup in Hf as [k Hk].
           destruct (Forall2_lookup_l _ _ _ _ _ HFc Hk)
             as (hid & _ & h & Hh & Hn & Hid & Hp & _ & _ & Ho & _).
           exists h. split; [split; [by rewrite Hid|done]|]. split; [done|].
           rewrite Hid.
           destruct (_hechos (memoria s) !! hid) as [h0|] eqn:Hh0; [|done].
           apply Hext1 in Hh0. congruence.
        -- rewrite list_lookup_alter_ne in Ha by done. by eapply Hviejas.
  - done.
  - simpl. split; [done|]. split; [apply extiende_refl|]. split; [lia|].
    split; [done|]. split; [done|]. split; [lia|].
    unfold disparadas. intros i a regla act Hi Ha.
    apply lookup_lt_Some in Ha. unfold n0 in Hi. simpl in Ha. lia.
  - exists s'. split; [done|].
    intros Hvacia regla act Hin Hcumple Hkb Hen Hcrea.
    assert (Hpos : 0 < ciclos_ejecutados s').
    { destruct (Z_lt_le_dec (ciclos_ejecutados s') (max_ciclos s)) as [Hlt|Hge];
        [by apply HQ|lia]. }
    destruct (Hact Hpos regla Hin Hcumple) as (i & a & Hi & Ha & Hid).
    apply (Hdis i a regla act Hi Ha); [|by rewrite Hid|done|done].
    unfold esta_vacia in Hvacia. rewrite forallb_forall in Hvacia.
    apply Hvacia, list_elem_of_In. by eapply list_elem_of_lookup_2.
Qed.

Lemma sesion_interior_ok : MemoriaTrabajo_ok (memoria sesion_interior).
Proof.
  destruct (sembrar_forma entorno_simple hechos_interior
              (Sesion_init PRIORIDAD_EXPLICITA 10) MemoriaTrabajo_init_ok)
    as (s' & Heq & Hok & _).
  unfold sesion_interior. by rewrite Heq.
Qed.

Lemma inferir_dispara_las_que_cumplian_witness :
  ∃ s',
    inferir entorno_simple kb_sansevieria sesion_interior = Devuelve (tt, s') ∧
    (esta_vacia (agenda s') = true →
     ∀ regla a,
       regla ∈ obtener_reglas kb_sansevieria →
       regla_cumple entorno_simple (memoria sesion_interior) regla = true →
       obtener_regla_por_id kb_sansevieria (ReglaProduccionAcademica.id regla)
         = Some regla →
       a ∈ ReglaProduccionAcademica.acciones regla →
       crea_hecho (AccionRegla.tipo a) = true →
       ∃ h, hecho_de (memoria s') (AccionRegla.predicado a) h ∧
            Hecho.origen h = Some (ReglaProduccionAcademica.id regla) ∧
            _hechos (memoria sesion_interior) !! Hecho.id h = None).
Proof.
  apply (inferir_dispara_las_que_cumplian entorno_simple kb_sansevieria
           sesion_interior sesion_interior_ok).
  vm_compute. reflexivity.
Defined.
(** ** The endpoint *)

Lemma consultar_forma E kb hechos_iniciales s :
  ∃ s1 s',
    sembrar E hechos_iniciales
      (con_agenda (limpiar_agenda (agenda s))
         (con_memoria (limpiar_memoria (memoria s)) s)) = Devuelve (tt, s1) ∧
    consultar E kb hechos_iniciales s = Devuelve (tt, s') ∧
    (∀ i p v, hechos_iniciales !! i = Some (p, v) →
       _hechos (memoria s1) !! id_de_numero (N.of_nat (S i))
       = Some (hecho_inicial E (lecturas s) i p v)) ∧
    (∀ hid h, _hechos (memoria s1) !! hid = Some h → Hecho.tipo h = INICIAL) ∧
    MemoriaTrabajo_ok (memoria s') ∧
    extiende kb (memoria s1) (memoria s').
Proof.
  unfold consultar.
  rewrite (M_ligar_devuelve
             (modificar (λ s, con_memoria (limpiar_memoria (memoria s)) s))
             _ s tt _ eq_refl).
  rewrite (M_ligar_devuelve
             (modificar (λ s, con_agenda (limpiar_agenda (agenda s)) s))
             _ _ tt _ eq_refl).
  change (agenda (con_memoria (limpiar_memoria (memoria s)) s)) with (agenda s).
  set (s0 := con_agenda _ _).
  assert (Hok0 : MemoriaTrabajo_ok (memoria s0)) by apply MemoriaTrabajo_init_ok.
  destruct (sembrar_forma E hechos_iniciales s0 Hok0)
    as (s1 & Hsem & Hok1 & _ & _ & _ & _ & _ & Hini & Hdom).
  rewrite (M_ligar_devuelve _ _ _ _ _ Hsem).
  destruct (inferir_extiende E kb s1 Hok1) as (s' & Heq & Hok' & Hext).
  exists s1, s'. split; [done|]. split; [done|].
  split; [intros i p v Hi; apply (Hini i p v Hi)|]. split; [|done].
  intros hid h Hh. destruct (Hdom hid h Hh eq_refl) as (i & Hi & ->).
  destruct (lookup_lt_is_Some_2 hechos_iniciales i Hi) as [[p v] Hpv].
  pose proof (Hini i p v Hpv) as Hf. rewrite Hh in Hf. by injection Hf as ->.
Qed.

(** The coercion turns into a boolean exactly the strings that spell true
    or false in some mix of upper and lower case and leaves every other
    value as it is; applied twice it does nothing more, and it changes
    neither the keys of the body nor their order. *)
Lemma coercionar_datos_idempotente datos_usuario :
  coercionar_datos (coercionar_datos datos_usuario) = coercionar_datos datos_usuario ∧
  (coercionar_datos datos_usuario).*1 = datos_usuario.*1 ∧
  ∀ i p v, datos_usuario !! i = Some (p, v) →
    ∃ v', coercionar_datos datos_usuario !! i = Some (p, v') ∧
      ((∃ s (b : bool), v = PyStr s ∧
               str_lower s = (if b then "true" else "false") ∧ v' = PyBool b) ∨
       (v' = v ∧ ∀ s, v = PyStr s →
                      str_lower s ≠ "true" ∧ str_lower s ≠ "false")).
Proof.
  assert (Hcaso : ∀ v,
    (∃ s (b : bool), v = PyStr s ∧
            str_lower s = (if b then "true" else "false") ∧
            coercionar v = PyBool b) ∨
    (coercionar v = v ∧ ∀ s, v = PyStr s →
                             str_lower s ≠ "true" ∧ str_lower s ≠ "false")).
  { intros v. destruct v as [| | |s|]; try (right; split; [done|discriminate]).
    simpl. destruct (String.eqb (str_lower s) "true") eqn:Ht.
    - left. exists s, true. by apply String.eqb_eq in Ht.
    - destruct (String.eqb (str_lower s) "false") eqn:Hf.
      + left. exists s, false. by apply String.eqb_eq in Hf.
      + right. split; [done|]. intros s' [= <-].
        by apply String.eqb_neq in Ht, Hf. }
  assert (Hidem : ∀ v, coercionar (coercionar v) = coercionar v).
  { intros v. destruct (Hcaso v) as [(s & b & _ & _ & ->)|[Hc _]]; [done|].
    by rewrite !Hc. }
  split; [|split].
  - unfold coercionar_datos. rewrite <- list_fmap_compose.
    apply list_fmap_ext. intros _ [p v] _. simpl. by rewrite Hidem.
  - unfold coercionar_datos. rewrite <- list_fmap_compose.
    by apply list_fmap_ext.
  - intros i p v Hi. exists (coercionar v). split.
    + unfold coercionar_datos. by rewrite list_lookup_fmap, Hi.
    + destruct (Hcaso v) as [(s & b & Hv & Hs & Hc)|[Hc Hno]].
      * left. by exists s, b.
      * right. by rewrite Hc.
Qed.

(** ** The rules of the repository *)

Lemma obtener_regla_por_id_en reglas regla_id regla :
  obtener_regla_por_id (base_de_reglas reglas) regla_id = Some regla →
  regla ∈ reglas ∧ ReglaProduccionAcademica.id regla = regla_id.
Proof.
  simpl. rewrite foldl_indice_reglas.
  destruct (last _) as [r|] eqn:Hl; [|by rewrite lookup_empty].
  intros [= ->].
  apply last_Some_elem_of, list_elem_of_In, filter_In in Hl as [Hin Hid].
  split; [by apply list_elem_of_In|by apply String.eqb_eq].
Qed.

Ltac por_regla H :=
  repeat (apply elem_of_cons in H as [->|H]); [..|by apply elem_of_nil in H].

(** X27: the twenty rules of the repository have pairwise distinct ids, so
    that the knowledge base finds each of them under its own id and no
    activation is ever skipped for want of its rule.  Their conditions use
    only operators the evaluator implements and name no variable; each rule
    has a single action, of a kind that creates a fact and with a literal
    value, and carries a NO_EXISTE condition on the predicate of that
    action. *)
Theorem catalogo_bien_formado :
  NoDup (ReglaProduccionAcademica.id <$> _crear_reglas) ∧
  ∀ regla, regla ∈ obtener_reglas BaseConocimientoBotanicoTDF →
    obtener_regla_por_id BaseConocimientoBotanicoTDF
      (ReglaProduccionAcademica.id regla) = Some regla ∧
    (∀ c, c ∈ ReglaProduccionAcademica.condiciones regla →
       operador_sin_implementar (CondicionRegla.operador c) = false ∧
       variable_ligada c = None) ∧
    ∃ a c,
      ReglaProduccionAcademica.acciones regla = [a] ∧
      crea_hecho (AccionRegla.tipo a) = true ∧
      (∀ bindings, valor_resuelto bindings (AccionRegla.valor a)
                                  (AccionRegla.valor a)) ∧
      c ∈ ReglaProduccionAcademica.condiciones regla ∧
      CondicionRegla.operador c = NO_EXISTE ∧
      CondicionRegla.predicado c = AccionRegla.predicado a.
Proof.
  split.
  - apply (bool_decide_unpack _). vm_compute. reflexivity.
  - intros regla Hin. simpl in Hin. unfold _crear_reglas in Hin.
    por_regla Hin;
      (split; [vm_compute; reflexivity|]);
      (split;
       [ intros c Hc; simpl in Hc;
         repeat (apply elem_of_cons in Hc as [->|Hc]);
           [..|by apply elem_of_nil in Hc]; by split
       | eexists _, _; split; [reflexivity|]; split; [reflexivity|];
         split; [intros b; apply vr_literal; discriminate|];
         split; [apply list_elem_of_In; simpl; eauto 10|];
         split; reflexivity ]).
Qed.
Lemma valor_resuelto_literal bindings v v' :
  (∀ nombre, v ≠ PyStr (String "$" nombre)) →
  valor_resuelto bindings v v' → v' = v.
Proof. intros Hlit Hv. by destruct Hv as [n x _|n _|x _]; [destruct (Hlit n)..|]. Qed.

(** ** The consultation with its output *)

Lemma assert_hecho_M_print_imprime C E p v ty o j c s :
  print_hecho C ty p v = None →
  assert_hecho_M_print C E p v ty o j c s = assert_hecho_M E p v ty o j c s.
Proof.
  intros Hp. unfold assert_hecho_M_print, assert_hecho_M, assert_hecho_print.
  desplegar_M. rewrite Hp.
  by destruct (assert_hecho _ _ _ _ _ _ _ _) as [[hid m']| |].
Qed.

Lemma assert_hecho_M_print_lanza C E p v ty o j c e s :
  MemoriaTrabajo_ok (memoria s) →
  print_hecho C ty p v = Some e →
  assert_hecho_M_print C E p v ty o j c s = Lanza e.
Proof.
  intros Hok Hp.
  destruct (assert_hecho_spec (reloj E (lecturas s)) (memoria s) p v ty o j c Hok)
    as (m' & Heq & _).
  unfold assert_hecho_M_print, assert_hecho_print. desplegar_M.
  rewrite Heq. simpl. by rewrite Hp.
Qed.

Lemma M_ligar_ext {A B : Type} (c c' : M A) (k k' : A → M B) s :
  c s = c' s → (∀ a s', k a s' = k' a s') → M_ligar c k s = M_ligar c' k' s.
Proof.
  intros Hc Hk. unfold M_ligar. rewrite Hc.
  by destruct (c' s) as [[a s']| |].
Qed.

Lemma ejecutar_accion_print_imprime C E regla bindings a creados s :
  imprime_accion C a →
  ejecutar_accion_print C E regla bindings a creados s
  = ejecutar_accion E regla bindings a creados s.
Proof.
  intros Ha. unfold ejecutar_accion_print, ejecutar_accion, imprime_accion in *.
  destruct (AccionRegla.tipo a); try reflexivity;
    (apply M_ligar_ext; [|done]);
    apply assert_hecho_M_print_imprime, (Ha eq_refl bindings),
          valor_resuelto_codigo.
Qed.

Lemma ejecutar_resto_print_imprime C E regla bindings acciones :
  (∀ a, a ∈ acciones → imprime_accion C a) →
  ∀ creados s,
    ejecutar_resto_print C E regla bindings acciones creados s
    = ejecutar_resto E regla bindings acciones creados s.
Proof.
  induction acciones as [|a resto IH]; intros Hacc creados s; [done|].
  cbn [ejecutar_resto_print ejecutar_resto]. apply M_ligar_ext.
  - apply ejecutar_accion_print_imprime, Hacc. left.
  - intros creados' s'. apply IH. intros a' Ha'. apply Hacc. by right.
Qed.

Lemma fase_act_print_imprime C E kb ref inst s :
  imprime_reglas C kb →
  fase_act_print C E kb ref inst s = fase_act E kb ref inst s.
Proof.
  intros Hkb. unfold fase_act_print, fase_act.
  destruct (obtener_regla_por_id kb (ReglaInstanciada.regla_id inst))
    as [regla|] eqn:Hregla; [|done].
  apply M_ligar_ext; [|done].
  apply ejecutar_resto_print_imprime. intros a Ha. by eapply Hkb.
Qed.

Lemma ciclo_print_imprime C E kb s :
  imprime_reglas C kb → ciclo_print C E kb s = ciclo E kb s.
Proof.
  intros Hkb. unfold ciclo_print, ciclo.
  apply M_ligar_ext; [done|]. intros _ s1.
  apply M_ligar_ext; [done|]. intros _ s2.
  apply M_ligar_ext; [done|]. intros s3 s4.
  apply M_ligar_ext; [done|]. intros [[ref inst]|] s5; [|done].
  apply M_ligar_ext; [|done]. by apply fase_act_print_imprime.
Qed.

Lemma bucle_print_imprime C E kb :
  imprime_reglas C kb →
  ∀ combustible s, bucle_print C E kb combustible s = bucle E kb combustible s.
Proof.
  intros Hkb. induction combustible as [|n IH]; intros s.
  - done.
  - cbn [bucle_print bucle]. apply M_ligar_ext; [done|]. intros s1 s2.
    destruct (ciclos_ejecutados s1 <? max_ciclos s1); [|done].
    apply M_ligar_ext; [by apply ciclo_print_imprime|].
    intros [|] s3; [apply IH|done].
Qed.

Lemma inferir_print_imprime C E kb s :
  imprime_reglas C kb → inferir_print C E kb s = inferir E kb s.
Proof.
  intros Hkb. unfold inferir_print, inferir.
  apply M_ligar_ext; [done|]. intros _ s1.
  apply M_ligar_ext; [done|]. intros s2 s3.
  apply M_ligar_ext; [by apply bucle_print_imprime|done].
Qed.

Lemma sembrar_print_imprime C E hechos_iniciales :
  Forall (imprime_inicial C) hechos_iniciales →
  ∀ s, sembrar_print C E hechos_iniciales s = sembrar E hechos_iniciales s.
Proof.
  induction 1 as [|[p v] resto Hpv _ IH]; intros s; [done|].
  cbn [sembrar_print sembrar]. apply M_ligar_ext; [|intros _; apply IH].
  by apply assert_hecho_M_print_imprime.
Qed.

Lemma sembrar_print_lanza C E hechos_iniciales : ∀ i p v e s,
  MemoriaTrabajo_ok (memoria s) →
  hechos_iniciales !! i = Some (p, v) →
  Forall (imprime_inicial C) (take i hechos_iniciales) →
  print_hecho C INICIAL p v = Some e →
  sembrar_print C E hechos_iniciales s = Lanza e.
Proof.
  induction hechos_iniciales as [|[p0 v0] resto IH]; intros i p v e s Hok Hi Hantes Hp;
    [by rewrite lookup_nil in Hi|].
  cbn [sembrar_print]. destruct i as [|i]; simpl in Hi, Hantes.
  - injection Hi as -> ->. unfold M_ligar.
    by rewrite (assert_hecho_M_print_lanza C E p v INICIAL None _ _ e s Hok Hp).
  - apply Forall_cons in Hantes as [Hp0 Hantes].
    destruct (assert_hecho_M_forma E p0 v0 INICIAL None
                "Dato de entrada del usuario" 1%Q s Hok)
      as (s1 & Heq & _ & _ & _ & Hok1 & _).
    rewrite <- (assert_hecho_M_print_imprime C) in Heq by exact Hp0.
    rewrite (M_ligar_devuelve _ _ _ _ _ Heq).
    by apply (IH i p v e s1).
Qed.

Lemma consultar_print_imprime C E kb hechos_iniciales s :
  imprime_reglas C kb →
  Forall (imprime_inicial C) hechos_iniciales →
  consultar_print C E kb hechos_iniciales s = consultar E kb hechos_iniciales s.
Proof.
  intros Hkb Hini. unfold consultar_print, consultar.
  apply M_ligar_ext; [done|]. intros _ s1.
  apply M_ligar_ext; [done|]. intros _ s2.
  apply M_ligar_ext; [by apply sembrar_print_imprime|].
  intros _ s3. by apply inferir_print_imprime.
Qed.

Lemma consultar_print_lanza C E kb hechos_iniciales i p v e s :
  hechos_iniciales !! i = Some (p, v) →
  Forall (imprime_inicial C) (take i hechos_iniciales) →
  print_hecho C INICIAL p v = Some e →
  consultar_print C E kb hechos_iniciales s = Lanza e.
Proof.
  intros Hi Hantes Hp. unfold consultar_print.
  rewrite (M_ligar_devuelve
             (modificar (λ s, con_memoria (limpiar_memoria (memoria s)) s))
             _ s tt _ eq_refl).
  rewrite (M_ligar_devuelve
             (modificar (λ s, con_agenda (limpiar_agenda (agenda s)) s))
             _ _ tt _ eq_refl).
  unfold M_ligar.
  rewrite (sembrar_print_lanza C E hechos_iniciales i p v e); try done.
  apply MemoriaTrabajo_init_ok.
Qed.

Lemma imprime_reglas_tdf C :
  (∀ regla a,
     regla ∈ _crear_reglas →
     a ∈ ReglaProduccionAcademica.acciones regla →
     print_hecho C (tipo_creado (AccionRegla.tipo a)) (AccionRegla.predicado a)
                 (AccionRegla.valor a) = None) →
  imprime_reglas C BaseConocimientoBotanicoTDF.
Proof.
  intros Hcat regla_id regla a Hkb Ha _ bindings v Hv.
  apply obtener_regla_por_id_en in Hkb as [Hin _].
  pose proof (Hcat regla a Hin Ha) as Hp.
  assert (v = AccionRegla.valor a) as ->; [|done].
  apply (valor_resuelto_literal bindings); [|done].
  unfold _crear_reglas in Hin.
  por_regla Hin; simpl in Ha; apply list_elem_of_singleton in Ha; subst a;
    intros n; discriminate.
Qed.

Lemma consola_cpython_catalogo regla a :
  regla ∈ _crear_reglas →
  a ∈ ReglaProduccionAcademica.acciones regla →
  print_hecho consola_cpython (tipo_creado (AccionRegla.tipo a))
              (AccionRegla.predicado a) (AccionRegla.valor a) = None.
Proof.
  intros Hin Ha. unfold _crear_reglas in Hin.
  por_regla Hin; simpl in Ha; apply list_elem_of_singleton in Ha; subst a;
    reflexivity.
Qed.



(** X26: for a request with a body that is not empty, and with the system
    available, the status of the answer is decided by the lines that seeding
    prints, on a console that prints the lines of the facts the rules can
    create.  When the console prints the line of every entry of the body,
    taken after the coercion of the strings that spell true or false, the
    consultation returns and the status is 200: the two lists of the answer
    are the facts of category CONCLUSION and DERIVADO of the store the
    consultation leaves, serialized, in the order of their identifiers, and
    the value filed for each entry is the entry's value after the coercion.
    When the console refuses the line of an entry, the [except] branch
    answers with status 500 and the exception of the first such line. *)
Theorem api_consultar_responde C E kb isoformat s datos_usuario :
  datos_usuario ≠ [] →
  imprime_reglas C kb →
  (Forall (imprime_inicial C) (coercionar_datos datos_usuario) →
   ∃ s',
     consultar_print C E kb (coercionar_datos datos_usuario) s
       = Devuelve (tt, s') ∧
     api_consultar C E kb isoformat (Some s) datos_usuario
       = Devuelve (Procesada
           (serializar_hecho isoformat <$>
              List.filter (λ h, bool_decide (Hecho.tipo h = CONCLUSION))
                          (valores_hechos (memoria s')))
           (serializar_hecho isoformat <$>
              List.filter (λ h, bool_decide (Hecho.tipo h = DERIVADO))
                          (valores_hechos (memoria s')))) ∧
     ∀ i p v, datos_usuario !! i = Some (p, v) →
       _hechos (memoria s') !! id_de_numero (N.of_nat (S i))
       = Some (hecho_inicial E (lecturas s) i p (coercionar v))) ∧
  (∀ i p v e,
     datos_usuario !! i = Some (p, v) →
     Forall (imprime_inicial C) (take i (coercionar_datos datos_usuario)) →
     print_hecho C INICIAL p (coercionar v) = Some e →
     api_consultar C E kb isoformat (Some s) datos_usuario
       = Devuelve (ErrorInterno e)).
Proof.
  intros Hdatos Hkb. split.
  - intros Himp.
    destruct (consultar_forma E kb (coercionar_datos datos_usuario) s)
      as (s1 & s' & _ & Heq & Hini & _ & _ & Hpres & _).
    rewrite <- (consultar_print_imprime C) in Heq by done.
    exists s'. split; [done|]. split.
    + unfold api_consultar. destruct datos_usuario as [|kv resto]; [done|].
      rewrite Heq. simpl. f_equal. f_equal.
      * apply (hechos_con_tipo_value isoformat CONCLUSION).
      * apply (hechos_con_tipo_value isoformat DERIVADO).
    + intros i p v Hi. apply Hpres, Hini.
      unfold coercionar_datos. by rewrite list_lookup_fmap, Hi.
  - intros i p v e Hi Hantes Hp.
    assert (Hlanza : consultar_print C E kb (coercionar_datos datos_usuario) s
                     = Lanza e).
    { apply (consultar_print_lanza C E kb _ i p (coercionar v)); [|done..].
      unfold coercionar_datos. by rewrite list_lookup_fmap, Hi. }
    unfold api_consultar. destruct datos_usuario as [|kv resto]; [done|].
    by rewrite Hlanza.
Qed.

Lemma api_consultar_responde_witness :
  (∃ s',
     consultar_print consola_cpython entorno_simple BaseConocimientoBotanicoTDF
                     (coercionar_datos datos_interior) sesion_usada
       = Devuelve (tt, s') ∧
     api_consultar consola_cpython entorno_simple BaseConocimientoBotanicoTDF
                   (λ _, EmptyString) (Some sesion_usada) datos_interior
       = Devuelve (Procesada
           (serializar_hecho (λ _, EmptyString) <$>
              List.filter (λ h, bool_decide (Hecho.tipo h = CONCLUSION))
                          (valores_hechos (memoria s')))
           (serializar_hecho (λ _, EmptyString) <$>
              List.filter (λ h, bool_decide (Hecho.tipo h = DERIVADO))
                          (valores_hechos (memoria s')))) ∧
     ∀ i p v, datos_interior !! i = Some (p, v) →
       _hechos (memoria s') !! id_de_numero (N.of_nat (S i))
       = Some (hecho_inicial entorno_simple (lecturas sesion_usada) i p
                             (coercionar v))) ∧
  (∀ i p v e,
     datos_interior !! i = Some (p, v) →
     Forall (imprime_inicial consola_cpython)
            (take i (coercionar_datos datos_interior)) →
     print_hecho consola_cpython INICIAL p (coercionar v) = Some e →
     api_consultar consola_cpython entorno_simple BaseConocimientoBotanicoTDF
                   (λ _, EmptyString) (Some sesion_usada) datos_interior
       = Devuelve (ErrorInterno e)).
Proof.
  destruct (api_consultar_responde consola_cpython entorno_simple
              BaseConocimientoBotanicoTDF (λ _, EmptyString) sesion_usada
              datos_interior ltac:(discriminate)
              (imprime_reglas_tdf consola_cpython consola_cpython_catalogo))
    as [Hretorna Hlanza].
  split; [|exact Hlanza].
  apply Hretorna. repeat constructor.
Defined.

(** The two answers of the endpoint on the rules of the repository: a body
    whose lines are all printed is answered with the conclusion and the
    derived fact of the case; a body that carries an integer of 4301 digits
    is answered with status 500. *)
Example api_consultar_ejemplos :
  let responde :=
    api_consultar consola_cpython entorno_simple BaseConocimientoBotanicoTDF
                  (λ _, EmptyString) (Some sesion_usada) in
  match responde datos_interior, responde datos_sin_linea with
  | Devuelve (Procesada conclusiones hechos_derivados as r), Devuelve r' =>
      (codigo r, HechoSerializado.valor <$> conclusiones,
       HechoSerializado.valor <$> hechos_derivados, r', codigo r')
      = (200, [PyStr "Sansevieria / Lengua de suegra"], [PyBool true],
         ErrorInterno ValueError, 500)
  | _, _ => False
  end.
Proof. vm_compute. reflexivity. Qed.

(** X28: with the rules of the repository, on a console that prints the
    lines of the initial facts and the twenty lines the rules can add, a
    consultation raises nothing, whatever the session, and every fact it
    leaves that is not an initial fact is the work of one of the twenty
    rules: either the fact [ambiente_seco_extremo = True], of category
    DERIVADO and with the diagnosis rule R001 as origin, or a fact
    [planta_ideal] of category CONCLUSION whose value, confidence and
    justification are those of the single action of a rule of the domain
    "recomendacion_final", its origin. *)
Theorem consultar_tdf C E hechos_iniciales s :
  Forall (imprime_inicial C) hechos_iniciales →
  (∀ regla a,
     regla ∈ _crear_reglas →
     a ∈ ReglaProduccionAcademica.acciones regla →
     print_hecho C (tipo_creado (AccionRegla.tipo a)) (AccionRegla.predicado a)
                 (AccionRegla.valor a) = None) →
  ∃ s',
    consultar_print C E BaseConocimientoBotanicoTDF hechos_iniciales s
      = Devuelve (tt, s') ∧
    ∀ hid h, _hechos (memoria s') !! hid = Some h →
      Hecho.tipo h = INICIAL ∨
      (Hecho.tipo h = DERIVADO ∧
       Hecho.predicado h = "ambiente_seco_extremo" ∧
       Hecho.valor h = PyBool true ∧
       Hecho.origen h = Some "R001_AMBIENTE_INTERIOR_TDF_INVIERNO") ∨
      (Hecho.tipo h = CONCLUSION ∧
       Hecho.predicado h = "planta_ideal" ∧
       ∃ regla a,
         regla ∈ _crear_reglas ∧
         ReglaProduccionAcademica.dominio regla = "recomendacion_final" ∧
         ReglaProduccionAcademica.acciones regla = [a] ∧
         Hecho.origen h = Some (ReglaProduccionAcademica.id regla) ∧
         Hecho.valor h = AccionRegla.valor a ∧
         Hecho.confianza h = AccionRegla.confianza a ∧
         Hecho.justificacion h = AccionRegla.explicacion a).
Proof.
  intros Himp Hcat.
  destruct (consultar_forma E BaseConocimientoBotanicoTDF hechos_iniciales s)
    as (s1 & s' & _ & Heq & _ & Hini & _ & Hpres & Hnuevos).
  rewrite <- (consultar_print_imprime C) in Heq
    by (try apply imprime_reglas_tdf; done).
  exists s'. split; [done|]. intros hid h Hh.
  destruct (_hechos (memoria s1) !! hid) as [h1|] eqn:Hh1.
  { left. assert (h1 = h) as -> by (apply Hpres in Hh1; congruence). eauto. }
  right.
  destruct (Hnuevos hid h Hh Hh1)
    as (rid & regla & a & Hkb & Ha & _ & Ho & Hp & Ht & Hc & Hj & b & Hv).
  apply obtener_regla_por_id_en in Hkb as [Hin _].
  assert (Hen := Hin). unfold _crear_reglas in Hin.
  por_regla Hin; simpl in Ha;
    apply list_elem_of_singleton in Ha; subst a;
    apply valor_resuelto_literal in Hv; try (intros n; discriminate);
    simpl in Hv, Hp, Ht, Ho.
  1: by left.
  all: right; split; [done|]; split; [done|];
    eexists _, _; split; [exact Hen|]; split; [reflexivity|];
    split; [reflexivity|]; done.
Qed.

Lemma consultar_tdf_witness :
  ∃ s',
    consultar_print consola_cpython entorno_simple BaseConocimientoBotanicoTDF
                    caso_prueba sesion_usada = Devuelve (tt, s') ∧
    ∀ hid h, _hechos (memoria s') !! hid = Some h →
      Hecho.tipo h = INICIAL ∨
      (Hecho.tipo h = DERIVADO ∧
       Hecho.predicado h = "ambiente_seco_extremo" ∧
       Hecho.valor h = PyBool true ∧
       Hecho.origen h = Some "R001_AMBIENTE_INTERIOR_TDF_INVIERNO") ∨
      (Hecho.tipo h = CONCLUSION ∧
       Hecho.predicado h = "planta_ideal" ∧
       ∃ regla a,
         regla ∈ _crear_reglas ∧
         ReglaProduccionAcademica.dominio regla = "recomendacion_final" ∧
         ReglaProduccionAcademica.acciones regla = [a] ∧
         Hecho.origen h = Some (ReglaProduccionAcademica.id regla) ∧
         Hecho.valor h = AccionRegla.valor a ∧
         Hecho.confianza h = AccionRegla.confianza a ∧
         Hecho.justificacion h = AccionRegla.explicacion a).
Proof.
  apply (consultar_tdf consola_cpython entorno_simple caso_prueba sesion_usada).
  - repeat constructor.
  - exact consola_cpython_catalogo.
Defined.

(** The case of [main_cli]: the diagnosis rule fires, then the rule that
    follows from it; the answer of the endpoint would list the one
    conclusion, and the list [main_cli] builds from the same trace is
    empty. *)
Example escenario_caso_prueba :
  match consultar entorno_simple BaseConocimientoBotanicoTDF caso_prueba
                  (Sesion_init PRIORIDAD_EXPLICITA 10) with
  | Devuelve (_, s) =>
      let traza := generar_trace_explicacion (λ _, EmptyString) (memoria s) in
      (ciclos_ejecutados s, razon_terminacion s,
       HechoSerializado.valor <$> api_conclusiones traza,
       cli_conclusiones traza)
      = (3, AgendaVacia, [PyStr "Sansevieria / Lengua de suegra"], [])
  | _ => False
  end.
Proof. vm_compute. reflexivity. Qed.

(** A case in which a recommendation matches from the first cycle while the
    diagnosis rule fires first: the rule for low light is activated in the
    first cycle and again in the second, its guard being still open, and
    once the agenda is exhausted both activations have fired, after the rule
    that closed the guard: three conclusions, the same plant twice. *)
Example escenario_poca_luz :
  match consultar entorno_simple BaseConocimientoBotanicoTDF caso_poca_luz
                  (Sesion_init PRIORIDAD_EXPLICITA 10) with
  | Devuelve (_, s) =>
      let traza := generar_trace_explicacion (λ _, EmptyString) (memoria s) in
      (ciclos_ejecutados s, razon_terminacion s,
       ReglaInstanciada.regla_id <$> _reglas_instanciadas (agenda s),
       _historial_ejecucion (agenda s),
       HechoSerializado.valor <$> api_conclusiones traza)
      = (5, AgendaVacia,
         ["R001_AMBIENTE_INTERIOR_TDF_INVIERNO"; "R004_INTERIOR_POCA_LUZ";
          "R002_RECOMENDAR_SANSEVIERIA_SECO"; "R004_INTERIOR_POCA_LUZ"],
         [0%nat; 2%nat; 1%nat; 3%nat],
         [PyStr "Sansevieria / Lengua de suegra"; PyStr "Potus"; PyStr "Potus"])
  | _ => False
  end.
Proof. vm_compute. reflexivity. Qed.

(** ** The rule a cycle fires *)

(** X29: a cycle that starts on an exhausted agenda, as the first cycle of
    a consultation does, and under the strategy of specificity or of
    priority, leaves the loop exactly when no rule of the knowledge base
    matches the store; otherwise the activation it selects is the one it has
    just made for a rule that matches, no rule that matches has a greater
    key, and every rule that matches and is listed before it has a strictly
    smaller key: the best rule wins, the earliest listed among equals. *)
Theorem ciclo_selecciona_la_mejor E kb s sigue s' :
  MemoriaTrabajo_ok (memoria s) →
  esta_vacia (agenda s) = true →
  _estrategia (agenda s) ≠ RECENCIA →
  ciclo E kb s = Devuelve (sigue, s') →
  let cumplen := List.filter (regla_cumple E (memoria s)) (obtener_reglas kb) in
  (sigue = false ↔ cumplen = []) ∧
  (sigue = true →
   ∃ k regla s1 inst,
     cumplen !! k = Some regla ∧
     (∀ k' r', cumplen !! k' = Some r' →
        regla_menor_igual (_estrategia (agenda s)) r' regla ∧
        ((k' < k)%nat → regla_menor (_estrategia (agenda s)) r' regla)) ∧
     fase_match E (obtener_reglas kb) (con_ciclos (ciclos_ejecutados s + 1) s)
       = Devuelve (tt, s1) ∧
     seleccionar_proxima_regla (agenda s1)
       = Devuelve (Some ((length (_reglas_instanciadas (agenda s)) + k)%nat, inst)) ∧
     activacion_de E (memoria s) regla inst).
Proof.
  intros Hok Hvacia Hest Hciclo cumplen.
  destruct (ciclo_casos E kb s Hok) as (s1 & Hmatch & Hcasos).
  destruct (fase_match_forma E (obtener_reglas kb)
              (con_ciclos (ciclos_ejecutados s + 1) s) Hok)
    as (s1' & nuevas & Hmatch' & Hmem & _ & Hl & He & _ & HF & _).
  assert (s1' = s1) as -> by congruence. simpl in Hmem, Hl, He, HF.
  fold cumplen in HF.
  pose proof (seleccionar_proxima_regla_spec (agenda s1)) as Hspec.
  assert (Hviejas : ∀ j a, _reglas_instanciadas (agenda s) !! j = Some a →
                           ReglaInstanciada.ya_ejecutada a = true).
  { intros j a Ha. unfold esta_vacia in Hvacia. rewrite forallb_forall in Hvacia.
    apply Hvacia, list_elem_of_In. by eapply list_elem_of_lookup_2. }
  assert (Hsigue : sigue = false ↔
                   seleccionar_proxima_regla (agenda s1) = Devuelve None).
  { destruct Hcasos as [[Hsel Heq]|(ref & inst & Hsel & [[_ Heq]|Hact])].
    - rewrite Heq in Hciclo. injection Hciclo as <- _. by rewrite Hsel.
    - rewrite Heq in Hciclo. injection Hciclo as <- _. by rewrite Hsel.
    - destruct Hact as (regla & ids & s2 & _ & _ & Heq).
      rewrite Heq in Hciclo. injection Hciclo as <- _. by rewrite Hsel. }
  split.
  - rewrite Hsigue. split.
    + intros Hsel. rewrite Hsel in Hspec.
      destruct cumplen as [|r rs] eqn:Hc; [done|].
      apply Forall2_cons_inv_l in HF as (a & nuevas' & Ha & _ & ->).
      destruct Ha as (_ & _ & _ & _ & _ & Hno).
      assert (Hen : a ∈ _reglas_instanciadas (agenda s1)).
      { rewrite Hl. apply elem_of_app. right. left. }
      apply Hspec in Hen. congruence.
    + intros Hc. rewrite Hc in HF. apply Forall2_nil_inv_l in HF as ->.
      rewrite app_nil_r in Hl.
      destruct (seleccionar_proxima_regla (agenda s1)) as [[[i r]|]| |];
        [|done|done|done].
      destruct Hspec as (Hi & Hr & _). rewrite Hl in Hi.
      apply Hviejas in Hi. congruence.
  - intros ->.
    destruct (seleccionar_proxima_regla (agenda s1)) as [[[i inst]|]| |] eqn:Hsel;
      [| |done|done].
    2: { discriminate (proj2 Hsigue eq_refl). }
    destruct Hspec as (Hi & Hr & Hmax). rewrite Hl in Hi.
    apply lookup_app_Some in Hi as [Hi|[Hlen Hi]].
    { apply Hviejas in Hi. congruence. }
    set (n := length (_reglas_instanciadas (agenda s))) in *.
    destruct (Forall2_lookup_r _ _ _ _ _ HF Hi) as (regla & Hk & Hde).
    exists (i - n)%nat, regla, s1, inst.
    split; [done|]. split.
    + intros k' r' Hk'.
      destruct (Forall2_lookup_l _ _ _ _ _ HF Hk') as (a' & Ha' & Hde').
      destruct Hde as (_ & _ & _ & Hesp & Hprio & _).
      destruct Hde' as (_ & _ & _ & Hesp' & Hprio' & Hno').
      destruct (Hmax (n + k')%nat a') as [Hle Hlt].
      { rewrite Hl. by rewrite lookup_app_r, Nat.add_comm, Nat.add_sub by lia. }
      { done. }
      rewrite He in Hle, Hlt.
      destruct (_estrategia (agenda s)); simpl in *; [|done|].
      * rewrite <- Hesp, <- Hesp'. split; [done|]. intros Hlt'. apply Hlt. lia.
      * rewrite <- Hprio, <- Hprio'. split; [done|]. intros Hlt'. apply Hlt. lia.
    + split; [done|]. split; [|done].
      rewrite Hsel. do 3 f_equal. lia.
Qed.

Lemma ciclo_selecciona_la_mejor_witness :
    let cumplen :=
      List.filter (regla_cumple entorno_simple (memoria sesion_interior))
                  (obtener_reglas BaseConocimientoBotanicoTDF) in
    (true = false ↔ cumplen = []) ∧
    (true = true →
     ∃ k regla s1 inst,
       cumplen !! k = Some regla ∧
       (∀ k' r', cumplen !! k' = Some r' →
          regla_menor_igual (_estrategia (agenda sesion_interior)) r' regla ∧
          ((k' < k)%nat →
           regla_menor (_estrategia (agenda sesion_interior)) r' regla)) ∧
       fase_match entorno_simple (obtener_reglas BaseConocimientoBotanicoTDF)
         (con_ciclos (ciclos_ejecutados sesion_interior + 1) sesion_interior)
         = Devuelve (tt, s1) ∧
       seleccionar_proxima_regla (agenda s1)
         = Devuelve (Some ((length (_reglas_instanciadas (agenda sesion_interior))
                            + k)%nat, inst)) ∧
       activacion_de entorno_simple (memoria sesion_interior) regla inst).
Proof.
  destruct (ciclo entorno_simple BaseConocimientoBotanicoTDF sesion_interior)
    as [[[|] s']| |] eqn:Hciclo;
    [|exfalso; vm_compute in Hciclo; discriminate Hciclo..].
  apply (ciclo_selecciona_la_mejor entorno_simple BaseConocimientoBotanicoTDF
           sesion_interior true s' sesion_interior_ok).
  - reflexivity.
  - vm_compute. discriminate.
  - exact Hciclo.
Defined.
